(** * SOFA: the event pipeline of the application page

    A shallow embedding of the [enrichedData] computation of the
    application page (timeline merging and laytime allocation over the
    events extracted from a Statement of Fact), of its helper
    [formatMinutesToDuration], and of the sweep that the analytics
    dashboard component carries, followed by the properties of the
    specification that concern them.

    The development then covers the code around the pipeline: the
    components that show its result (the laytime calculator, the
    assistant and the timeline chart), the extraction flow and the upload
    route, the chart of the earlier dashboard component and two other
    versions of the pipeline of the page.

    Modelling choices.
    - Instants are integral milliseconds since the epoch, as returned by
      [Date.prototype.getTime].
    - A time field of an event is a string; it is modelled by what the
      code observes of it: it is falsy ([undefined] or the empty string),
      or a non-empty string that [parseISO] does not read, or a string
      that [parseISO] reads as an instant.
    - Library calls that can raise ([format] on an Invalid Date, [reduce]
      on an empty array, a property read on [undefined]) return in an
      exception monad; an Invalid Date and [NaN] are [None].
    - Every number of the pipeline is an integer or [NaN]:
      [differenceInMinutes] and [differenceInHours] truncate, and the
      totals are sums of such integers. *)

From Stdlib Require Import ZArith List Bool Lia.
From Stdlib Require Import Strings.String Strings.Ascii.
From Stdlib Require Import Numbers.DecimalString.
From Stdlib Require Import Sorting.Sorted Sorting.Permutation.
From Stdlib Require Import Numbers.DecimalPos Numbers.DecimalZ.
Import ListNotations.

Open Scope string_scope.
Open Scope list_scope.
Open Scope Z_scope.

(** ** The JavaScript values the pipeline manipulates *)

Module Js.

(** The two exceptions the library calls and property accesses of the
    pipeline can raise. *)
Inductive error : Type :=
| TypeError
| RangeError.

Inductive Exc (A : Type) : Type :=
| Ok (a : A)
| Throw (e : error).

Arguments Ok {A} a.
Arguments Throw {A} e.

Definition bind {A B : Type} (m : Exc A) (k : A -> Exc B) : Exc B :=
  match m with
  | Ok a => k a
  | Throw e => Throw e
  end.

(** [Array.prototype.map] with a callback that may throw. *)
Fixpoint mapM {A B : Type} (f : A -> Exc B) (l : list A) : Exc (list B) :=
  match l with
  | [] => Ok []
  | x :: r =>
      bind (f x) (fun y => bind (mapM f r) (fun ys => Ok (y :: ys)))
  end.

(** A [for ... of] loop whose body may throw, threading the loop state. *)
Fixpoint foldM {A S : Type} (f : S -> A -> Exc S) (l : list A) (s : S)
  : Exc S :=
  match l with
  | [] => Ok s
  | x :: r => bind (f s x) (foldM f r)
  end.

(** [arr[i].field]: reading a property of [undefined] is a [TypeError]. *)
Definition at_index {A : Type} (l : list A) (i : Z) : Exc A :=
  if i <? 0 then Throw TypeError
  else match nth_error l (Z.to_nat i) with
       | Some x => Ok x
       | None => Throw TypeError
       end.

(** [Array.prototype.reduce] without an initial value. *)
Definition reduce1 {A : Type} (f : A -> A -> A) (l : list A) : Exc A :=
  match l with
  | [] => Throw TypeError
  | x :: r => Ok (fold_left f r x)
  end.

(** Numbers: an integer, or [None] for [NaN]. *)
Definition number : Type := option Z.

Definition num (z : Z) : number := Some z.

Definition lift2 (f : Z -> Z -> Z) (a b : number) : number :=
  match a, b with
  | Some x, Some y => Some (f x y)
  | _, _ => None
  end.

Definition add : number -> number -> number := lift2 Z.add.
Definition sub : number -> number -> number := lift2 Z.sub.

(** Comparisons with [NaN] are false. *)
Definition cmp2 (f : Z -> Z -> bool) (a b : number) : bool :=
  match a, b with
  | Some x, Some y => f x y
  | _, _ => false
  end.

Definition lt : number -> number -> bool := cmp2 Z.ltb.
Definition le : number -> number -> bool := cmp2 Z.leb.
Definition gt : number -> number -> bool := cmp2 Z.gtb.

(** [Math.floor(a / k)], [a % k] (the sign follows the dividend),
    [Math.round] and [Math.abs], on integers. *)
Definition floorDiv (a : number) (k : Z) : number :=
  match a with Some x => Some (x / k) | None => None end.

Definition rem (a : number) (k : Z) : number :=
  match a with Some x => Some (Z.rem x k) | None => None end.

Definition round (a : number) : number := a.

Definition abs (a : number) : number :=
  match a with Some x => Some (Z.abs x) | None => None end.

(** The text a template literal inserts for a number. *)
Definition toString (a : number) : string :=
  match a with
  | Some x => NilZero.string_of_int (Z.to_int x)
  | None => "NaN"
  end.

(** [String.prototype.trim] on ASCII text. *)
Definition isWhiteSpace (c : ascii) : bool :=
  let n := nat_of_ascii c in
  ((9 <=? n) && (n <=? 13))%nat || (n =? 32)%nat.

Fixpoint trimStart (s : string) : string :=
  match s with
  | EmptyString => EmptyString
  | String c r => if isWhiteSpace c then trimStart r else s
  end.

Fixpoint trimEnd (s : string) : string :=
  match s with
  | EmptyString => EmptyString
  | String c r =>
      match trimEnd r with
      | EmptyString =>
          if isWhiteSpace c then EmptyString else String c EmptyString
      | r' => String c r'
      end
  end.

Definition trim (s : string) : string := trimEnd (trimStart s).

End Js.

Import Js.

Notation "x <- m ;; k" := (bind m (fun x => k))
  (at level 61, m at next level, right associativity).

(** ** The parts of date-fns the pipeline calls *)

Module DateFns.

(** A [Date]: its time value, or [None] for an Invalid Date. *)
Definition Date : Type := option Z.

(** A time field of an event, by what the pipeline observes of the
    string: [Missing] is a falsy field ([undefined] or the empty string),
    [Unreadable] a non-empty string that [parseISO] does not recognise,
    [Instant t] a string that [parseISO] reads as the instant [t]. *)
Inductive timeText : Type :=
| Missing
| Unreadable
| Instant (t : Z).

(** The field used as a condition. *)
Definition truthy (field : timeText) : bool :=
  match field with
  | Missing => false
  | _ => true
  end.

(** [parseISO] gives an Invalid Date on what it does not read. *)
Definition parseISO (field : timeText) : Date :=
  match field with
  | Instant t => Some t
  | _ => None
  end.

Definition getTime (d : Date) : number := d.

(** The text [format] produces is not interpreted: it is kept as the
    pattern together with the instant it renders.  [format] raises a
    [RangeError] on an Invalid Date. *)
Inductive formatted : Type :=
| Formatted (pattern : string) (instant : Z).

Definition format (d : Date) (pattern : string) : Exc formatted :=
  match d with
  | Some t => Ok (Formatted pattern t)
  | None => Throw RangeError
  end.

(** [max] and [min] of an array of dates: an Invalid Date when the array
    is empty or holds an Invalid Date. *)
Definition pick (f : Z -> Z -> Z) (l : list Date) : Date :=
  match l with
  | [] => None
  | d :: r => fold_left (lift2 f) r d
  end.

Definition max : list Date -> Date := pick Z.max.
Definition min : list Date -> Date := pick Z.min.

(** Whole units between two dates, truncated towards zero. *)
Definition differenceIn (unit : Z) (later earlier : Date) : number :=
  match later, earlier with
  | Some a, Some b => Some (Z.quot (a - b) unit)
  | _, _ => None
  end.

Definition differenceInMinutes : Date -> Date -> number :=
  differenceIn 60000.
Definition differenceInHours : Date -> Date -> number :=
  differenceIn 3600000.

End DateFns.

(** ** formatMinutesToDuration *)

Definition formatMinutesToDuration (totalMinutes : number) : string :=
  if le totalMinutes (num 0) then "0m" else
  let days := floorDiv totalMinutes 1440 in
  let remainingMinutes := rem totalMinutes 1440 in
  let hours := floorDiv remainingMinutes 60 in
  let minutes := round (rem remainingMinutes 60) in
  let result := EmptyString in
  let result :=
    if gt days (num 0)
    then (result ++ toString days ++ "d ")%string else result in
  let result :=
    if gt hours (num 0)
    then (result ++ toString hours ++ "h ")%string else result in
  let result :=
    if gt minutes (num 0) || String.eqb result EmptyString
    then (result ++ toString minutes ++ "m")%string else result in
  trim result.

(** ** Data *)

Import DateFns.

(** An extracted event. *)
Module Event.
Record t : Type := mk {
  event : string;
  category : string;
  startTime : timeText;
  endTime : timeText;
  duration : string;
  status : string;
  remark : option string
}.
End Event.

(** The extractor's output; the descriptive fields besides the vessel name
    are only copied by the spread of the last line and are gathered in
    [details]. *)
Module Extracted.
Record t : Type := mk {
  vesselName : string;
  details : list (string * string);
  events : list Event.t
}.
End Extracted.

Module TimelineBlock.
Record t : Type := mk {
  name : string;
  category : string;
  time : number * number;
  duration : string;
  startTime : formatted;
  endTime : formatted;
  subEvents : list Event.t
}.
End TimelineBlock.

Module LaytimeEvent.
Record t : Type := mk {
  event : string;
  startTime : timeText;
  endTime : timeText;
  duration : string;
  isCounted : bool;
  reason : string
}.
End LaytimeEvent.

Module LaytimeCalculation.
Record t : Type := mk {
  totalLaytime : string;
  allowedLaytime : string;
  timeSaved : string;
  demurrage : string;
  demurrageCost : option string;
  laytimeEvents : list LaytimeEvent.t
}.
End LaytimeCalculation.

Module Enriched.
Record t : Type := mk {
  extracted : Extracted.t;
  timelineBlocks : list TimelineBlock.t;
  laytimeCalculation : LaytimeCalculation.t;
  eventsSummary : string
}.
End Enriched.

(** ** The pipeline of [enrichedData] *)

(** [extractedData.events.filter(e => e.startTime && e.endTime)] *)
Definition validEvents (events : list Event.t) : list Event.t :=
  filter (fun e => truthy (Event.startTime e) && truthy (Event.endTime e))
         events.

(** The comparator handed to [sort]. *)
Definition compareFn (a b : Event.t) : number :=
  sub (getTime (parseISO (Event.startTime a)))
      (getTime (parseISO (Event.startTime b))).

(** [Array.prototype.sort] is stable: an element moves behind exactly the
    elements the comparator ranks strictly before it.  Where a start is
    not read the comparator is [NaN] and the order the engine leaves is
    unspecified; the pipeline then raises whatever that order is (see
    [enrichedData_untimed]). *)
Fixpoint insert (a : Event.t) (l : list Event.t) : list Event.t :=
  match l with
  | [] => [a]
  | b :: r => if gt (compareFn a b) (num 0) then b :: insert a r
              else a :: l
  end.

Definition sortedEvents (validEvents : list Event.t) : list Event.t :=
  fold_right insert [] validEvents.

(** The object literal that opens a block on [event]. *)
Definition openBlock (firstEventTime : Date) (event : Event.t)
  : Exc TimelineBlock.t :=
  let eventStart := parseISO (Event.startTime event) in
  let eventEnd := parseISO (Event.endTime event) in
  startTime <- format eventStart "MMM d, HH:mm" ;;
  endTime <- format eventEnd "HH:mm" ;;
  Ok (TimelineBlock.mk
        (Event.event event)
        (Event.category event)
        (differenceInHours eventStart firstEventTime,
         differenceInHours eventEnd firstEventTime)
        (Event.duration event)
        startTime
        endTime
        [event]).

Definition endDates (l : list Event.t) : list Date :=
  map (fun e => parseISO (Event.endTime e)) l.

Definition startDates (l : list Event.t) : list Date :=
  map (fun e => parseISO (Event.startTime e)) l.

(** The state of the sweep: [currentBlock] and [mergedBlocks]. *)
Definition sweepState : Type :=
  (option TimelineBlock.t * list TimelineBlock.t)%type.

(** One iteration of the loop over [sortedEvents]. *)
Definition sweepStep (firstEventTime : Date) (st : sweepState)
  (event : Event.t) : Exc sweepState :=
  let '(currentBlock, mergedBlocks) := st in
  let eventStart := parseISO (Event.startTime event) in
  let eventEnd := parseISO (Event.endTime event) in
  match currentBlock with
  | None =>
      b <- openBlock firstEventTime event ;;
      Ok (Some b, mergedBlocks)
  | Some cur =>
      let blockEndDate := max (endDates (TimelineBlock.subEvents cur)) in
      if lt (getTime eventStart) (getTime blockEndDate) then
        let subEvents := TimelineBlock.subEvents cur ++ [event] in
        let newEndDate := max [blockEndDate; eventEnd] in
        endTime <- format newEndDate "HH:mm" ;;
        let blockStartDate := min (startDates subEvents) in
        Ok (Some (TimelineBlock.mk
                    (TimelineBlock.name cur)
                    (TimelineBlock.category cur)
                    (differenceInHours blockStartDate firstEventTime,
                     differenceInHours newEndDate firstEventTime)
                    (TimelineBlock.duration cur)
                    (TimelineBlock.startTime cur)
                    endTime
                    subEvents),
            mergedBlocks)
      else
        b <- openBlock firstEventTime event ;;
        Ok (Some b, mergedBlocks ++ [cur])
  end.

(** The sweep, with the final push of [currentBlock]. *)
Definition mergedBlocks (firstEventTime : Date) (sortedEvents : list Event.t)
  : Exc (list TimelineBlock.t) :=
  if (0 <? Z.of_nat (List.length sortedEvents)) then
    st <- foldM (sweepStep firstEventTime) sortedEvents (None, []) ;;
    match fst st with
    | Some cur => Ok (snd st ++ [cur])
    | None => Ok (snd st)
    end
  else Ok [].

(** The spans computed for a block in the post-processing. *)
Definition blockStart (block : TimelineBlock.t) : Date :=
  min (startDates (TimelineBlock.subEvents block)).

Definition blockEnd (block : TimelineBlock.t) : Date :=
  max (endDates (TimelineBlock.subEvents block)).

(** The callback of the [reduce] that elects the longest member. *)
Definition longer (longest current : Event.t) : Event.t :=
  if negb (truthy (Event.startTime longest))
     || negb (truthy (Event.endTime longest))
     || negb (truthy (Event.startTime current))
     || negb (truthy (Event.endTime current))
  then longest
  else
    let longestDuration :=
      differenceInMinutes (parseISO (Event.endTime longest))
                          (parseISO (Event.startTime longest)) in
    let currentDuration :=
      differenceInMinutes (parseISO (Event.endTime current))
                          (parseISO (Event.startTime current)) in
    if gt currentDuration longestDuration then current else longest.

Definition overlappingName (n : nat) : string :=
  (toString (num (Z.of_nat n)) ++ " Overlapping Events")%string.

(** The callback of [mergedBlocks.map]. *)
Definition finishBlock (block : TimelineBlock.t) : Exc TimelineBlock.t :=
  let start := blockStart block in
  let end_ := blockEnd block in
  let totalDurationMinutes := differenceInMinutes end_ start in
  let subEvents := TimelineBlock.subEvents block in
  name <- (if (1 <? Z.of_nat (List.length subEvents))
           then Ok (overlappingName (List.length subEvents))
           else e <- at_index subEvents 0 ;;
                Ok (Event.event e)) ;;
  longest <- reduce1 longer subEvents ;;
  let mainCategory := Event.category longest in
  Ok (TimelineBlock.mk
        name
        mainCategory
        (TimelineBlock.time block)
        (formatMinutesToDuration totalDurationMinutes)
        (TimelineBlock.startTime block)
        (TimelineBlock.endTime block)
        (TimelineBlock.subEvents block)).

Definition timelineBlocks (mergedBlocks : list TimelineBlock.t)
  : Exc (list TimelineBlock.t) :=
  mapM finishBlock mergedBlocks.

(** The classification at the head of the [validEvents.map] callback. *)
Definition classify (category : string) : bool * string :=
  let isCounted := false in
  let reason := "Not counted towards laytime." in
  if String.eqb category "Cargo Operations" then
    (true, "Cargo operations count towards laytime.")
  else if String.eqb category "Delays" || String.eqb category "Stoppages"
  then (false, "Delays and stoppages generally do not count.")
  else (isCounted, reason).

Definition durationMinutes (event : Event.t) : number :=
  differenceInMinutes (parseISO (Event.endTime event))
                      (parseISO (Event.startTime event)).

(** One call of the [validEvents.map] callback: it returns the laytime
    event and updates the captured [totalLaytimeMinutes]. *)
Definition laytimeStep (st : number * list LaytimeEvent.t) (event : Event.t)
  : number * list LaytimeEvent.t :=
  let '(totalLaytimeMinutes, out) := st in
  let '(isCounted, reason) := classify (Event.category event) in
  let totalLaytimeMinutes :=
    if isCounted then add totalLaytimeMinutes (durationMinutes event)
    else totalLaytimeMinutes in
  (totalLaytimeMinutes,
   out ++ [LaytimeEvent.mk
             (Event.event event)
             (Event.startTime event)
             (Event.endTime event)
             (formatMinutesToDuration (durationMinutes event))
             isCounted
             reason]).

Definition laytimeEvents (validEvents : list Event.t)
  : number * list LaytimeEvent.t :=
  fold_left laytimeStep validEvents (num 0, []).

Definition allowedLaytimeMinutes : number := num (3 * 24 * 60).

Definition laytimeCalculation (validEvents : list Event.t)
  : LaytimeCalculation.t :=
  let '(totalLaytimeMinutes, laytimeEvents) := laytimeEvents validEvents in
  let allowedLaytime := "3 days" in
  let difference := sub allowedLaytimeMinutes totalLaytimeMinutes in
  LaytimeCalculation.mk
    (formatMinutesToDuration totalLaytimeMinutes)
    allowedLaytime
    (if gt difference (num 0) then formatMinutesToDuration difference
     else "0m")
    (if lt difference (num 0) then formatMinutesToDuration (abs difference)
     else "0m")
    None
    laytimeEvents.

Definition newline : string := String (ascii_of_nat 10) EmptyString.

Definition eventsSummary (validEvents sortedEvents : list Event.t)
  (laytimeEvents : list LaytimeEvent.t) : Exc string :=
  lastEvent <-
    at_index sortedEvents (Z.of_nat (List.length sortedEvents) - 1) ;;
  firstEvent <- at_index sortedEvents 0 ;;
  let totalTimeInPortMinutes :=
    differenceInMinutes (parseISO (Event.endTime lastEvent))
                        (parseISO (Event.startTime firstEvent)) in
  let cargoOpsMinutes :=
    fold_left
      (fun acc e =>
         add acc (differenceInMinutes (parseISO (LaytimeEvent.endTime e))
                                      (parseISO (LaytimeEvent.startTime e))))
      (filter LaytimeEvent.isCounted laytimeEvents) (num 0) in
  let delayMinutes :=
    fold_left
      (fun acc e => add acc (durationMinutes e))
      (filter (fun e => String.eqb (Event.category e) "Delays"
                        || String.eqb (Event.category e) "Stoppages")
              validEvents)
      (num 0) in
  Ok ("*   **Total time in port:** "
      ++ formatMinutesToDuration totalTimeInPortMinutes ++ newline
      ++ "*   **Total time on cargo operations:** "
      ++ formatMinutesToDuration cargoOpsMinutes ++ newline
      ++ "*   **Total time lost to delays/stoppages:** "
      ++ formatMinutesToDuration delayMinutes)%string.

(** The body of the [useMemo] callback.  [None] as input is the initial
    [null] state, [Ok None] as output is the [null] the callback returns. *)
Definition enrichedData (extractedData : option Extracted.t)
  : Exc (option Enriched.t) :=
  match extractedData with
  | None => Ok None
  | Some data =>
      if (Z.of_nat (List.length (Extracted.events data)) =? 0) then Ok None
      else
        let validEvents := validEvents (Extracted.events data) in
        if (Z.of_nat (List.length validEvents) =? 0) then Ok None else
        let sortedEvents := sortedEvents validEvents in
        first <- at_index sortedEvents 0 ;;
        let firstEventTime := parseISO (Event.startTime first) in
        mergedBlocks <- mergedBlocks firstEventTime sortedEvents ;;
        timelineBlocks <- timelineBlocks mergedBlocks ;;
        let laytimeCalculation := laytimeCalculation validEvents in
        eventsSummary <-
          eventsSummary validEvents sortedEvents
            (LaytimeCalculation.laytimeEvents laytimeCalculation) ;;
        Ok (Some (Enriched.mk data timelineBlocks laytimeCalculation
                    eventsSummary))
  end.

(** ** The sweep of the analytics dashboard component

    The dashboard component carries a sweep of its own over the extracted
    events, with a different merge test: it compares with the end of the
    member pushed last, and merges on equality too. *)

Module Dashboard.

Record MergedEventBlock : Type := mk {
  name : string;
  category : string;
  time : number * number;
  duration : string;
  startTime : formatted;
  endTime : formatted;
  fill : string;
  subEvents : list Event.t
}.

Definition defaultFill : string := "hsl(var(--chart-5))".

Definition openBlock (name : string) (firstEventTime : Date)
  (event : Event.t) : Exc MergedEventBlock :=
  let eventStart := parseISO (Event.startTime event) in
  let eventEnd := parseISO (Event.endTime event) in
  startTime <- format eventStart "MMM d, HH:mm" ;;
  endTime <- format eventEnd "HH:mm" ;;
  Ok (mk name "Timeline"
         (differenceInHours eventStart firstEventTime,
          differenceInHours eventEnd firstEventTime)
         (Event.duration event) startTime endTime defaultFill [event]).

Definition sweepStep (firstEventTime : Date)
  (st : option MergedEventBlock * list MergedEventBlock) (event : Event.t)
  : Exc (option MergedEventBlock * list MergedEventBlock) :=
  let '(currentBlock, mergedBlocks) := st in
  let eventStart := parseISO (Event.startTime event) in
  let eventEnd := parseISO (Event.endTime event) in
  match currentBlock with
  | None =>
      b <- openBlock "Timeline Block 1" firstEventTime event ;;
      Ok (Some b, mergedBlocks)
  | Some cur =>
      lastMember <- at_index (subEvents cur)
                      (Z.of_nat (List.length (subEvents cur)) - 1) ;;
      let blockEndDate := parseISO (Event.endTime lastMember) in
      if le (getTime eventStart) (getTime blockEndDate) then
        let members := subEvents cur ++ [event] in
        firstMember <- at_index members 0 ;;
        let blockStartDate := parseISO (Event.startTime firstMember) in
        let newEndDate := max [blockEndDate; eventEnd] in
        endTime <- format newEndDate "HH:mm" ;;
        Ok (Some (mk (name cur) (category cur)
                     (differenceInHours blockStartDate firstEventTime,
                      differenceInHours newEndDate firstEventTime)
                     (duration cur) (startTime cur) endTime (fill cur)
                     members),
            mergedBlocks)
      else
        let mergedBlocks := mergedBlocks ++ [cur] in
        let blockNumber := num (Z.of_nat (List.length mergedBlocks) + 1) in
        b <- openBlock ("Timeline Block " ++ toString blockNumber)%string
               firstEventTime event ;;
        Ok (Some b, mergedBlocks)
  end.

Definition mergedBlocks (firstEventTime : Date) (sortedEvents : list Event.t)
  : Exc (list MergedEventBlock) :=
  if (0 <? Z.of_nat (List.length sortedEvents)) then
    st <- foldM (sweepStep firstEventTime) sortedEvents (None, []) ;;
    match fst st with
    | Some cur => Ok (snd st ++ [cur])
    | None => Ok (snd st)
    end
  else Ok [].

End Dashboard.

(** ** Vocabulary of the properties *)

Fixpoint allChars (p : ascii -> bool) (s : string) : bool :=
  match s with
  | EmptyString => true
  | String c r => p c && allChars p r
  end.

Definition isDigit (c : ascii) : bool :=
  let n := nat_of_ascii c in ((48 <=? n) && (n <=? 57))%nat.

(** The characters a rendered duration may hold: digits, the unit letters,
    the separating blank and the letters of [NaN]; no sign. *)
Definition durationChar (c : ascii) : bool :=
  isDigit c || existsb (Ascii.eqb c) ["d"; "h"; "m"; " "; "N"; "a"]%char.

Definition noMinus (s : string) : bool :=
  allChars (fun c => negb (Ascii.eqb c "-")) s.

(** A text that does not begin with a blank. *)
Definition solidHead (s : string) : Prop :=
  match s with
  | String c _ => isWhiteSpace c = false
  | EmptyString => False
  end.

(** The units of a span of [days], [hours] and [minutes] as the
    specification words the formatter: each non-zero unit, largest first;
    the units shown for a span of [m] minutes, ["0m"] when none is left;
    and the rendering, the shown units separated by blanks. *)
Definition unit (n : Z) (suffix : string) : list string :=
  if 0 <? n then [(toString (num n) ++ suffix)%string] else [].

Definition units (days hours minutes : Z) : list string :=
  unit days "d" ++ unit hours "h" ++ unit minutes "m".

Definition shown (m : Z) : list string :=
  match units (m / 1440) ((m mod 1440) / 60) (m mod 60) with
  | [] => ["0m"]
  | us => us
  end.

Definition spelled (m : Z) : string := String.concat " " (shown m).

(** An event whose two time fields are read as instants, and its length
    in whole minutes. *)
Definition timed (e : Event.t) : bool :=
  match Event.startTime e, Event.endTime e with
  | Instant _, Instant _ => true
  | _, _ => false
  end.

Definition minutesOf (e : Event.t) : Z :=
  match Event.startTime e, Event.endTime e with
  | Instant s, Instant t => Z.quot (t - s) 60000
  | _, _ => 0
  end.



Definition counted (e : Event.t) : bool :=
  String.eqb (Event.category e) "Cargo Operations".

(** The direct sum of the lengths of the counted events. *)
Definition countedMinutes (l : list Event.t) : Z :=
  fold_right (fun e acc => (if counted e then minutesOf e else 0) + acc) 0 l.

(** The laytime event the allocator derives from an event. *)
Definition allocated (e : Event.t) : LaytimeEvent.t :=
  LaytimeEvent.mk (Event.event e) (Event.startTime e) (Event.endTime e)
    (formatMinutesToDuration (durationMinutes e))
    (fst (classify (Event.category e)))
    (snd (classify (Event.category e))).

(** The instants of an event, read as integers ([0] when missing). *)
Definition lo (e : Event.t) : Z :=
  match Event.startTime e with Instant s => s | _ => 0 end.

Definition hi (e : Event.t) : Z :=
  match Event.endTime e with Instant t => t | _ => 0 end.

(** [a] does not start after [b]. *)
Definition startsLe (a b : Event.t) : Prop := lo a <= lo b.

(** A normalized sequence, as the specification defines it: every event
    has both instants with [end >= start], and the sequence is sorted by
    [start]. *)
Definition proper (e : Event.t) : Prop :=
  timed e = true /\ lo e <= hi e.

Definition normalized (l : list Event.t) : Prop :=
  Forall proper l /\ Sorted startsLe l.

(** The instant [x] lies in the span of event [e], of one of the events of
    [l], of the members [g] of a block, of one of the blocks of [bs]. *)
Definition inEvent (e : Event.t) (x : Z) : Prop :=
  timed e = true /\ lo e <= x <= hi e.

Definition inEvents (l : list Event.t) (x : Z) : Prop :=
  exists e, In e l /\ inEvent e x.

Definition inSpan (g : list Event.t) (x : Z) : Prop :=
  exists s t, min (startDates g) = Some s /\ max (endDates g) = Some t /\
              s <= x <= t.

Definition inBlocks (bs : list TimelineBlock.t) (x : Z) : Prop :=
  exists b, In b bs /\ inSpan (TimelineBlock.subEvents b) x.

(** Block [a] ends no later than block [b] starts; block [a] starts no
    later than block [b]. *)
Definition endsBefore (a b : TimelineBlock.t) : Prop :=
  exists t s, blockEnd a = Some t /\ blockStart b = Some s /\ t <= s.

Definition startsBefore (a b : TimelineBlock.t) : Prop :=
  exists s s', blockStart a = Some s /\ blockStart b = Some s' /\ s <= s'.

(** The latest end and the earliest start among the members of a block. *)
Definition latest (g : list Event.t) : Z :=
  match g with
  | [] => 0
  | e :: r => fold_left Z.max (map hi r) (hi e)
  end.

Definition earliest (g : list Event.t) : Z :=
  match g with
  | [] => 0
  | e :: r => fold_left Z.min (map lo r) (lo e)
  end.

Definition allTimed (l : list Event.t) : Prop :=
  Forall (fun e => timed e = true) l.

(** The block opened on [e], and block [cur] grown by [e], as the sweep
    builds them from events that have both instants. *)
Definition opened (firstEventTime : Date) (e : Event.t) : TimelineBlock.t :=
  TimelineBlock.mk (Event.event e) (Event.category e)
    (differenceInHours (Some (lo e)) firstEventTime,
     differenceInHours (Some (hi e)) firstEventTime)
    (Event.duration e)
    (Formatted "MMM d, HH:mm" (lo e))
    (Formatted "HH:mm" (hi e))
    [e].

Definition grown (firstEventTime : Date) (cur : TimelineBlock.t)
  (e : Event.t) : TimelineBlock.t :=
  let g := TimelineBlock.subEvents cur in
  TimelineBlock.mk (TimelineBlock.name cur) (TimelineBlock.category cur)
    (differenceInHours (Some (Z.min (earliest g) (lo e))) firstEventTime,
     differenceInHours (Some (Z.max (latest g) (hi e))) firstEventTime)
    (TimelineBlock.duration cur)
    (TimelineBlock.startTime cur)
    (Formatted "HH:mm" (Z.max (latest g) (hi e)))
    (g ++ [e]).

(** A block under construction: it has members, all with both instants. *)
Definition populated (b : TimelineBlock.t) : Prop :=
  TimelineBlock.subEvents b <> [] /\ allTimed (TimelineBlock.subEvents b).

(** The blocks the sweep leaves when it runs from current block [cur] and
    closed blocks [merged] over events that have both instants. *)
Fixpoint sweepFrom (firstEventTime : Date) (cur : TimelineBlock.t)
  (merged : list TimelineBlock.t) (l : list Event.t)
  : list TimelineBlock.t :=
  match l with
  | [] => merged ++ [cur]
  | e :: r =>
      if lo e <? latest (TimelineBlock.subEvents cur)
      then sweepFrom firstEventTime (grown firstEventTime cur e) merged r
      else sweepFrom firstEventTime (opened firstEventTime e)
                     (merged ++ [cur]) r
  end.

Definition swept (firstEventTime : Date) (l : list Event.t)
  : list TimelineBlock.t :=
  match l with
  | [] => []
  | e :: r => sweepFrom firstEventTime (opened firstEventTime e) [] r
  end.

(** A state of the sweep reached over events with two instants. *)
Definition ready (st : sweepState) : Prop :=
  match fst st with
  | Some cur => populated cur
  | None => True
  end.

(** The push of [currentBlock] that follows the loop. *)
Definition closeSweep (st : sweepState) : Exc (list TimelineBlock.t) :=
  match fst st with
  | Some cur => Ok (snd st ++ [cur])
  | None => Ok (snd st)
  end.

(** The member lists of a sequence of blocks, and the relations of the
    merger's invariant read on member lists. *)
Definition members (bs : list TimelineBlock.t) : list (list Event.t) :=
  map TimelineBlock.subEvents bs.

Definition groupEndsBefore (g1 g2 : list Event.t) : Prop :=
  latest g1 <= earliest g2.

Definition inGroups (gs : list (list Event.t)) (x : Z) : Prop :=
  exists g, In g gs /\ earliest g <= x <= latest g.

(** A block whose span is an interval covered by its members. *)
Definition connected (g : list Event.t) : Prop :=
  g <> [] /\ allTimed g /\ earliest g <= latest g
  /\ forall x, earliest g <= x <= latest g -> inEvents g x.

(** ** Sample inputs *)

(** The instant [h]:[m] of the first day. *)
Definition clock (h m : Z) : Z := (h * 60 + m) * 60000.

Definition sample (name category : string) (startTime endTime : timeText)
  : Event.t :=
  Event.mk name category startTime endTime "Not Mentioned" "Completed" None.

Definition statement (events : list Event.t) : Extracted.t :=
  Extracted.mk "MV Sample" [] events.

Definition loading : Event.t :=
  sample "Loading" "Cargo Operations"
         (Instant (clock 9 0)) (Instant (clock 11 0)).

Definition rain : Event.t :=
  sample "Rain" "Delays" (Instant (clock 10 0)) (Instant (clock 12 0)).

Definition norTendered : Event.t :=
  sample "NOR Tendered" "Arrival" (Instant (clock 8 0)) Missing.


Definition shifting : Event.t :=
  sample "Shifting" "Cargo Operations"
         (Instant (clock 12 0)) (Instant (clock 10 0)).

Definition discharging : Event.t :=
  sample "Discharging" "Cargo Operations"
         (Instant (clock 0 0)) (Instant (clock 96 0)).

Definition inspection : Event.t :=
  sample "Hold Inspection" "Survey"
         (Instant (clock 13 0)) (Instant (clock 13 30)).

Definition mistimed : Event.t :=
  sample "Surveyor On Board" "Other" Unreadable (Instant (clock 10 0)).

Definition berthing : Event.t :=
  sample "Berthing" "Arrival" (Instant (clock 9 0)) (Instant (clock 10 0)).

Definition sailing : Event.t :=
  sample "Sailing" "Departure" (Instant (clock 14 0)) (Instant (clock 15 0)).

(** ** Vocabulary of the further properties *)

(** The events of [l] that start at instant [s]. *)
Definition startingAt (s : Z) (l : list Event.t) : list Event.t :=
  filter (fun e => lo e =? s) l.

(** The sum of the lengths of the delays and stoppages. *)
Definition delay (e : Event.t) : bool :=
  String.eqb (Event.category e) "Delays"
  || String.eqb (Event.category e) "Stoppages".

Definition delayedMinutes (l : list Event.t) : Z :=
  fold_right (fun e acc => (if delay e then minutesOf e else 0) + acc) 0 l.

(** The start of the first member of a block. *)
Definition headStart (g : list Event.t) : Z :=
  match g with
  | e :: _ => lo e
  | [] => 0
  end.

(** The fields the sweep keeps on a block: the text of its end, its pair
    of hours from the reference instant and the text of its start. *)
Definition stamped (firstEventTime : Date) (b : TimelineBlock.t) : Prop :=
  let g := TimelineBlock.subEvents b in
  TimelineBlock.endTime b = Formatted "HH:mm" (latest g)
  /\ TimelineBlock.startTime b = Formatted "MMM d, HH:mm" (headStart g)
  /\ TimelineBlock.time b
     = (differenceInHours (Some (earliest g)) firstEventTime,
        differenceInHours (Some (latest g)) firstEventTime).

(** The name the post-processing gives to a block of members [g]. *)
Definition blockName (g : list Event.t) : string :=
  match g with
  | [e] => Event.event e
  | _ => overlappingName (List.length g)
  end.

(** ** More of the JavaScript strings *)

(** A text used as a condition: the empty string is falsy. *)
Definition truthyText (s : string) : bool :=
  negb (String.eqb s EmptyString).

(** [String.prototype.startsWith], [String.prototype.endsWith] and
    [String.prototype.includes] *)
Definition startsWith (s searchString : string) : bool :=
  String.prefix searchString s.

Definition endsWith (s searchString : string) : bool :=
  let n := String.length s in
  let k := String.length searchString in
  (k <=? n)%nat && String.eqb (substring (n - k) k s) searchString.

Definition includes (s searchString : string) : bool :=
  match index 0 searchString s with
  | Some _ => true
  | None => false
  end.

(** ** The components that show the result *)

Module Components.

(** The condition [hasDemurrage] of the laytime calculator. *)
Definition hasDemurrage (laytimeResult : LaytimeCalculation.t) : bool :=
  let demurrage := LaytimeCalculation.demurrage laytimeResult in
  truthyText demurrage
  && negb (String.eqb demurrage "0")
  && negb (String.eqb demurrage "N/A")
  && negb (startsWith demurrage "0h").

(** A row of the breakdown table: the event, its duration, the badge, the
    reason, and whether the help icon follows the reason. *)
Record row : Type := mkRow {
  rowEvent : string;
  rowDuration : string;
  rowCounted : string;
  rowReason : string;
  rowHelp : bool
}.

Definition tableRow (event : LaytimeEvent.t) : row :=
  mkRow (LaytimeEvent.event event)
        (LaytimeEvent.duration event)
        (if LaytimeEvent.isCounted event then "Yes" else "No")
        (LaytimeEvent.reason event)
        (truthyText (LaytimeEvent.reason event)).

(** What the laytime calculator renders: the alert, or the four summary
    cards, the card of the estimated cost when it is shown, and the rows
    of the table. *)
Inductive laytimeView : Type :=
| NoLaytimeData
| LaytimeSummary (totalLaytime allowedLaytime timeSaved demurrage : string)
    (cost : option string) (rows : list row).

Definition LaytimeCalculator (laytimeResult : option LaytimeCalculation.t)
  : laytimeView :=
  match laytimeResult with
  | None => NoLaytimeData
  | Some laytimeResult =>
      let hasDemurrage := hasDemurrage laytimeResult in
      LaytimeSummary
        (LaytimeCalculation.totalLaytime laytimeResult)
        (LaytimeCalculation.allowedLaytime laytimeResult)
        (LaytimeCalculation.timeSaved laytimeResult)
        (LaytimeCalculation.demurrage laytimeResult)
        (if hasDemurrage then
           match LaytimeCalculation.demurrageCost laytimeResult with
           | Some cost => if truthyText cost then Some cost else None
           | None => None
           end
         else None)
        (map tableRow (LaytimeCalculation.laytimeEvents laytimeResult))
  end.

(** The message the assistant adds when the extracted data change: the
    insights when the data carry a summary, an apology when they carry
    none, nothing while there are no data. *)
Definition insightMessage (extractedData : option Enriched.t)
  : option string :=
  match extractedData with
  | Some data =>
      if truthyText (Enriched.eventsSummary data) then
        Some ("Here are some insights for **"
              ++ Extracted.vesselName (Enriched.extracted data)
              ++ "**:" ++ newline ++ newline
              ++ Enriched.eventsSummary data)%string
      else
        Some ("I've successfully extracted the events for **"
              ++ Extracted.vesselName (Enriched.extracted data)
              ++ "**. However, I was unable to generate an automated "
              ++ "summary for this document.")%string
  | None => None
  end.

End Components.

(** The text of a duration read back: the sum of its units in minutes.
    [digits] holds the digits met since the last unit letter. *)
Definition numberOf (digits : string) : Z :=
  match NilZero.int_of_string digits with
  | Some d => Z.of_int d
  | None => 0
  end.

Fixpoint minutesRead (s digits : string) : Z :=
  match s with
  | EmptyString => 0
  | String c r =>
      if isDigit c then minutesRead r (digits ++ String c EmptyString)
      else if Ascii.eqb c "d"
      then 1440 * numberOf digits + minutesRead r EmptyString
      else if Ascii.eqb c "h"
      then 60 * numberOf digits + minutesRead r EmptyString
      else if Ascii.eqb c "m"
      then numberOf digits + minutesRead r EmptyString
      else minutesRead r digits
  end.

(** ** The extraction flow and the upload route

    The model the flow prompts and the two parsers of the route are
    outside the program: they are parameters, which return a value or
    throw an [Error] with a message.  A parser stands for the read of the
    bytes of the file followed by the call of the library. *)

Module Server.

Inductive outcome (A : Type) : Type :=
| Returns (a : A)
| Throws (message : string).

Arguments Returns {A} a.
Arguments Throws {A} message.

Definition andThen {A B : Type} (m : outcome A) (k : A -> outcome B)
  : outcome B :=
  match m with
  | Returns a => k a
  | Throws message => Throws message
  end.

(** The text of a document, as the parsers return it and the model reads
    it: the sequence of its UTF-16 code units.  Its [length] is the
    number of units. *)
Definition codeUnits : Type := list N.


(** A text used as a condition: the empty text is falsy. *)
Definition truthyUnits (t : codeUnits) : bool :=
  match t with
  | [] => false
  | _ :: _ => true
  end.

(** The units [String.prototype.trim] strips, the white space and the
    line terminators of the language: U+0009 to U+000D, U+0020, U+00A0,
    U+1680, U+2000 to U+200A, U+2028, U+2029, U+202F, U+205F, U+3000 and
    U+FEFF. *)
Definition isBlankUnit (u : N) : bool :=
  (((9 <=? u) && (u <=? 13))
   || (u =? 32) || (u =? 160) || (u =? 5760)
   || ((8192 <=? u) && (u <=? 8202))
   || (u =? 8232) || (u =? 8233) || (u =? 8239) || (u =? 8287)
   || (u =? 12288) || (u =? 65279))%N.

Fixpoint dropBlanks (t : codeUnits) : codeUnits :=
  match t with
  | [] => []
  | u :: r => if isBlankUnit u then dropBlanks r else t
  end.

(** [String.prototype.trim] *)
Definition trimUnits (t : codeUnits) : codeUnits :=
  rev (dropBlanks (rev (dropBlanks t))).

(** The final safeguard of the flow: the events that hold every critical
    field. *)
Definition safeguard (events : list Event.t) : list Event.t :=
  filter (fun event =>
            truthyText (Event.event event)
            && truthy (Event.startTime event)
            && truthy (Event.endTime event)
            && truthyText (Event.status event)
            && truthyText (Event.duration event))
         events.

(** An uploaded file, by what the route reads of it. *)
Record File : Type := mkFile {
  name : string;
  type : string;
  size : Z
}.

(** The value of the form field [file]: a file, or a text. *)
Inductive entry : Type :=
| Upload (file : File)
| Text (value : string).

(** A response: its status and the [error] or the result it carries. *)
Inductive body : Type :=
| Error (error : string)
| Result (result : Extracted.t).

Record response : Type := mkResponse {
  status : Z;
  content : body
}.

Definition MAX_FILE_SIZE : Z := 10 * 1024 * 1024.

(** The message of the [TypeError] raised by a call of [endsWith] on the
    [name] of a text, which is [undefined]. *)
Definition undefinedName : string :=
  "Cannot read properties of undefined (reading 'endsWith')".

Section Services.

Variable extractPortOperationEventsPrompt :
  codeUnits -> outcome (option Extracted.t).
Variable mammoth : File -> outcome codeUnits.
Variable pdfParse : File -> outcome codeUnits.

Definition extractPortOperationEventsFlow (sofContent : codeUnits)
  : outcome (option Extracted.t) :=
  andThen (extractPortOperationEventsPrompt sofContent) (fun output =>
  match output with
  | Some output =>
      Returns (Some (Extracted.mk (Extracted.vesselName output)
                       (Extracted.details output)
                       (safeguard (Extracted.events output))))
  | None => Returns None
  end).

Definition extractPortOperationEvents (sofContent : codeUnits)
  : outcome (option Extracted.t) :=
  extractPortOperationEventsFlow sofContent.

Definition extractText (file : File) : outcome codeUnits :=
  if String.eqb (type file)
       ("application/vnd.openxmlformats-officedocument"
        ++ ".wordprocessingml.document")
     || endsWith (name file) ".docx"
  then mammoth file
  else if String.eqb (type file) "application/pdf"
          || endsWith (name file) ".pdf"
  then pdfParse file
  else Throws "Unsupported file type. Please upload a DOCX or PDF.".

(** The body of the [try] block of [POST]. *)
Definition attempt (formData : outcome (option entry)) : outcome response :=
  andThen formData (fun file =>
  match file with
  | None => Returns (mkResponse 400 (Error "No file was uploaded."))
  | Some (Text EmptyString) =>
      Returns (mkResponse 400 (Error "No file was uploaded."))
  | Some (Text _) => Throws undefinedName
  | Some (Upload file) =>
      if size file >? MAX_FILE_SIZE then
        Returns (mkResponse 413 (Error "File size exceeds the 10MB limit."))
      else
      let isSupported :=
        endsWith (name file) ".docx" || endsWith (name file) ".pdf" in
      if negb isSupported then
        Returns (mkResponse 415
                   (Error ("Unsupported file type. "
                           ++ "Only .docx and .pdf are accepted.")))
      else
      andThen (extractText file) (fun sofContent =>
      if negb (truthyUnits sofContent)
         || (Z.of_nat (List.length (trimUnits sofContent)) <? 50)
      then
        Returns (mkResponse 400
                   (Error ("Failed to extract meaningful content from "
                           ++ "the file. It may be empty, corrupted, or "
                           ++ "password-protected.")))
      else
      andThen (extractPortOperationEvents sofContent) (fun result =>
      match result with
      | None =>
          Returns (mkResponse 500
                     (Error ("The AI failed to analyze the document. The "
                             ++ "content might not resemble a Statement "
                             ++ "of Fact.")))
      | Some result =>
          if negb (truthyText (Extracted.vesselName result)) then
            Returns (mkResponse 500
                       (Error ("The AI failed to analyze the document. "
                               ++ "The content might not resemble a "
                               ++ "Statement of Fact.")))
          else Returns (mkResponse 200 (Result result))
      end))
  end).

(** The [catch] block of [POST]. *)
Definition rescue (message : string) : response :=
  let errorMessage := "An unexpected error occurred on the server." in
  let errorMessage :=
    if includes message "Unsupported file type" then message
    else if includes message "Corrupted zip"
    then "The DOCX file appears to be corrupted."
    else errorMessage in
  mkResponse 500 (Error errorMessage).

Definition POST (formData : outcome (option entry)) : response :=
  match attempt formData with
  | Returns response => response
  | Throws message => rescue message
  end.

End Services.

End Server.


(** ** The chart of the analytics dashboard component

    The component sorts the extracted events without filtering them, runs
    the sweep above and post-processes its blocks; the duration of a
    block is counted in whole hours. *)

(** [Math.floor] of an integer or [NaN], and the product. *)
Definition floor (a : number) : number := a.

Definition mul : number -> number -> number := lift2 Z.mul.

Module Chart.

(** What a read of [CATEGORY_COLORS] gives: a colour of the table, or a
    member that the object inherits from [Object.prototype]. *)
Inductive colour : Type :=
| Colour (css : string)
| Inherited (key : string).

Definition prototypeKeys : list string :=
  ["constructor"; "__defineGetter__"; "__defineSetter__";
   "hasOwnProperty"; "__lookupGetter__"; "__lookupSetter__";
   "isPrototypeOf"; "propertyIsEnumerable"; "toString"; "valueOf";
   "__proto__"; "toLocaleString"].

(** [CATEGORY_COLORS[key]]; [None] is [undefined]. *)
Definition CATEGORY_COLORS (key : string) : option colour :=
  if String.eqb key "Arrival" then Some (Colour "hsl(var(--chart-1))")
  else if String.eqb key "Cargo Operations"
  then Some (Colour "hsl(var(--chart-2))")
  else if String.eqb key "Delays" then Some (Colour "hsl(var(--chart-3))")
  else if String.eqb key "Departure"
  then Some (Colour "hsl(var(--chart-4))")
  else if String.eqb key "Stoppages"
  then Some (Colour "hsl(var(--chart-3))")
  else if String.eqb key "Other" then Some (Colour "hsl(var(--chart-5))")
  else if String.eqb key "Default" then Some (Colour "hsl(var(--chart-5))")
  else if existsb (String.eqb key) prototypeKeys then Some (Inherited key)
  else None.

(** [CATEGORY_COLORS[category] || CATEGORY_COLORS.Default] *)
Definition fillOf (category : string) : colour :=
  match CATEGORY_COLORS category with
  | Some c => c
  | None => Colour "hsl(var(--chart-5))"
  end.

(** A block of the chart, as the post-processing returns it. *)
Record ChartBlock : Type := mk {
  name : string;
  category : string;
  time : number * number;
  duration : string;
  startTime : formatted;
  endTime : formatted;
  fill : colour;
  subEvents : list Event.t
}.

(** The callback of [block.subEvents.reduce]. *)
Definition longer (longest current : Event.t) : Event.t :=
  let longestDuration :=
    differenceInHours (parseISO (Event.endTime longest))
                      (parseISO (Event.startTime longest)) in
  let currentDuration :=
    differenceInHours (parseISO (Event.endTime current))
                      (parseISO (Event.startTime current)) in
  if gt currentDuration longestDuration then current else longest.

(** The text of the duration of a block of [totalDurationHours] hours. *)
Definition durationText (totalDurationHours : number) : string :=
  let days := floorDiv totalDurationHours 24 in
  let hours := floor (rem totalDurationHours 24) in
  let minutes :=
    round (mul (sub totalDurationHours (floor totalDurationHours))
               (num 60)) in
  ((if gt days (num 0) then toString days ++ "d " else EmptyString)
   ++ toString hours ++ "h " ++ toString minutes ++ "m")%string.

(** The callback of [mergedBlocks.map]. *)
Definition finish (block : Dashboard.MergedEventBlock) : Exc ChartBlock :=
  let subEvents := Dashboard.subEvents block in
  longestEvent <- reduce1 longer subEvents ;;
  first <- at_index subEvents 0 ;;
  let start := parseISO (Event.startTime first) in
  let end_ := max (endDates subEvents) in
  let totalDurationHours := differenceInHours end_ start in
  name <- (if (1 <? Z.of_nat (List.length subEvents))
           then Ok (overlappingName (List.length subEvents))
           else e <- at_index subEvents 0 ;;
                Ok (Event.event e)) ;;
  Ok (mk name
         (Event.category longestEvent)
         (Dashboard.time block)
         (durationText totalDurationHours)
         (Dashboard.startTime block)
         (Dashboard.endTime block)
         (fillOf (Event.category longestEvent))
         subEvents).

(** The body of the [useMemo] callback of [chartData]. *)
Definition chartData (extractedData : option Extracted.t)
  : Exc (list ChartBlock) :=
  match extractedData with
  | None => Ok []
  | Some data =>
      if (Z.of_nat (List.length (Extracted.events data)) =? 0) then Ok []
      else
        let sortedEvents := sortedEvents (Extracted.events data) in
        first <- at_index sortedEvents 0 ;;
        let firstEventTime := parseISO (Event.startTime first) in
        mergedBlocks <- Dashboard.mergedBlocks firstEventTime sortedEvents ;;
        mapM finish mergedBlocks
  end.

End Chart.

(** The groups of the sweep of the dashboard: an event joins the current
    group when it starts no later than the end of the member that joined
    last. *)
Fixpoint chainsFrom (cur : list Event.t) (l : list Event.t)
  : list (list Event.t) :=
  match l with
  | [] => [cur]
  | e :: r =>
      if lo e <=? hi (List.last cur e) then chainsFrom (cur ++ [e]) r
      else cur :: chainsFrom [e] r
  end.

Definition chains (l : list Event.t) : list (list Event.t) :=
  match l with
  | [] => []
  | e :: r => chainsFrom [e] r
  end.

(** Consecutive members of a group: the next starts no later than the
    end of the one before.  Consecutive groups: the next begins after the
    end of the last member of the one before. *)
Definition linked (a b : Event.t) : Prop := lo b <= hi a.

Definition apart (g1 g2 : list Event.t) : Prop :=
  match g2 with
  | e :: _ => hi (List.last g1 e) < lo e
  | [] => False
  end.

(** The length of a span of instants in whole hours. *)
Definition hoursOf (g : list Event.t) : Z :=
  Z.quot (latest g - headStart g) 3600000.

(** ** The earlier pipeline of the page

    An earlier version of the page runs the same filter, sort and sweep,
    has no laytime allocation, and counts the duration of a block in whole
    hours. *)

(** [Math.round(a / k)] for an integer [a] and a positive [k]: the
    quotient rounded to the nearest integer, halves upwards. *)
Definition roundDiv (a : number) (k : Z) : number :=
  match a with
  | Some x => Some ((2 * x + k) / (2 * k))
  | None => None
  end.

Module Legacy.

(** The value the callback returns: the extracted data, with the field
    [timelineBlocks] when it has been computed. *)
Record Enriched : Type := mk {
  extracted : Extracted.t;
  timelineBlocks : option (list TimelineBlock.t)
}.

(** The callback of the [reduce] that elects the longest member. *)
Definition longer (longest current : Event.t) : Event.t :=
  if negb (truthy (Event.startTime longest))
     || negb (truthy (Event.endTime longest))
     || negb (truthy (Event.startTime current))
     || negb (truthy (Event.endTime current))
  then longest
  else
    let longestDuration :=
      differenceInHours (parseISO (Event.endTime longest))
                        (parseISO (Event.startTime longest)) in
    let currentDuration :=
      differenceInHours (parseISO (Event.endTime current))
                        (parseISO (Event.startTime current)) in
    if gt currentDuration longestDuration then current else longest.

(** The text of the duration of a block of [totalDurationHours] hours. *)
Definition blockDuration (totalDurationHours : number) : string :=
  let days := floorDiv totalDurationHours 24 in
  let hours := floor (rem totalDurationHours 24) in
  let minutes :=
    round (roundDiv (sub (sub (mul totalDurationHours (num 3600))
                              (mul days (num 86400)))
                         (mul hours (num 3600)))
                    60) in
  ((if gt days (num 0) then toString days ++ "d " else EmptyString)
   ++ toString hours ++ "h " ++ toString minutes ++ "m")%string.

(** The callback of [mergedBlocks.map]. *)
Definition finishBlock (block : TimelineBlock.t) : Exc TimelineBlock.t :=
  let start := blockStart block in
  let end_ := blockEnd block in
  let totalDurationHours := differenceInHours end_ start in
  let subEvents := TimelineBlock.subEvents block in
  name <- (if (1 <? Z.of_nat (List.length subEvents))
           then Ok (overlappingName (List.length subEvents))
           else e <- at_index subEvents 0 ;;
                Ok (Event.event e)) ;;
  longest <- reduce1 longer subEvents ;;
  let mainCategory := Event.category longest in
  Ok (TimelineBlock.mk
        name
        mainCategory
        (TimelineBlock.time block)
        (blockDuration totalDurationHours)
        (TimelineBlock.startTime block)
        (TimelineBlock.endTime block)
        (TimelineBlock.subEvents block)).

(** The body of the [useMemo] callback. *)
Definition enrichedData (extractedData : option Extracted.t)
  : Exc (option Enriched) :=
  match extractedData with
  | None => Ok None
  | Some data =>
      if (Z.of_nat (List.length (Extracted.events data)) =? 0)
      then Ok (Some (mk data None))
      else
        let validEvents := validEvents (Extracted.events data) in
        if (Z.of_nat (List.length validEvents) =? 0)
        then Ok (Some (mk data (Some [])))
        else
        let sortedEvents := sortedEvents validEvents in
        first <- at_index sortedEvents 0 ;;
        let firstEventTime := parseISO (Event.startTime first) in
        mergedBlocks <- mergedBlocks firstEventTime sortedEvents ;;
        finalBlocks <- mapM finishBlock mergedBlocks ;;
        Ok (Some (mk data (Some finalBlocks)))
  end.

End Legacy.

(** The fields that two versions of a block share. *)
Definition sameFrame (a b : TimelineBlock.t) : Prop :=
  TimelineBlock.subEvents a = TimelineBlock.subEvents b
  /\ TimelineBlock.name a = TimelineBlock.name b
  /\ TimelineBlock.time a = TimelineBlock.time b
  /\ TimelineBlock.startTime a = TimelineBlock.startTime b
  /\ TimelineBlock.endTime a = TimelineBlock.endTime b.

(** ** The timeline chart of the current dashboard component

    The current component receives the blocks of the pipeline and adds
    a colour to each. *)

Module Timeline.

Record bar : Type := mkBar {
  block : TimelineBlock.t;
  fill : Chart.colour
}.

Definition chartData (timelineBlocks : list TimelineBlock.t) : list bar :=
  map (fun block =>
         mkBar block (Chart.fillOf (TimelineBlock.category block)))
      timelineBlocks.

(** What the component renders: the alert, or the chart of the bars. *)
Inductive view : Type :=
| NoData
| BarChart (data : list bar).

Definition AnalyticsDashboard (timelineBlocks : list TimelineBlock.t)
  : view :=
  let chartData := chartData timelineBlocks in
  if (Z.of_nat (List.length chartData) =? 0) then NoData
  else BarChart chartData.

End Timeline.

(** ** The pipeline of the page without the filter

    Another version of the page sorts the extracted events without
    filtering them; its sweep has the merge test of the current one, and
    it counts the duration of a block in whole hours. *)

Module AppPage.

(** The object literal that opens a block on [event]. *)
Definition openBlock (firstEventTime : Date) (event : Event.t)
  : Exc TimelineBlock.t :=
  let eventStart := parseISO (Event.startTime event) in
  let eventEnd := parseISO (Event.endTime event) in
  startTime <- format eventStart "MMM d, HH:mm" ;;
  endTime <- format eventEnd "HH:mm" ;;
  Ok (TimelineBlock.mk
        "Block"
        "Timeline"
        (differenceInHours eventStart firstEventTime,
         differenceInHours eventEnd firstEventTime)
        (Event.duration event)
        startTime
        endTime
        [event]).

(** One iteration of the [for ... of] loop. *)
Definition sweepStep (firstEventTime : Date) (st : sweepState)
  (event : Event.t) : Exc sweepState :=
  let '(currentBlock, mergedBlocks) := st in
  let eventStart := parseISO (Event.startTime event) in
  let eventEnd := parseISO (Event.endTime event) in
  match currentBlock with
  | None =>
      b <- openBlock firstEventTime event ;;
      Ok (Some b, mergedBlocks)
  | Some cur =>
      let blockEndDate := max (endDates (TimelineBlock.subEvents cur)) in
      if lt (getTime eventStart) (getTime blockEndDate) then
        let members := TimelineBlock.subEvents cur ++ [event] in
        firstMember <- at_index members 0 ;;
        let blockStartDate := parseISO (Event.startTime firstMember) in
        let newEndDate := max [blockEndDate; eventEnd] in
        endTime <- format newEndDate "HH:mm" ;;
        Ok (Some (TimelineBlock.mk
                    (TimelineBlock.name cur)
                    (TimelineBlock.category cur)
                    (differenceInHours blockStartDate firstEventTime,
                     differenceInHours newEndDate firstEventTime)
                    (TimelineBlock.duration cur)
                    (TimelineBlock.startTime cur)
                    endTime
                    members),
            mergedBlocks)
      else
        b <- openBlock firstEventTime event ;;
        Ok (Some b, mergedBlocks ++ [cur])
  end.

Definition mergedBlocks (firstEventTime : Date) (sortedEvents : list Event.t)
  : Exc (list TimelineBlock.t) :=
  if (0 <? Z.of_nat (List.length sortedEvents)) then
    st <- foldM (sweepStep firstEventTime) sortedEvents (None, []) ;;
    match fst st with
    | Some cur => Ok (snd st ++ [cur])
    | None => Ok (snd st)
    end
  else Ok [].

(** The text of the duration of a block of [totalDurationHours] hours. *)
Definition blockDuration (totalDurationHours : number) : string :=
  let days := floorDiv totalDurationHours 24 in
  let hours := floor (rem totalDurationHours 24) in
  let minutes :=
    round (mul (sub (sub totalDurationHours (mul days (num 24))) hours)
               (num 60)) in
  ((if gt days (num 0) then toString days ++ "d " else EmptyString)
   ++ toString hours ++ "h " ++ toString minutes ++ "m")%string.

(** The callback of [mergedBlocks.map]. *)
Definition finishBlock (block : TimelineBlock.t) : Exc TimelineBlock.t :=
  let subEvents := TimelineBlock.subEvents block in
  longestEvent <- reduce1 Chart.longer subEvents ;;
  first <- at_index subEvents 0 ;;
  let start := parseISO (Event.startTime first) in
  let end_ := max (endDates subEvents) in
  let totalDurationHours := differenceInHours end_ start in
  name <- (if (1 <? Z.of_nat (List.length subEvents))
           then Ok (overlappingName (List.length subEvents))
           else e <- at_index subEvents 0 ;;
                Ok (Event.event e)) ;;
  Ok (TimelineBlock.mk
        name
        (Event.category longestEvent)
        (TimelineBlock.time block)
        (blockDuration totalDurationHours)
        (TimelineBlock.startTime block)
        (TimelineBlock.endTime block)
        subEvents).

(** The body of the [useMemo] callback. *)
Definition enrichedData (extractedData : option Extracted.t)
  : Exc (option Legacy.Enriched) :=
  match extractedData with
  | None => Ok None
  | Some data =>
      if (Z.of_nat (List.length (Extracted.events data)) =? 0)
      then Ok (Some (Legacy.mk data None))
      else
        let sortedEvents := sortedEvents (Extracted.events data) in
        first <- at_index sortedEvents 0 ;;
        let firstEventTime := parseISO (Event.startTime first) in
        mergedBlocks <- mergedBlocks firstEventTime sortedEvents ;;
        finalBlocks <- mapM finishBlock mergedBlocks ;;
        Ok (Some (Legacy.mk data (Some finalBlocks)))
  end.

End AppPage.

(** The groups of the sweep of the page: an event joins the current
    group when it starts before the latest end of its members. *)
Fixpoint groupsFrom (cur : list Event.t) (l : list Event.t)
  : list (list Event.t) :=
  match l with
  | [] => [cur]
  | e :: r =>
      if lo e <? latest cur then groupsFrom (cur ++ [e]) r
      else cur :: groupsFrom [e] r
  end.

Definition groups (l : list Event.t) : list (list Event.t) :=
  match l with
  | [] => []
  | e :: r => groupsFrom [e] r
  end.

(** * Properties *)

(** Projection of the fields of a summary. *)
Ltac summary_fields :=
  cbn [LaytimeCalculation.totalLaytime LaytimeCalculation.allowedLaytime
       LaytimeCalculation.timeSaved LaytimeCalculation.demurrage
       LaytimeCalculation.demurrageCost LaytimeCalculation.laytimeEvents].

(** ** Text *)

Lemma append_assoc (a b c : string) :
  ((a ++ b) ++ c = a ++ (b ++ c))%string.
Proof.
  induction a as [|x a IH]; simpl; [reflexivity | now rewrite IH].
Qed.

Lemma allChars_app (p : ascii -> bool) (a b : string) :
  allChars p (a ++ b) = allChars p a && allChars p b.
Proof.
  induction a as [|x a IH]; simpl; [reflexivity|].
  now rewrite IH, andb_assoc.
Qed.

Lemma allChars_weaken (p q : ascii -> bool) (s : string) :
  (forall c, p c = true -> q c = true) ->
  allChars p s = true -> allChars q s = true.
Proof.
  intros Hpq. induction s as [|c s IH]; simpl; [reflexivity|].
  rewrite !andb_true_iff. intros [Hc Hs]. split; auto.
Qed.

Lemma trimEnd_app (s t : string) :
  trimEnd t <> EmptyString -> trimEnd (s ++ t) = (s ++ trimEnd t)%string.
Proof.
  intros Ht. induction s as [|c s IH]; simpl; [reflexivity|].
  rewrite IH. destruct (s ++ trimEnd t)%string as [|c' r'] eqn:E.
  - destruct s; simpl in E; [contradiction | discriminate].
  - reflexivity.
Qed.

Lemma digit_not_blank (c : ascii) :
  isDigit c = true -> isWhiteSpace c = false.
Proof.
  unfold isDigit, isWhiteSpace. generalize (nat_of_ascii c). intros n H.
  apply andb_true_iff in H. destruct H as [H1 H2].
  apply Nat.leb_le in H1. apply Nat.leb_le in H2.
  apply orb_false_iff. split.
  - apply andb_false_iff. right. apply Nat.leb_gt. lia.
  - apply Nat.eqb_neq. lia.
Qed.

Lemma digits_of_uint (d : Decimal.uint) :
  allChars isDigit (NilEmpty.string_of_uint d) = true.
Proof.
  induction d; simpl; auto.
Qed.

Lemma toString_digits (z : Z) :
  0 <= z -> allChars isDigit (toString (num z)) = true.
Proof.
  intros Hz. unfold toString, num, NilZero.string_of_int.
  destruct z as [|p|p]; simpl; [reflexivity | | lia].
  unfold NilZero.string_of_uint.
  destruct (Pos.to_uint p) eqn:E; try reflexivity;
    rewrite <- E; apply digits_of_uint.
Qed.

Lemma toString_head (z : Z) :
  0 <= z ->
  exists c r, toString (num z) = String c r /\ isWhiteSpace c = false.
Proof.
  intros Hz. pose proof (toString_digits z Hz) as Hd.
  destruct (toString (num z)) as [|c r] eqn:E.
  - exfalso. unfold toString, num, NilZero.string_of_int in E.
    destruct z as [|p|p]; simpl in E; try discriminate.
    unfold NilZero.string_of_uint in E.
    destruct (Pos.to_uint p) eqn:Ep; simpl in E; try discriminate.
  - exists c, r. split; [reflexivity|].
    simpl in Hd. apply andb_true_iff in Hd. now apply digit_not_blank.
Qed.

(** ** The duration formatter *)

Lemma gtb_ltb (a : Z) : (a >? 0) = (0 <? a).
Proof. now rewrite Z.gtb_ltb. Qed.

Lemma solidHead_app (a b : string) : solidHead a -> solidHead (a ++ b).
Proof. destruct a; simpl; tauto. Qed.

Lemma solidHead_eqb (a : string) :
  solidHead a -> String.eqb a EmptyString = false.
Proof. destruct a; simpl; tauto. Qed.

Lemma solidHead_toString (z : Z) : 0 <= z -> solidHead (toString (num z)).
Proof.
  intros Hz. destruct (toString_head z Hz) as (c & r & E & W).
  now rewrite E.
Qed.

Lemma trim_tail (p t t' : string) :
  solidHead p -> trimEnd t = t' -> t' <> EmptyString ->
  trim (p ++ t) = (p ++ t')%string.
Proof.
  intros Hp Ht Hne. unfold trim.
  replace (trimStart (p ++ t)) with (p ++ t)%string.
  - rewrite trimEnd_app; rewrite Ht; auto.
  - destruct p as [|c r]; simpl in *; [contradiction | now rewrite Hp].
Qed.

(** The tail of the formatter, on three non-negative components. *)
Lemma assemble_units (d h mi : Z) :
  0 <= d -> 0 <= h -> 0 <= mi ->
  let r1 := if 0 <? d then (toString (num d) ++ "d ")%string
            else EmptyString in
  let r2 := if 0 <? h then (r1 ++ toString (num h) ++ "h ")%string
            else r1 in
  let r3 := if (0 <? mi) || String.eqb r2 EmptyString
            then (r2 ++ toString (num mi) ++ "m")%string else r2 in
  trim r3 = match units d h mi with
            | [] => "0m"
            | us => String.concat " " us
            end.
Proof.
  intros Hd Hh Hm.
  pose proof (solidHead_toString d Hd) as Sd.
  pose proof (solidHead_toString h Hh) as Sh.
  pose proof (solidHead_toString mi Hm) as Sm.
  unfold units, unit.
  destruct (0 <? d) eqn:Bd; destruct (0 <? h) eqn:Bh;
    destruct (0 <? mi) eqn:Bm; cbv zeta;
    cbn [orb List.app String.concat append];
    repeat rewrite <- append_assoc;
    repeat match goal with
    | |- context [String.eqb ?a EmptyString] =>
        rewrite (solidHead_eqb a)
          by (repeat apply solidHead_app; assumption)
    end;
    cbn [append String.eqb].
  all: try (erewrite trim_tail;
            [ | repeat apply solidHead_app; assumption
              | vm_compute; reflexivity | discriminate ];
            repeat rewrite append_assoc; reflexivity).
  apply Z.ltb_ge in Bm. replace mi with 0 by lia. reflexivity.
Qed.

Lemma shown_nonempty (m : Z) : shown m <> [].
Proof.
  unfold shown. destruct (units _ _ _); discriminate.
Qed.

Lemma spelled_units (m : Z) :
  spelled m = match units (m / 1440) ((m mod 1440) / 60) (m mod 60) with
              | [] => "0m"
              | us => String.concat " " us
              end.
Proof.
  unfold spelled, shown. now destruct (units _ _ _).
Qed.

Lemma formatMinutesToDuration_positive (m : Z) :
  0 < m -> formatMinutesToDuration (num m) = spelled m.
Proof.
  intros Hm. rewrite spelled_units.
  assert (Hd : 0 <= m / 1440) by (apply Z.div_pos; lia).
  assert (Hr : 0 <= m mod 1440 < 1440) by (apply Z.mod_pos_bound; lia).
  assert (Hh : 0 <= (m mod 1440) / 60) by (apply Z.div_pos; lia).
  assert (Hmi : 0 <= m mod 60 < 60) by (apply Z.mod_pos_bound; lia).
  rewrite <- (assemble_units _ _ _ Hd Hh (proj1 Hmi)).
  unfold formatMinutesToDuration, le, gt, cmp2, num, floorDiv, rem, round.
  replace (m <=? 0) with false by (symmetry; apply Z.leb_gt; lia).
  rewrite (Z.rem_mod_nonneg m 1440) by lia.
  rewrite (Z.rem_mod_nonneg (m mod 1440) 60) by lia.
  replace ((m mod 1440) mod 60) with (m mod 60).
  - rewrite !gtb_ltb. cbv zeta.
    destruct (0 <? m / 1440); cbn [append]; reflexivity.
  - pose proof (Z.div_mod m 1440 ltac:(lia)) as E1.
    pose proof (Z.div_mod (m mod 1440) 60 ltac:(lia)) as E2.
    pose proof (Z.mod_pos_bound (m mod 1440) 60 ltac:(lia)) as B2.
    symmetry.
    apply (Z.mod_unique m 60 (24 * (m / 1440) + (m mod 1440) / 60)); lia.
Qed.

Lemma formatMinutesToDuration_nonpositive (m : Z) :
  m <= 0 -> formatMinutesToDuration (num m) = "0m".
Proof.
  intros Hm. unfold formatMinutesToDuration, le, cmp2, num.
  now replace (m <=? 0) with true by (symmetry; apply Z.leb_le; lia).
Qed.

Lemma formatMinutesToDuration_max (m : Z) :
  formatMinutesToDuration (num m) = spelled (Z.max 0 m).
Proof.
  destruct (Z_lt_le_dec 0 m) as [Hm|Hm].
  - rewrite Z.max_r by lia. now apply formatMinutesToDuration_positive.
  - rewrite Z.max_l by lia. now apply formatMinutesToDuration_nonpositive.
Qed.

(** C8: the formatter renders a span of minutes with its non-zero units,
    days, then hours, then minutes, separated by blanks; it always shows
    at least one unit, a span of zero length (or less) reading ["0m"]; 240
    minutes read ["4h"]. *)
Theorem format_duration_units (m : Z) :
  let n := Z.max 0 m in
  let d := n / 1440 in
  let h := (n mod 1440) / 60 in
  let mi := n mod 60 in
  n = 1440 * d + 60 * h + mi /\ 0 <= d /\ 0 <= h < 24 /\ 0 <= mi < 60 /\
  shown n = match units d h mi with [] => ["0m"] | us => us end /\
  shown n <> [] /\
  formatMinutesToDuration (num m) = String.concat " " (shown n) /\
  formatMinutesToDuration (num 0) = "0m" /\
  formatMinutesToDuration (num 240) = "4h" /\
  formatMinutesToDuration (num 1500) = "1d 1h".
Proof.
  cbv zeta.
  assert (Hn : 0 <= Z.max 0 m) by lia.
  pose proof (Z.div_mod (Z.max 0 m) 1440 ltac:(lia)) as E1.
  pose proof (Z.mod_pos_bound (Z.max 0 m) 1440 ltac:(lia)) as B1.
  pose proof (Z.div_mod (Z.max 0 m mod 1440) 60 ltac:(lia)) as E2.
  pose proof (Z.mod_pos_bound (Z.max 0 m mod 1440) 60 ltac:(lia)) as B2.
  pose proof (Z.div_mod (Z.max 0 m) 60 ltac:(lia)) as E3.
  pose proof (Z.mod_pos_bound (Z.max 0 m) 60 ltac:(lia)) as B3.
  assert (Hd : 0 <= Z.max 0 m / 1440) by (apply Z.div_pos; lia).
  assert (Hh : 0 <= (Z.max 0 m mod 1440) / 60 < 24).
  { split; [apply Z.div_pos; lia | apply Z.div_lt_upper_bound; lia]. }
  repeat split; try lia; try reflexivity.
  - apply shown_nonempty.
  - apply formatMinutesToDuration_max.
Qed.

(** ** Normalization: the filter and the sort *)

Lemma timed_inv (e : Event.t) :
  timed e = true ->
  Event.startTime e = Instant (lo e) /\ Event.endTime e = Instant (hi e).
Proof.
  unfold timed, lo, hi.
  destruct (Event.startTime e), (Event.endTime e);
    intros H; try discriminate; auto.
Qed.

Lemma timed_truthy (e : Event.t) :
  timed e = true ->
  truthy (Event.startTime e) && truthy (Event.endTime e) = true.
Proof.
  intros He. destruct (timed_inv e He) as [-> ->]. reflexivity.
Qed.

Lemma validEvents_In (events : list Event.t) (e : Event.t) :
  In e (validEvents events)
  <-> In e events /\ Event.startTime e <> Missing
      /\ Event.endTime e <> Missing.
Proof.
  unfold validEvents. rewrite filter_In. unfold truthy.
  destruct (Event.startTime e), (Event.endTime e); simpl;
    intuition congruence.
Qed.


Lemma validEvents_fixed (l : list Event.t) :
  allTimed l -> validEvents l = l.
Proof.
  intros Hl. unfold validEvents. apply forallb_filter_id.
  apply forallb_forall. intros e He. unfold allTimed in Hl.
  rewrite Forall_forall in Hl. apply timed_truthy. now apply Hl.
Qed.

Lemma insert_perm (a : Event.t) (l : list Event.t) :
  Permutation (insert a l) (a :: l).
Proof.
  induction l as [|b r IH]; simpl; [reflexivity|].
  destruct (gt (compareFn a b) (num 0)); [|reflexivity].
  rewrite IH. apply perm_swap.
Qed.

Lemma sortedEvents_perm (l : list Event.t) : Permutation (sortedEvents l) l.
Proof.
  induction l as [|a r IH]; simpl; [reflexivity|].
  rewrite insert_perm. now constructor.
Qed.

Lemma sortedEvents_In (l : list Event.t) (e : Event.t) :
  In e (sortedEvents l) <-> In e l.
Proof.
  split; apply Permutation_in;
    [apply sortedEvents_perm | symmetry; apply sortedEvents_perm].
Qed.

Lemma sortedEvents_length (l : list Event.t) :
  List.length (sortedEvents l) = List.length l.
Proof. apply Permutation_length, sortedEvents_perm. Qed.

Lemma sortedEvents_timed (l : list Event.t) :
  allTimed l -> allTimed (sortedEvents l).
Proof.
  intros H. eapply Permutation_Forall; [|exact H].
  symmetry. apply sortedEvents_perm.
Qed.

Lemma compareFn_timed (a b : Event.t) :
  timed a = true -> timed b = true ->
  gt (compareFn a b) (num 0) = (lo b <? lo a).
Proof.
  intros Ha Hb. apply timed_inv in Ha, Hb.
  destruct Ha as [Ha _], Hb as [Hb _].
  unfold compareFn, parseISO, getTime. rewrite Ha, Hb. simpl.
  rewrite Z.gtb_ltb.
  destruct (Z.ltb_spec 0 (lo a - lo b)), (Z.ltb_spec (lo b) (lo a));
    try reflexivity; lia.
Qed.

Lemma insert_sorted (a : Event.t) (l : list Event.t) :
  timed a = true -> allTimed l ->
  Sorted startsLe l -> Sorted startsLe (insert a l).
Proof.
  intros Ha Hl Hs. induction l as [|b r IH]; simpl.
  - repeat constructor.
  - inversion Hl as [|? ? Hb Hr]; subst.
    inversion Hs as [|? ? Hsr Hhd]; subst.
    rewrite (compareFn_timed a b Ha Hb).
    destruct (Z.ltb_spec (lo b) (lo a)) as [Hlt|Hge].
    + constructor; [now apply IH|].
      destruct r as [|c r']; simpl.
      * constructor. unfold startsLe. lia.
      * inversion Hr; subst. rewrite (compareFn_timed a c Ha) by assumption.
        destruct (Z.ltb_spec (lo c) (lo a)).
        -- constructor. now inversion Hhd.
        -- constructor. unfold startsLe. lia.
    + constructor; [assumption|]. constructor. exact Hge.
Qed.

Lemma sortedEvents_sorted (l : list Event.t) :
  allTimed l -> Sorted startsLe (sortedEvents l).
Proof.
  induction 1 as [|a r Ha Hr IH]; simpl; [constructor|].
  apply insert_sorted; auto. now apply sortedEvents_timed.
Qed.

Lemma startsLe_trans : Relations_1.Transitive startsLe.
Proof. intros a b c. unfold startsLe. lia. Qed.

(** The sort leaves a normalized sequence as it is. *)
Lemma sortedEvents_fixed (l : list Event.t) :
  allTimed l -> Sorted startsLe l -> sortedEvents l = l.
Proof.
  intros Ht Hs. apply Sorted_StronglySorted in Hs; [|exact startsLe_trans].
  induction Hs as [|a r Hr IH Ha]; simpl; [reflexivity|].
  inversion Ht; subst. rewrite IH by assumption.
  destruct r as [|b r']; simpl; [reflexivity|].
  inversion Ha; subst. rewrite compareFn_timed; auto.
  - destruct (Z.ltb_spec (lo b) (lo a)); [|reflexivity].
    unfold startsLe in *. lia.
  - now inversion H2.
Qed.

(** ** The extremes of a block *)

Lemma fold_max_dates (r : list Event.t) (acc : Z) :
  allTimed r ->
  fold_left (lift2 Z.max) (endDates r) (Some acc)
  = Some (fold_left Z.max (map hi r) acc).
Proof.
  intros Hr. revert acc.
  induction Hr as [|e r He Hr IH]; intros acc; simpl; [reflexivity|].
  destruct (timed_inv e He) as [_ Ht]. unfold parseISO. rewrite Ht.
  simpl. apply IH.
Qed.

Lemma fold_min_dates (r : list Event.t) (acc : Z) :
  allTimed r ->
  fold_left (lift2 Z.min) (startDates r) (Some acc)
  = Some (fold_left Z.min (map lo r) acc).
Proof.
  intros Hr. revert acc.
  induction Hr as [|e r He Hr IH]; intros acc; simpl; [reflexivity|].
  destruct (timed_inv e He) as [Hs _]. unfold parseISO. rewrite Hs.
  simpl. apply IH.
Qed.

Lemma max_endDates (g : list Event.t) :
  g <> [] -> allTimed g -> max (endDates g) = Some (latest g).
Proof.
  intros Hne Hg. destruct g as [|e r]; [contradiction|].
  inversion Hg as [|? ? He Hr]; subst.
  unfold max, pick, latest. simpl.
  destruct (timed_inv e He) as [_ Ht]. unfold parseISO. rewrite Ht.
  now apply fold_max_dates.
Qed.

Lemma min_startDates (g : list Event.t) :
  g <> [] -> allTimed g -> min (startDates g) = Some (earliest g).
Proof.
  intros Hne Hg. destruct g as [|e r]; [contradiction|].
  inversion Hg as [|? ? He Hr]; subst.
  unfold min, pick, earliest. simpl.
  destruct (timed_inv e He) as [Hs _]. unfold parseISO. rewrite Hs.
  now apply fold_min_dates.
Qed.

Lemma latest_snoc (g : list Event.t) (e : Event.t) :
  g <> [] -> latest (g ++ [e]) = Z.max (latest g) (hi e).
Proof.
  destruct g as [|a r]; [contradiction|]. intros _.
  unfold latest. simpl. now rewrite map_app, fold_left_app.
Qed.

Lemma earliest_snoc (g : list Event.t) (e : Event.t) :
  g <> [] -> earliest (g ++ [e]) = Z.min (earliest g) (lo e).
Proof.
  destruct g as [|a r]; [contradiction|]. intros _.
  unfold earliest. simpl. now rewrite map_app, fold_left_app.
Qed.

Lemma latest_bound (g : list Event.t) (e : Event.t) :
  In e g -> hi e <= latest g.
Proof.
  induction g as [|a r IH] using rev_ind; [contradiction|].
  intros Hin. destruct r as [|b r'].
  - destruct Hin as [<-|[]]. simpl. lia.
  - rewrite latest_snoc by discriminate.
    apply in_app_or in Hin. destruct Hin as [Hin|[<-|[]]]; [|lia].
    specialize (IH Hin). lia.
Qed.

Lemma earliest_bound (g : list Event.t) (e : Event.t) :
  In e g -> earliest g <= lo e.
Proof.
  induction g as [|a r IH] using rev_ind; [contradiction|].
  intros Hin. destruct r as [|b r'].
  - destruct Hin as [<-|[]]. simpl. lia.
  - rewrite earliest_snoc by discriminate.
    apply in_app_or in Hin. destruct Hin as [Hin|[<-|[]]]; [|lia].
    specialize (IH Hin). lia.
Qed.

Lemma not_nil_snoc (g : list Event.t) (e : Event.t) : g ++ [e] <> [].
Proof. destruct g; discriminate. Qed.

Lemma allTimed_snoc (g : list Event.t) (e : Event.t) :
  allTimed g -> timed e = true -> allTimed (g ++ [e]).
Proof.
  intros Hg He. apply Forall_app. split; [assumption|]. now constructor.
Qed.

(** ** One iteration of the sweep *)

Lemma openBlock_timed (first : Date) (e : Event.t) :
  timed e = true -> openBlock first e = Ok (opened first e).
Proof.
  intros He. destruct (timed_inv e He) as [Hs Ht].
  unfold openBlock, opened, parseISO. now rewrite Hs, Ht.
Qed.

Lemma opened_populated (first : Date) (e : Event.t) :
  timed e = true -> populated (opened first e).
Proof.
  intros He. split; simpl; [discriminate | now repeat constructor].
Qed.

Lemma grown_populated (first : Date) (cur : TimelineBlock.t) (e : Event.t) :
  populated cur -> timed e = true -> populated (grown first cur e).
Proof.
  intros [Hne Hg] He. split; simpl.
  - apply not_nil_snoc.
  - now apply allTimed_snoc.
Qed.

Lemma sweepStep_first (first : Date) (merged : list TimelineBlock.t)
  (e : Event.t) :
  timed e = true ->
  sweepStep first (None, merged) e = Ok (Some (opened first e), merged).
Proof.
  intros He. unfold sweepStep. now rewrite openBlock_timed.
Qed.

Lemma sweepStep_test (cur : TimelineBlock.t) (e : Event.t) :
  populated cur -> timed e = true ->
  lt (getTime (parseISO (Event.startTime e)))
     (getTime (max (endDates (TimelineBlock.subEvents cur))))
  = (lo e <? latest (TimelineBlock.subEvents cur)).
Proof.
  intros [Hne Hg] He. destruct (timed_inv e He) as [Hs _].
  rewrite max_endDates by assumption.
  unfold parseISO, getTime. now rewrite Hs.
Qed.

Lemma sweepStep_merge (first : Date) (cur : TimelineBlock.t)
  (merged : list TimelineBlock.t) (e : Event.t) :
  populated cur -> timed e = true ->
  lo e < latest (TimelineBlock.subEvents cur) ->
  sweepStep first (Some cur, merged) e
  = Ok (Some (grown first cur e), merged).
Proof.
  intros Hcur He Hlt. unfold sweepStep.
  rewrite (sweepStep_test cur e Hcur He).
  replace (lo e <? latest (TimelineBlock.subEvents cur)) with true
    by (symmetry; now apply Z.ltb_lt).
  destruct Hcur as [Hne Hg]. destruct (timed_inv e He) as [Hs Ht].
  rewrite max_endDates by assumption.
  rewrite min_startDates
    by (apply not_nil_snoc || now apply allTimed_snoc).
  rewrite earliest_snoc by assumption.
  unfold parseISO. rewrite Ht. reflexivity.
Qed.

Lemma sweepStep_open (first : Date) (cur : TimelineBlock.t)
  (merged : list TimelineBlock.t) (e : Event.t) :
  populated cur -> timed e = true ->
  latest (TimelineBlock.subEvents cur) <= lo e ->
  sweepStep first (Some cur, merged) e
  = Ok (Some (opened first e), merged ++ [cur]).
Proof.
  intros Hcur He Hge. unfold sweepStep.
  rewrite (sweepStep_test cur e Hcur He).
  replace (lo e <? latest (TimelineBlock.subEvents cur)) with false
    by (symmetry; now apply Z.ltb_ge).
  now rewrite openBlock_timed.
Qed.

(** ** The sweep as a whole *)

Lemma foldM_sweepFrom (first : Date) (l : list Event.t) :
  allTimed l ->
  forall cur merged, populated cur ->
  bind (foldM (sweepStep first) l (Some cur, merged)) closeSweep
  = Ok (sweepFrom first cur merged l).
Proof.
  induction 1 as [|e r He Hr IH]; intros cur merged Hcur.
  - reflexivity.
  - cbn [foldM sweepFrom].
    destruct (Z.ltb_spec (lo e) (latest (TimelineBlock.subEvents cur)))
      as [Hlt|Hge].
    + rewrite sweepStep_merge by assumption. cbn [bind].
      apply IH. now apply grown_populated.
    + rewrite sweepStep_open by assumption. cbn [bind].
      apply IH. now apply opened_populated.
Qed.

Lemma mergedBlocks_swept (first : Date) (l : list Event.t) :
  allTimed l -> mergedBlocks first l = Ok (swept first l).
Proof.
  intros Hl. unfold mergedBlocks. destruct l as [|e r]; [reflexivity|].
  replace (0 <? Z.of_nat (List.length (e :: r))) with true
    by (symmetry; apply Z.ltb_lt; simpl; lia).
  inversion Hl as [|? ? He Hr]; subst.
  cbn [foldM swept]. rewrite sweepStep_first by assumption. cbn [bind].
  apply (foldM_sweepFrom first r Hr). now apply opened_populated.
Qed.

(** An event that lacks an instant stops the sweep: [format] is handed an
    Invalid Date. *)
Lemma openBlock_untimed (first : Date) (e : Event.t) :
  timed e = false -> openBlock first e = Throw RangeError.
Proof.
  unfold timed, openBlock, parseISO, format.
  destruct (Event.startTime e), (Event.endTime e);
    intros H; try discriminate; reflexivity.
Qed.

Lemma sweepStep_untimed (first : Date) (st : sweepState) (e : Event.t) :
  ready st -> timed e = false -> sweepStep first st e = Throw RangeError.
Proof.
  destruct st as [[cur|] merged]; unfold ready; simpl fst; intros Hst He.
  - destruct Hst as [Hne Hg]. unfold sweepStep.
    rewrite max_endDates by assumption.
    rewrite (openBlock_untimed first e He).
    unfold timed in He. unfold parseISO, getTime, lt, cmp2.
    destruct (Event.startTime e) as [| |s]; try reflexivity.
    destruct (Event.endTime e) as [| |t]; try discriminate;
      destruct (s <? latest (TimelineBlock.subEvents cur)); reflexivity.
  - unfold sweepStep. now rewrite openBlock_untimed.
Qed.

Lemma sweepStep_timed (first : Date) (st : sweepState) (e : Event.t) :
  ready st -> timed e = true ->
  exists st', sweepStep first st e = Ok st' /\ ready st'.
Proof.
  destruct st as [[cur|] merged]; unfold ready; simpl fst; intros Hst He.
  - destruct (Z_lt_le_dec (lo e) (latest (TimelineBlock.subEvents cur))).
    + eexists. split; [now apply sweepStep_merge|].
      now apply grown_populated.
    + eexists. split; [now apply sweepStep_open|].
      now apply opened_populated.
  - eexists. split; [now apply sweepStep_first|].
    now apply opened_populated.
Qed.

Lemma foldM_sweep_cases (first : Date) (l : list Event.t) :
  forall st, ready st ->
  (allTimed l /\ exists st', foldM (sweepStep first) l st = Ok st')
  \/ foldM (sweepStep first) l st = Throw RangeError.
Proof.
  induction l as [|e r IH]; intros st Hst.
  - left. split; [constructor | now exists st].
  - cbn [foldM]. destruct (timed e) eqn:He.
    + destruct (sweepStep_timed first st e Hst He) as (st' & E & Hst').
      rewrite E. cbn [bind].
      destruct (IH st' Hst') as [[Hr Hok] | Hthrow].
      * left. split; [now constructor | exact Hok].
      * now right.
    + right. now rewrite sweepStep_untimed.
Qed.

Lemma mergedBlocks_cases (first : Date) (l : list Event.t) :
  (allTimed l /\ mergedBlocks first l = Ok (swept first l))
  \/ mergedBlocks first l = Throw RangeError.
Proof.
  destruct (foldM_sweep_cases first l (None, []) I) as [[Hl _] | Hthrow].
  - left. split; [exact Hl | now apply mergedBlocks_swept].
  - right. unfold mergedBlocks. destruct l as [|e r]; [discriminate|].
    replace (0 <? Z.of_nat (List.length (e :: r))) with true
      by (symmetry; apply Z.ltb_lt; cbn [List.length]; lia).
    now rewrite Hthrow.
Qed.

Lemma sweepFrom_merged (first : Date) (l : list Event.t) :
  forall cur merged,
  sweepFrom first cur merged l = merged ++ sweepFrom first cur [] l.
Proof.
  induction l as [|e r IH]; intros cur merged; simpl; [reflexivity|].
  destruct (lo e <? latest (TimelineBlock.subEvents cur)).
  - apply IH.
  - rewrite IH. rewrite (IH _ [cur]). now rewrite <- app_assoc.
Qed.

Lemma sweepFrom_populated (first : Date) (l : list Event.t) :
  allTimed l ->
  forall cur, populated cur ->
  Forall populated (sweepFrom first cur [] l).
Proof.
  induction 1 as [|e r He Hr IH]; intros cur Hcur; simpl.
  - constructor; [assumption | constructor].
  - destruct (lo e <? latest (TimelineBlock.subEvents cur)).
    + apply IH. now apply grown_populated.
    + rewrite sweepFrom_merged. constructor; [assumption|].
      apply IH. now apply opened_populated.
Qed.

Lemma swept_populated (first : Date) (l : list Event.t) :
  allTimed l -> Forall populated (swept first l).
Proof.
  intros Hl. destruct l as [|e r]; simpl; [constructor|].
  inversion Hl; subst.
  apply sweepFrom_populated; [assumption | now apply opened_populated].
Qed.

(** The members of the blocks are the events, in order. *)
Lemma sweepFrom_members (first : Date) (l : list Event.t) :
  forall cur,
  List.concat (map TimelineBlock.subEvents (sweepFrom first cur [] l))
  = TimelineBlock.subEvents cur ++ l.
Proof.
  induction l as [|e r IH]; intros cur; simpl.
  - reflexivity.
  - destruct (lo e <? latest (TimelineBlock.subEvents cur)).
    + rewrite IH. simpl. now rewrite <- app_assoc.
    + rewrite sweepFrom_merged. simpl. now rewrite IH.
Qed.

Lemma swept_members (first : Date) (l : list Event.t) :
  List.concat (map TimelineBlock.subEvents (swept first l)) = l.
Proof.
  destruct l as [|e r]; simpl; [reflexivity|]. now rewrite sweepFrom_members.
Qed.

(** ** The post-processing of the blocks *)

Lemma at_index_head {A : Type} (x : A) (r : list A) :
  at_index (x :: r) 0 = Ok x.
Proof. reflexivity. Qed.

Lemma at_index_last {A : Type} (l : list A) :
  l <> [] -> exists x, at_index l (Z.of_nat (List.length l) - 1) = Ok x.
Proof.
  intros Hne. unfold at_index.
  destruct (Z.ltb_spec (Z.of_nat (List.length l) - 1) 0) as [Hlt|Hge].
  - destruct l; [contradiction|].
    cbn [List.length] in Hlt. lia.
  - destruct (nth_error l (Z.to_nat (Z.of_nat (List.length l) - 1)))
      as [x|] eqn:E; [now exists x|].
    apply nth_error_None in E. destruct l; [contradiction|].
    cbn [List.length] in *. lia.
Qed.

Lemma finishBlock_populated (b : TimelineBlock.t) :
  populated b ->
  exists b', finishBlock b = Ok b'
    /\ TimelineBlock.subEvents b' = TimelineBlock.subEvents b
    /\ TimelineBlock.duration b'
       = formatMinutesToDuration
           (num (Z.quot (latest (TimelineBlock.subEvents b)
                         - earliest (TimelineBlock.subEvents b)) 60000)).
Proof.
  intros [Hne Hg]. unfold finishBlock, blockStart, blockEnd.
  rewrite max_endDates, min_startDates by assumption.
  destruct (TimelineBlock.subEvents b) as [|e r] eqn:E; [contradiction|].
  rewrite at_index_head. cbn [reduce1 bind].
  destruct (1 <? Z.of_nat (List.length (e :: r)));
    cbn [bind]; eexists; (split; [reflexivity|]); simpl; auto.
Qed.

Lemma timelineBlocks_populated (bs : list TimelineBlock.t) :
  Forall populated bs ->
  exists bs', timelineBlocks bs = Ok bs'
    /\ map TimelineBlock.subEvents bs' = map TimelineBlock.subEvents bs.
Proof.
  unfold timelineBlocks.
  induction 1 as [|b r Hb Hr IH]; simpl.
  - now exists [].
  - destruct (finishBlock_populated b Hb) as (b' & Eb & Em & _).
    destruct IH as (r' & Er & Emr).
    exists (b' :: r'). rewrite Eb, Er. simpl. now rewrite Em, Emr.
Qed.

(** ** The pipeline as a whole *)

Lemma length_zero {A : Type} (l : list A) :
  (Z.of_nat (List.length l) =? 0) = match l with [] => true | _ => false end.
Proof. destruct l; reflexivity. Qed.

Lemma enrichedData_null (data : Extracted.t) :
  validEvents (Extracted.events data) = [] ->
  enrichedData (Some data) = Ok None.
Proof.
  intros E. unfold enrichedData. rewrite !length_zero, E.
  now destruct (Extracted.events data).
Qed.

Lemma enrichedData_some (data : Extracted.t) :
  validEvents (Extracted.events data) <> [] ->
  allTimed (validEvents (Extracted.events data)) ->
  exists first rest blocks summary,
    sortedEvents (validEvents (Extracted.events data)) = first :: rest
    /\ timelineBlocks (swept (Some (lo first)) (first :: rest)) = Ok blocks
    /\ map TimelineBlock.subEvents blocks
       = map TimelineBlock.subEvents (swept (Some (lo first)) (first :: rest))
    /\ enrichedData (Some data)
       = Ok (Some (Enriched.mk data blocks
                     (laytimeCalculation
                        (validEvents (Extracted.events data)))
                     summary)).
Proof.
  intros Hne Hv. unfold enrichedData. rewrite !length_zero.
  destruct (Extracted.events data) as [|e0 evs] eqn:Eev;
    [now contradiction Hne|].
  rewrite <- Eev in *.
  destruct (validEvents (Extracted.events data)) as [|v vs] eqn:Ev;
    [contradiction|].
  pose proof (sortedEvents_timed _ Hv) as Hs.
  pose proof (sortedEvents_length (v :: vs)) as Hlen.
  destruct (sortedEvents (v :: vs)) as [|first rest] eqn:Es;
    [discriminate|].
  inversion Hs as [|? ? Hf Hr]; subst.
  destruct (timed_inv first Hf) as [Hfs _].
  rewrite at_index_head. cbn [bind]. unfold parseISO at 1. rewrite Hfs.
  rewrite mergedBlocks_swept by assumption. cbn [bind].
  destruct (timelineBlocks_populated _
              (swept_populated (Some (lo first)) (first :: rest) Hs))
    as (blocks & Eb & Em).
  rewrite Eb. cbn [bind].
  unfold eventsSummary.
  destruct (at_index_last (first :: rest)) as (lastEvent & El);
    [discriminate|].
  rewrite El, at_index_head. cbn [bind].
  eexists first, rest, blocks, _. repeat split; try assumption.
Qed.

(** ** The characters of a rendered duration *)

Lemma allChars_concat (p : ascii -> bool) (sep : string) (us : list string) :
  allChars p sep = true ->
  Forall (fun u => allChars p u = true) us ->
  allChars p (String.concat sep us) = true.
Proof.
  intros Hsep. induction 1 as [|u r Hu Hr IH]; [reflexivity|].
  destruct r as [|v r']; [exact Hu|].
  change (String.concat sep (u :: v :: r'))
    with (u ++ sep ++ String.concat sep (v :: r'))%string.
  now rewrite !allChars_app, Hu, Hsep, IH.
Qed.

Lemma unit_chars (n : Z) (suffix : string) :
  allChars durationChar suffix = true ->
  Forall (fun u => allChars durationChar u = true) (unit n suffix).
Proof.
  intros Hs. unfold unit.
  destruct (Z.ltb_spec 0 n); constructor; [|constructor].
  rewrite allChars_app, Hs, andb_true_r.
  apply allChars_weaken with (p := isDigit).
  - intros c Hc. unfold durationChar. now rewrite Hc.
  - apply toString_digits. lia.
Qed.

Lemma format_chars (n : number) :
  allChars durationChar (formatMinutesToDuration n) = true.
Proof.
  destruct n as [m|]; [|reflexivity].
  rewrite formatMinutesToDuration_max, spelled_units.
  destruct (units _ _ _) as [|u us] eqn:E; [reflexivity|].
  rewrite <- E. apply allChars_concat; [reflexivity|].
  unfold units. repeat (apply Forall_app; split); now apply unit_chars.
Qed.

Lemma format_noMinus (n : number) :
  noMinus (formatMinutesToDuration n) = true.
Proof.
  apply allChars_weaken with (p := durationChar); [|apply format_chars].
  intros c Hc. destruct (Ascii.eqb_spec c "-"%char) as [->|]; [|reflexivity].
  discriminate.
Qed.

(** ** The allocator *)

Lemma durationMinutes_timed (e : Event.t) :
  timed e = true -> durationMinutes e = num (minutesOf e).
Proof.
  intros He. destruct (timed_inv e He) as [Hs Ht].
  unfold durationMinutes, minutesOf, differenceInMinutes, differenceIn,
    parseISO, lo, hi in *.
  now rewrite Hs, Ht.
Qed.

Lemma classify_counted (e : Event.t) :
  fst (classify (Event.category e)) = counted e.
Proof.
  unfold classify, counted.
  destruct (String.eqb (Event.category e) "Cargo Operations");
    [reflexivity|].
  now destruct (String.eqb (Event.category e) "Delays"
                || String.eqb (Event.category e) "Stoppages").
Qed.

Lemma laytimeStep_fold (l : list Event.t) :
  allTimed l ->
  forall total out,
  fold_left laytimeStep l (num total, out)
  = (num (total + countedMinutes l), out ++ map allocated l).
Proof.
  induction 1 as [|e r He Hr IH]; intros total out.
  - simpl. now rewrite Z.add_0_r, app_nil_r.
  - cbn [fold_left map].
    assert (Hstep : laytimeStep (num total, out) e
                    = (num (total + (if counted e then minutesOf e else 0)),
                       out ++ [allocated e])).
    { unfold laytimeStep, allocated. rewrite <- classify_counted.
      destruct (classify (Event.category e)) as [isCounted reason].
      rewrite durationMinutes_timed by assumption.
      destruct isCounted; simpl; [reflexivity|].
      now rewrite Z.add_0_r. }
    rewrite Hstep, IH. rewrite <- app_assoc. simpl.
    f_equal. f_equal. lia.
Qed.

Lemma laytimeEvents_allocated (l : list Event.t) :
  allTimed l ->
  laytimeEvents l = (num (countedMinutes l), map allocated l).
Proof.
  intros Hl. unfold laytimeEvents. now rewrite laytimeStep_fold.
Qed.

(** The list of laytime events does not depend on the instants being
    present. *)
Lemma laytimeEvents_map (l : list Event.t) :
  snd (laytimeEvents l) = map allocated l.
Proof.
  unfold laytimeEvents.
  enough (H : forall st, snd (fold_left laytimeStep l st)
                         = snd st ++ map allocated l) by apply H.
  induction l as [|e r IH]; intros [total out]; simpl.
  - now rewrite app_nil_r.
  - rewrite IH. unfold laytimeStep, allocated.
    destruct (classify (Event.category e)) as [isCounted reason].
    simpl. now rewrite <- app_assoc.
Qed.

Lemma laytimeCalculation_timed (l : list Event.t) :
  allTimed l ->
  let total := countedMinutes l in
  laytimeCalculation l
  = LaytimeCalculation.mk
      (formatMinutesToDuration (num total))
      "3 days"
      (formatMinutesToDuration (num (Z.max 0 (4320 - total))))
      (formatMinutesToDuration (num (Z.max 0 (total - 4320))))
      None
      (map allocated l).
Proof.
  intros Hl total. unfold laytimeCalculation.
  rewrite laytimeEvents_allocated by assumption. fold total.
  unfold allowedLaytimeMinutes, sub, lift2, gt, lt, cmp2, abs, num.
  change (3 * 24 * 60) with 4320.
  f_equal.
  - destruct (Z.gtb_spec (4320 - total) 0).
    + now rewrite Z.max_r by lia.
    + rewrite Z.max_l by lia. reflexivity.
  - destruct (Z.ltb_spec (4320 - total) 0).
    + rewrite Z.max_r by lia. f_equal. f_equal. lia.
    + rewrite Z.max_l by lia. reflexivity.
Qed.

(** When a present time field is not read, the pipeline raises. *)
Lemma enrichedData_untimed (data : Extracted.t) :
  validEvents (Extracted.events data) <> [] ->
  ~ allTimed (validEvents (Extracted.events data)) ->
  enrichedData (Some data) = Throw RangeError.
Proof.
  intros Hne Hnt. unfold enrichedData. rewrite !length_zero.
  destruct (Extracted.events data) as [|e0 evs] eqn:Eev;
    [now contradiction Hne|].
  rewrite <- Eev in *.
  destruct (validEvents (Extracted.events data)) as [|v vs] eqn:Ev;
    [contradiction|].
  pose proof (sortedEvents_length (v :: vs)) as Hlen.
  pose proof (sortedEvents_perm (v :: vs)) as Hperm.
  destruct (sortedEvents (v :: vs)) as [|first rest] eqn:Es;
    [discriminate|].
  rewrite at_index_head. cbn [bind].
  destruct (mergedBlocks_cases (parseISO (Event.startTime first))
              (first :: rest)) as [[Hs _] | ->]; [|reflexivity].
  contradiction Hnt. eapply Permutation_Forall; [exact Hperm | exact Hs].
Qed.

Lemma allTimed_dec (l : list Event.t) : {allTimed l} + {~ allTimed l}.
Proof.
  apply Forall_dec. intros e. destruct (timed e); [now left | right].
  discriminate.
Qed.

Lemma enrichedData_inv (data : Extracted.t) (d : Enriched.t) :
  enrichedData (Some data) = Ok (Some d) ->
  validEvents (Extracted.events data) <> []
  /\ allTimed (validEvents (Extracted.events data))
  /\ Enriched.extracted d = data
  /\ Enriched.laytimeCalculation d
     = laytimeCalculation (validEvents (Extracted.events data))
  /\ exists first rest,
       sortedEvents (validEvents (Extracted.events data)) = first :: rest
       /\ timelineBlocks (swept (Some (lo first)) (first :: rest))
          = Ok (Enriched.timelineBlocks d).
Proof.
  intros H.
  destruct (validEvents (Extracted.events data)) as [|v vs] eqn:Ev.
  - rewrite enrichedData_null in H by assumption. discriminate.
  - destruct (allTimed_dec (v :: vs)) as [Ht|Hnt].
    + destruct (enrichedData_some data) as
        (first & rest & blocks & summary & Es & Eb & _ & Ed).
      { rewrite Ev. discriminate. }
      { now rewrite Ev. }
      rewrite Ed in H. injection H as <-. rewrite Ev in *. simpl.
      split; [discriminate|]. split; [exact Ht|].
      split; [reflexivity|]. split; [reflexivity|].
      exists first, rest. auto.
    + rewrite enrichedData_untimed in H; [discriminate| |];
        rewrite Ev; [discriminate | exact Hnt].
Qed.

Lemma enrichedData_laytime (data : Extracted.t) (d : Enriched.t) :
  enrichedData (Some data) = Ok (Some d) ->
  let total := countedMinutes (validEvents (Extracted.events data)) in
  Enriched.laytimeCalculation d
  = LaytimeCalculation.mk
      (formatMinutesToDuration (num total))
      "3 days"
      (formatMinutesToDuration (num (Z.max 0 (4320 - total))))
      (formatMinutesToDuration (num (Z.max 0 (total - 4320))))
      None
      (map allocated (validEvents (Extracted.events data))).
Proof.
  intros H total. apply enrichedData_inv in H.
  destruct H as (_ & Ht & _ & El & _). rewrite El.
  now apply laytimeCalculation_timed.
Qed.

(** * The claims of the specification *)

(** ** Normalizer *)



(** C7, as the code has it: normalization does not clamp.  An input event
    that has both instants is kept as it is, also when its end precedes its
    start; it reaches the merger and the allocator with that end, and the
    allocator renders its duration as ["0m"]. *)
Theorem inverted_event_is_kept (events : list Event.t) (e : Event.t)
  (s t : Z) :
  In e events ->
  Event.startTime e = Instant s -> Event.endTime e = Instant t -> t < s ->
  In e (sortedEvents (validEvents events))
  /\ In (allocated e) (snd (laytimeEvents (validEvents events)))
  /\ LaytimeEvent.endTime (allocated e) = Instant t
  /\ LaytimeEvent.duration (allocated e) = "0m"
  /\ minutesOf e <= 0.
Proof.
  intros Hin Hs Ht Hlt.
  assert (He : timed e = true) by (unfold timed; now rewrite Hs, Ht).
  assert (Hm : minutesOf e <= 0).
  { unfold minutesOf. rewrite Hs, Ht.
    apply Z.quot_le_upper_bound; lia. }
  repeat split.
  - apply sortedEvents_In, validEvents_In. rewrite Hs, Ht.
    repeat split; [assumption | discriminate | discriminate].
  - rewrite laytimeEvents_map. apply in_map. apply validEvents_In.
    rewrite Hs, Ht. repeat split; [assumption | discriminate | discriminate].
  - exact Ht.
  - simpl. rewrite durationMinutes_timed by assumption.
    now apply formatMinutesToDuration_nonpositive.
  - exact Hm.
Qed.

Lemma inverted_event_is_kept_witness :
  In shifting [loading; shifting]
  /\ (In shifting (sortedEvents (validEvents [loading; shifting]))
      /\ In (allocated shifting)
            (snd (laytimeEvents (validEvents [loading; shifting])))
      /\ LaytimeEvent.endTime (allocated shifting) = Instant (clock 10 0)
      /\ LaytimeEvent.duration (allocated shifting) = "0m"
      /\ minutesOf shifting <= 0).
Proof.
  split; [right; left; reflexivity|].
  apply (inverted_event_is_kept [loading; shifting] shifting
           (clock 12 0) (clock 10 0)).
  - right; left; reflexivity.
  - reflexivity.
  - reflexivity.
  - vm_compute. reflexivity.
Defined.

(** C7 fails as stated: an event whose end precedes its start stays in the
    normalized sequence with its end before its start. *)
Lemma inverted_end_is_not_clamped :
  sortedEvents (validEvents [shifting]) = [shifting]
  /\ Event.startTime shifting = Instant (clock 12 0)
  /\ Event.endTime shifting = Instant (clock 10 0)
  /\ clock 10 0 < clock 12 0
  /\ minutesOf shifting = -120
  /\ countedMinutes (validEvents [loading]) = 120
  /\ countedMinutes (validEvents [loading; shifting]) = 0.
Proof. repeat split; reflexivity. Qed.

(** ** Laytime allocator *)

(** C4, as the code has it: the allocator classifies every event by its
    category alone.  Cargo operations are counted, with the reason "Cargo
    operations count towards laytime."; delays and stoppages are not
    counted, with the reason "Delays and stoppages generally do not
    count."; every other category is not counted, with the reason "Not
    counted towards laytime.". *)
Theorem allocator_classifies_by_category (data : Extracted.t)
  (d : Enriched.t) :
  enrichedData (Some data) = Ok (Some d) ->
  LaytimeCalculation.laytimeEvents (Enriched.laytimeCalculation d)
  = map allocated (validEvents (Extracted.events data))
  /\ forall e : Event.t,
       (Event.category e = "Cargo Operations" ->
        LaytimeEvent.isCounted (allocated e) = true
        /\ LaytimeEvent.reason (allocated e)
           = "Cargo operations count towards laytime.")
       /\ (Event.category e = "Delays" \/ Event.category e = "Stoppages" ->
           LaytimeEvent.isCounted (allocated e) = false
           /\ LaytimeEvent.reason (allocated e)
              = "Delays and stoppages generally do not count.")
       /\ (Event.category e <> "Cargo Operations" ->
           Event.category e <> "Delays" ->
           Event.category e <> "Stoppages" ->
           LaytimeEvent.isCounted (allocated e) = false
           /\ LaytimeEvent.reason (allocated e)
              = "Not counted towards laytime.").
Proof.
  intros H. split.
  - now rewrite (enrichedData_laytime data d H).
  - clear H. intros e. unfold allocated, classify. simpl.
    split; [|split].
    + intros ->. now split.
    + intros [-> | ->]; now split.
    + intros Hc Hd Hs. apply String.eqb_neq in Hc, Hd, Hs.
      rewrite Hc, Hd, Hs. now split.
Qed.

Lemma allocator_classifies_by_category_witness :
  exists d,
    enrichedData (Some (statement [loading; rain])) = Ok (Some d)
    /\ LaytimeCalculation.laytimeEvents (Enriched.laytimeCalculation d)
       = map allocated (validEvents [loading; rain])
    /\ LaytimeEvent.reason (allocated rain)
       = "Delays and stoppages generally do not count.".
Proof.
  eexists. split; [vm_compute; reflexivity|].
  match goal with
  | |- context [Enriched.laytimeCalculation ?d] =>
      destruct (allocator_classifies_by_category
                  (statement [loading; rain]) d) as [Hl Hc];
      [vm_compute; reflexivity|]
  end.
  split; [exact Hl|].
  destruct (Hc rain) as (_ & Hd & _). apply Hd. left. reflexivity.
Defined.

(** C4 fails as stated: the reason given for a delay is not the sentence
    the specification quotes. *)
Lemma delay_reason_differs :
  LaytimeEvent.isCounted (allocated rain) = false
  /\ LaytimeEvent.reason (allocated rain)
     = "Delays and stoppages generally do not count."
  /\ LaytimeEvent.reason (allocated rain)
     <> "Delays and stoppages do not count towards laytime.".
Proof. split; [reflexivity|]. split; [reflexivity | discriminate]. Qed.

(** C5: the summary holds [timeSaved = max(0, allowed - counted)] and
    [overrun = max(0, counted - allowed)], rendered by the formatter, where
    [counted] is the direct sum of the lengths of the counted events and
    [allowed] is 4320 minutes; the two are never both positive. *)
Theorem laytime_summary_figures (data : Extracted.t) (d : Enriched.t) :
  enrichedData (Some data) = Ok (Some d) ->
  let total := countedMinutes (validEvents (Extracted.events data)) in
  let summary := Enriched.laytimeCalculation d in
  LaytimeCalculation.totalLaytime summary
  = formatMinutesToDuration (num total)
  /\ LaytimeCalculation.allowedLaytime summary = "3 days"
  /\ LaytimeCalculation.timeSaved summary
     = formatMinutesToDuration (num (Z.max 0 (4320 - total)))
  /\ LaytimeCalculation.demurrage summary
     = formatMinutesToDuration (num (Z.max 0 (total - 4320)))
  /\ ~ (0 < Z.max 0 (4320 - total) /\ 0 < Z.max 0 (total - 4320))
  /\ (LaytimeCalculation.timeSaved summary = "0m"
      \/ LaytimeCalculation.demurrage summary = "0m").
Proof.
  intros H total summary. subst summary.
  rewrite (enrichedData_laytime data d H). fold total. summary_fields.
  split; [reflexivity|]. split; [reflexivity|]. split; [reflexivity|].
  split; [reflexivity|]. split; [lia|].
  destruct (Z_le_gt_dec total 4320).
  - right. apply formatMinutesToDuration_nonpositive. lia.
  - left. apply formatMinutesToDuration_nonpositive. lia.
Qed.

Lemma laytime_summary_figures_witness :
  exists d,
    enrichedData (Some (statement [loading; rain; discharging]))
    = Ok (Some d)
    /\ countedMinutes (validEvents [loading; rain; discharging]) = 5880
    /\ LaytimeCalculation.timeSaved (Enriched.laytimeCalculation d) = "0m"
    /\ LaytimeCalculation.demurrage (Enriched.laytimeCalculation d)
       = "1d 2h".
Proof.
  eexists. split; [vm_compute; reflexivity|].
  split; [reflexivity|].
  match goal with
  | |- context [Enriched.laytimeCalculation ?d] =>
      destruct (laytime_summary_figures
                  (statement [loading; rain; discharging]) d)
        as (_ & _ & Hs & Hd & _);
      [vm_compute; reflexivity|]
  end.
  split; [exact Hs | exact Hd].
Defined.

(** C6, as the code has it: the summary never carries a cost; its
    [demurrageCost] field is absent whether or not there is an overrun,
    and no daily rate enters the computation.  For a counted total of four
    days against the three days allowed the overrun reads ["1d"]. *)
Theorem demurrage_cost_is_absent (data : Extracted.t) (d : Enriched.t) :
  enrichedData (Some data) = Ok (Some d) ->
  LaytimeCalculation.demurrageCost (Enriched.laytimeCalculation d) = None
  /\ (countedMinutes (validEvents (Extracted.events data)) = 5760 ->
      LaytimeCalculation.demurrage (Enriched.laytimeCalculation d) = "1d").
Proof.
  intros H. rewrite (enrichedData_laytime data d H). summary_fields.
  split; [reflexivity|]. now intros ->.
Qed.

Lemma demurrage_cost_is_absent_witness :
  exists d,
    enrichedData (Some (statement [discharging])) = Ok (Some d)
    /\ LaytimeCalculation.demurrageCost (Enriched.laytimeCalculation d)
       = None
    /\ LaytimeCalculation.demurrage (Enriched.laytimeCalculation d) = "1d".
Proof.
  eexists. split; [vm_compute; reflexivity|].
  match goal with
  | |- context [Enriched.laytimeCalculation ?d] =>
      destruct (demurrage_cost_is_absent (statement [discharging]) d)
        as (Hc & Hd); [vm_compute; reflexivity|]
  end.
  split; [exact Hc | apply Hd; reflexivity].
Defined.

(** C6 fails as stated: with four days counted against three allowed there
    is an overrun, yet no cost is present, and the overrun does not read
    "1d 0h 0m". *)
Lemma overrun_without_cost :
  exists d,
    enrichedData (Some (statement [discharging])) = Ok (Some d)
    /\ countedMinutes (validEvents [discharging]) = 5760
    /\ LaytimeCalculation.demurrage (Enriched.laytimeCalculation d) = "1d"
    /\ LaytimeCalculation.demurrage (Enriched.laytimeCalculation d)
       <> "1d 0h 0m"
    /\ LaytimeCalculation.demurrageCost (Enriched.laytimeCalculation d)
       = None
    /\ LaytimeCalculation.demurrageCost (Enriched.laytimeCalculation d)
       <> Some "$20,000.00".
Proof.
  eexists. split; [vm_compute; reflexivity|].
  simpl. repeat split; discriminate.
Qed.

(** C10: the formatter renders every non-positive number of minutes as
    ["0m"]; the time saved, the demurrage and the duration of every laytime
    event are renderings of non-negative quantities and hold no minus
    sign, and the duration of an event whose end precedes its start reads
    ["0m"]. *)
Theorem durations_are_never_negative (m : Z) (data : Extracted.t)
  (d : Enriched.t) :
  m <= 0 ->
  enrichedData (Some data) = Ok (Some d) ->
  let summary := Enriched.laytimeCalculation d in
  formatMinutesToDuration (num m) = "0m"
  /\ (exists saved over : Z,
        0 <= saved /\ 0 <= over
        /\ LaytimeCalculation.timeSaved summary
           = formatMinutesToDuration (num saved)
        /\ LaytimeCalculation.demurrage summary
           = formatMinutesToDuration (num over))
  /\ noMinus (LaytimeCalculation.timeSaved summary) = true
  /\ noMinus (LaytimeCalculation.demurrage summary) = true
  /\ forall le : LaytimeEvent.t,
       In le (LaytimeCalculation.laytimeEvents summary) ->
       noMinus (LaytimeEvent.duration le) = true
       /\ exists e : Event.t,
            In e (validEvents (Extracted.events data))
            /\ le = allocated e
            /\ LaytimeEvent.duration le
               = formatMinutesToDuration (num (Z.max 0 (minutesOf e)))
            /\ (hi e < lo e -> LaytimeEvent.duration le = "0m").
Proof.
  intros Hm H summary. subst summary.
  pose proof (proj1 (proj2 (enrichedData_inv data d H))) as Hall.
  rewrite (enrichedData_laytime data d H). summary_fields.
  split; [now apply formatMinutesToDuration_nonpositive|].
  split.
  { exists (Z.max 0
              (4320 - countedMinutes (validEvents (Extracted.events data)))),
           (Z.max 0
              (countedMinutes (validEvents (Extracted.events data)) - 4320)).
    split; [lia|]. split; [lia|]. split; reflexivity. }
  split; [apply format_noMinus|]. split; [apply format_noMinus|].
  intros le Hle. apply in_map_iff in Hle. destruct Hle as (e & <- & He).
  split; [apply format_noMinus|].
  exists e. split; [assumption|]. split; [reflexivity|].
  unfold allTimed in Hall. rewrite Forall_forall in Hall.
  apply Hall in He.
  simpl. rewrite durationMinutes_timed by assumption.
  split.
  - rewrite (formatMinutesToDuration_max (Z.max 0 (minutesOf e))).
    rewrite formatMinutesToDuration_max. f_equal. lia.
  - intros Hinv. apply formatMinutesToDuration_nonpositive.
    destruct (timed_inv e He) as [Hs Ht].
    unfold minutesOf. rewrite Hs, Ht.
    apply Z.quot_le_upper_bound; lia.
Qed.

Lemma durations_are_never_negative_witness :
  exists d,
    enrichedData (Some (statement [loading; shifting])) = Ok (Some d)
    /\ formatMinutesToDuration (num (-120)) = "0m"
    /\ noMinus (LaytimeCalculation.timeSaved (Enriched.laytimeCalculation d))
       = true
    /\ LaytimeCalculation.laytimeEvents (Enriched.laytimeCalculation d)
       = [allocated loading; allocated shifting]
    /\ LaytimeEvent.duration (allocated shifting) = "0m".
Proof.
  eexists. split; [vm_compute; reflexivity|].
  match goal with
  | |- context [Enriched.laytimeCalculation ?d] =>
      destruct (durations_are_never_negative (-120)
                  (statement [loading; shifting]) d)
        as (Hf & _ & Hs & _ & He);
      [lia | vm_compute; reflexivity |]
  end.
  split; [exact Hf|]. split; [exact Hs|]. split; [reflexivity|].
  destruct (He (allocated shifting)) as (_ & e & _ & _ & _ & _).
  - right. left. reflexivity.
  - reflexivity.
Defined.

(** ** Totality *)

(** C9, as the code has it: the pipeline returns on the statements in
    which every event that has both time fields has two readable
    timestamps (the list may be empty, events may lack a time field,
    categories may be unknown, an end may precede its start): the filter,
    the sort, the sweep, the post-processing of the blocks and the
    allocator all return.  On every other statement it raises a
    [RangeError].  When no event has both time fields, as on the empty
    list, it returns [null]. *)
Theorem pipeline_raises_only_on_unreadable_times (vesselName : string)
  (details : list (string * string)) (events : list Event.t) :
  let data := Extracted.mk vesselName details events in
  (allTimed (validEvents events) ->
   (exists result, enrichedData (Some data) = Ok result)
   /\ (exists merged blocks,
         let sorted := sortedEvents (validEvents events) in
         let firstEventTime :=
           parseISO (match sorted with
                     | first :: _ => Event.startTime first
                     | [] => Missing
                     end) in
         mergedBlocks firstEventTime sorted = Ok merged
         /\ timelineBlocks merged = Ok blocks)
   /\ (exists total,
         laytimeEvents (validEvents events)
         = (num total, map allocated (validEvents events))))
  /\ (~ allTimed (validEvents events) ->
      enrichedData (Some data) = Throw RangeError)
  /\ (validEvents events = [] -> enrichedData (Some data) = Ok None)
  /\ enrichedData None = Ok None.
Proof.
  cbv zeta. split; [|split; [|split]].
  - intros Hv. split.
    { set (data := Extracted.mk vesselName details events).
      destruct (validEvents (Extracted.events data)) as [|v vs] eqn:Ev.
      - exists None. now apply enrichedData_null.
      - destruct (enrichedData_some data) as
          (first & rest & blocks & summary & _ & _ & _ & Ed).
        + rewrite Ev. discriminate.
        + exact Hv.
        + eexists. exact Ed. }
    split.
    { pose proof (sortedEvents_timed _ Hv) as Hs.
      set (sorted := sortedEvents (validEvents events)) in *.
      set (first := parseISO _).
      destruct (timelineBlocks_populated _ (swept_populated first sorted Hs))
        as (blocks & Eb & _).
      exists (swept first sorted), blocks.
      split; [now apply mergedBlocks_swept | exact Eb]. }
    eexists. now apply laytimeEvents_allocated.
  - intros Hnt.
    apply (enrichedData_untimed (Extracted.mk vesselName details events));
      [|exact Hnt].
    cbn [Extracted.events]. intros E. apply Hnt. rewrite E. constructor.
  - intros E.
    now apply (enrichedData_null (Extracted.mk vesselName details events)).
  - reflexivity.
Qed.

Lemma pipeline_raises_only_on_unreadable_times_witness :
  allTimed (validEvents [loading; norTendered; shifting; inspection])
  /\ validEvents [loading; norTendered; shifting; inspection]
     = [loading; shifting; inspection]
  /\ exists result,
       enrichedData
         (Some (statement [loading; norTendered; shifting; inspection]))
       = Ok result.
Proof.
  assert (Hv : allTimed
                 (validEvents [loading; norTendered; shifting; inspection]))
    by (repeat constructor).
  split; [exact Hv|]. split; [reflexivity|].
  exact (proj1 (proj1 (pipeline_raises_only_on_unreadable_times
                         "MV Sample" []
                         [loading; norTendered; shifting; inspection])
                  Hv)).
Defined.

(** The claim as the specification states it fails: an event whose two
    time fields are non-empty strings is kept by the filter, and when
    [parseISO] does not read its start the exception of [format] leaves
    the pipeline; on the empty list the pipeline returns [null] before
    any stage runs. *)
Lemma unreadable_time_propagates :
  truthy (Event.startTime mistimed) = true
  /\ truthy (Event.endTime mistimed) = true
  /\ validEvents [mistimed] = [mistimed]
  /\ enrichedData (Some (statement [mistimed])) = Throw RangeError
  /\ enrichedData (Some (statement [])) = Ok None.
Proof. repeat split. Qed.

(** ** Timeline merger *)

(** C2: in the sweep, an event is appended to the current block exactly
    when its start is strictly before the latest end among the members of
    the block, and that latest end then becomes the larger of itself and
    the end of the event; otherwise the current block is closed and a new
    block is opened on the event.  The events 09:00-11:00 and 10:00-12:00
    give one block of two members spanning 09:00-12:00. *)
Theorem sweep_merges_on_strict_overlap (firstEventTime : Date)
  (cur : TimelineBlock.t) (merged : list TimelineBlock.t) (e : Event.t) :
  populated cur -> timed e = true ->
  (exists blockEndTime next,
     blockEnd cur = Some blockEndTime
     /\ sweepStep firstEventTime (Some cur, merged) e = Ok next
     /\ (snd next = merged <-> lo e < blockEndTime)
     /\ (lo e < blockEndTime ->
         exists b, next = (Some b, merged)
           /\ TimelineBlock.subEvents b = TimelineBlock.subEvents cur ++ [e]
           /\ blockEnd b = Some (Z.max blockEndTime (hi e)))
     /\ (blockEndTime <= lo e ->
         exists b, next = (Some b, merged ++ [cur])
           /\ TimelineBlock.subEvents b = [e]))
  /\ (exists d b,
        enrichedData (Some (statement [loading; rain])) = Ok (Some d)
        /\ Enriched.timelineBlocks d = [b]
        /\ TimelineBlock.subEvents b = [loading; rain]
        /\ blockStart b = Some (clock 9 0)
        /\ blockEnd b = Some (clock 12 0)
        /\ TimelineBlock.startTime b = Formatted "MMM d, HH:mm" (clock 9 0)
        /\ TimelineBlock.endTime b = Formatted "HH:mm" (clock 12 0)
        /\ TimelineBlock.duration b = "3h").
Proof.
  intros Hcur He. split.
  - exists (latest (TimelineBlock.subEvents cur)).
    pose proof Hcur as [Hne Hg].
    destruct (Z_lt_le_dec (lo e) (latest (TimelineBlock.subEvents cur)))
      as [Hlt|Hge].
    + exists (Some (grown firstEventTime cur e), merged).
      split; [now apply max_endDates|].
      split; [now apply sweepStep_merge|].
      split; [simpl; tauto|].
      split; [|lia]. intros _.
      exists (grown firstEventTime cur e). split; [reflexivity|].
      split; [reflexivity|].
      unfold blockEnd. cbn [grown TimelineBlock.subEvents].
      rewrite max_endDates
        by (apply not_nil_snoc || now apply allTimed_snoc).
      now rewrite latest_snoc.
    + exists (Some (opened firstEventTime e), merged ++ [cur]).
      split; [now apply max_endDates|].
      split; [now apply sweepStep_open|].
      split.
      { simpl. split; [|lia]. intros Heq.
        apply (f_equal (@List.length _)) in Heq.
        rewrite length_app in Heq. simpl in Heq. lia. }
      split; [lia|]. intros _.
      exists (opened firstEventTime e). now split.
  - eexists _, _. split; [vm_compute; reflexivity|].
    repeat split.
Qed.

Lemma sweep_merges_on_strict_overlap_witness :
  populated (opened (Some (clock 9 0)) loading)
  /\ timed rain = true
  /\ exists blockEndTime next,
       blockEnd (opened (Some (clock 9 0)) loading) = Some blockEndTime
       /\ sweepStep (Some (clock 9 0))
            (Some (opened (Some (clock 9 0)) loading), []) rain = Ok next
       /\ lo rain < blockEndTime
       /\ snd next = [].
Proof.
  assert (Hp : populated (opened (Some (clock 9 0)) loading)).
  { split; [discriminate | repeat constructor]. }
  split; [exact Hp|]. split; [reflexivity|].
  destruct (sweep_merges_on_strict_overlap (Some (clock 9 0))
              (opened (Some (clock 9 0)) loading) [] rain Hp eq_refl)
    as [(t & next & Ht & Hstep & Hiff & _) _].
  exists t, next. split; [exact Ht|]. split; [exact Hstep|].
  assert (Hlt : lo rain < t).
  { vm_compute in Ht. injection Ht as <-. reflexivity. }
  split; [exact Hlt | now apply Hiff].
Defined.

(** The sweep the dashboard component carries merges events that merely
    touch, where the sweep of the pipeline keeps them apart. *)
Lemma dashboard_merges_touching_events :
  (exists b, Dashboard.mergedBlocks (Some (clock 9 0)) [berthing; rain]
             = Ok [b]
             /\ Dashboard.subEvents b = [berthing; rain])
  /\ (exists b1 b2, mergedBlocks (Some (clock 9 0)) [berthing; rain]
                    = Ok [b1; b2]
                    /\ TimelineBlock.subEvents b1 = [berthing]
                    /\ TimelineBlock.subEvents b2 = [rain]).
Proof.
  split.
  - eexists. split; [vm_compute; reflexivity | reflexivity].
  - eexists _, _. split; [vm_compute; reflexivity|]. split; reflexivity.
Qed.

(** ** The invariant of the merger *)

Lemma inEvents_app (a b : list Event.t) (x : Z) :
  inEvents (a ++ b) x <-> inEvents a x \/ inEvents b x.
Proof.
  unfold inEvents. split.
  - intros (e & Hin & He). apply in_app_or in Hin.
    destruct Hin; [left | right]; now exists e.
  - intros [(e & Hin & He) | (e & Hin & He)]; exists e;
      (split; [apply in_or_app; auto | assumption]).
Qed.

Lemma inEvents_bounds (g : list Event.t) (x : Z) :
  inEvents g x -> earliest g <= x <= latest g.
Proof.
  intros (e & Hin & _ & Hx).
  pose proof (earliest_bound g e Hin). pose proof (latest_bound g e Hin).
  lia.
Qed.

Lemma connected_single (e : Event.t) : proper e -> connected [e].
Proof.
  intros [He Hle]. unfold connected. simpl.
  split; [discriminate|]. split; [now repeat constructor|].
  split; [assumption|]. intros x Hx. exists e. split; [now left|].
  now split.
Qed.

Lemma connected_grow (g : list Event.t) (e : Event.t) :
  connected g -> proper e -> earliest g <= lo e -> lo e < latest g ->
  connected (g ++ [e])
  /\ earliest (g ++ [e]) = earliest g
  /\ latest (g ++ [e]) = Z.max (latest g) (hi e).
Proof.
  intros (Hne & Hg & Hle & Hcov) [He Hp] Hlo Hlt.
  assert (Ee : earliest (g ++ [e]) = earliest g)
    by (rewrite earliest_snoc by assumption; lia).
  assert (El : latest (g ++ [e]) = Z.max (latest g) (hi e))
    by now apply latest_snoc.
  split; [|now split]. unfold connected. rewrite Ee, El.
  split; [apply not_nil_snoc|]. split; [now apply allTimed_snoc|].
  split; [lia|]. intros x Hx. apply inEvents_app.
  destruct (Z_le_gt_dec x (latest g)).
  - left. apply Hcov. lia.
  - right. exists e. split; [now left|]. split; [assumption | lia].
Qed.

Lemma sweepFrom_groups (first : Date) (l : list Event.t) :
  Forall proper l -> StronglySorted startsLe l ->
  forall cur,
  connected (TimelineBlock.subEvents cur) ->
  Forall (fun e => earliest (TimelineBlock.subEvents cur) <= lo e) l ->
  let gs := members (sweepFrom first cur [] l) in
  StronglySorted groupEndsBefore gs
  /\ Forall (fun g => earliest (TimelineBlock.subEvents cur) <= earliest g
                      /\ earliest g <= latest g) gs
  /\ forall x, inGroups gs x
               <-> inEvents (TimelineBlock.subEvents cur ++ l) x.
Proof.
  intros Hp Hs. induction Hs as [|e r Hsr IH Hhd]; intros cur Hc Hlow.
  - cbn [sweepFrom members map List.app]. rewrite app_nil_r.
    destruct Hc as (Hne & Hg & Hle & Hcov).
    split; [repeat constructor|].
    split; [constructor; [lia | constructor]|].
    intros x. split.
    + intros (g & [<-|[]] & Hx). now apply Hcov.
    + intros Hx. exists (TimelineBlock.subEvents cur).
      split; [now left | now apply inEvents_bounds].
  - inversion Hp as [|? ? He Hpr]; subst.
    inversion Hlow as [|? ? Hlo Hlowr]; subst.
    cbn [sweepFrom].
    destruct (Z.ltb_spec (lo e) (latest (TimelineBlock.subEvents cur)))
      as [Hlt|Hge].
    + destruct (connected_grow _ e Hc He Hlo Hlt) as (Hc' & Ee & El).
      specialize (IH Hpr (grown first cur e)).
      cbn [grown TimelineBlock.subEvents] in IH.
      rewrite Ee in IH. specialize (IH Hc' Hlowr).
      destruct IH as (H1 & H2 & H3).
      split; [exact H1|]. split; [exact H2|].
      intros x. rewrite H3, <- app_assoc. reflexivity.
    + rewrite sweepFrom_merged.
      pose proof (connected_single e He) as Hce.
      specialize (IH Hpr (opened first e)).
      cbn [opened TimelineBlock.subEvents] in IH.
      specialize (IH Hce).
      assert (Hlowe : Forall (fun e' => earliest [e] <= lo e') r).
      { eapply Forall_impl; [|exact Hhd]. intros e' H. exact H. }
      specialize (IH Hlowe). destruct IH as (H1 & H2 & H3).
      destruct Hc as (Hne & Hg & Hle & Hcov).
      unfold members in *. cbn [List.app map].
      split.
      { constructor; [exact H1|].
        eapply Forall_impl; [|exact H2].
        intros g [Hg1 _]. unfold groupEndsBefore. simpl in Hg1. lia. }
      split.
      { constructor; [lia|].
        eapply Forall_impl; [|exact H2].
        intros g [Hg1 Hg2]. simpl in Hg1. lia. }
      intros x. rewrite inEvents_app. rewrite <- (H3 x). split.
      * intros (g & [<-|Hin] & Hx); [left; now apply Hcov|].
        right. now exists g.
      * intros [Hx | (g & Hin & Hx)].
        -- exists (TimelineBlock.subEvents cur).
           split; [now left | now apply inEvents_bounds].
        -- exists g. split; [now right | assumption].
Qed.

Section SortedLists.

Context {A B : Type}.

Lemma StronglySorted_map (f : A -> B) (R : B -> B -> Prop) (l : list A) :
  StronglySorted R (map f l) ->
  StronglySorted (fun a b => R (f a) (f b)) l.
Proof.
  induction l as [|a r IH]; simpl; intros H; [constructor|].
  inversion H as [|? ? Hr Ha]; subst. constructor; [now apply IH|].
  exact (proj1 (Forall_map f (R (f a)) r) Ha).
Qed.

Lemma StronglySorted_weaken (Q : A -> Prop) (R R' : A -> A -> Prop)
  (l : list A) :
  (forall a b, Q a -> Q b -> R a b -> R' a b) ->
  Forall Q l -> StronglySorted R l -> StronglySorted R' l.
Proof.
  intros Himp HQ HR. induction HR as [|a r Hr IH Ha]; [constructor|].
  inversion HQ as [|? ? Hqa Hqr]; subst. constructor; [now apply IH|].
  rewrite Forall_forall in *. intros b Hb. apply Himp; auto.
Qed.

Lemma StronglySorted_nth (R : A -> A -> Prop) (l : list A) :
  StronglySorted R l ->
  forall i j a b, (i < j)%nat ->
  nth_error l i = Some a -> nth_error l j = Some b -> R a b.
Proof.
  induction 1 as [|x r Hr IH Hx]; intros i j a b Hij Hi Hj.
  - destruct i; discriminate.
  - destruct j as [|j]; [lia|]. simpl in Hj. destruct i as [|i].
    + injection Hi as <-. rewrite Forall_forall in Hx. apply Hx.
      eapply nth_error_In. exact Hj.
    + simpl in Hi. apply (IH i j); auto. lia.
Qed.

End SortedLists.

Lemma populated_members (bs bs' : list TimelineBlock.t) :
  members bs' = members bs -> Forall populated bs -> Forall populated bs'.
Proof.
  revert bs. induction bs' as [|b' r' IH]; intros bs E H; [constructor|].
  destruct bs as [|b r]; [discriminate|].
  injection E as Eb Er. inversion H; subst.
  constructor; [|now apply (IH r)].
  unfold populated in *. now rewrite Eb.
Qed.

Lemma populated_span (b : TimelineBlock.t) :
  populated b ->
  blockStart b = Some (earliest (TimelineBlock.subEvents b))
  /\ blockEnd b = Some (latest (TimelineBlock.subEvents b)).
Proof.
  intros [Hne Hg]. unfold blockStart, blockEnd.
  now rewrite min_startDates, max_endDates.
Qed.

Lemma inBlocks_groups (bs : list TimelineBlock.t) (x : Z) :
  Forall populated bs -> (inBlocks bs x <-> inGroups (members bs) x).
Proof.
  intros Hp. rewrite Forall_forall in Hp.
  unfold inBlocks, inGroups, inSpan, members. split.
  - intros (b & Hin & s & t & Hs & Ht & Hx).
    destruct (populated_span b (Hp b Hin)) as [Es Et].
    unfold blockStart, blockEnd in *. rewrite Es in Hs. rewrite Et in Ht.
    injection Hs as <-. injection Ht as <-.
    exists (TimelineBlock.subEvents b). split; [now apply in_map | assumption].
  - intros (g & Hin & Hx). apply in_map_iff in Hin.
    destruct Hin as (b & <- & Hin).
    destruct (populated_span b (Hp b Hin)) as [Es Et].
    exists b. split; [assumption|]. eexists _, _.
    split; [exact Es|]. split; [exact Et | assumption].
Qed.

(** The members of the swept blocks do not depend on the reference
    instant of the chart. *)
Lemma sweepFrom_reference (first first' : Date) (l : list Event.t) :
  forall cur cur',
  TimelineBlock.subEvents cur = TimelineBlock.subEvents cur' ->
  members (sweepFrom first cur [] l) = members (sweepFrom first' cur' [] l).
Proof.
  induction l as [|e r IH]; intros cur cur' E; cbn [sweepFrom].
  - unfold members. simpl. now rewrite E.
  - rewrite <- E.
    destruct (lo e <? latest (TimelineBlock.subEvents cur)).
    + apply IH. simpl. now rewrite E.
    + rewrite (sweepFrom_merged first), (sweepFrom_merged first').
      unfold members in *. rewrite !map_app. simpl. rewrite E.
      f_equal. now apply IH.
Qed.

Lemma swept_reference (first first' : Date) (l : list Event.t) :
  members (swept first l) = members (swept first' l).
Proof.
  destruct l as [|e r]; [reflexivity|]. now apply sweepFrom_reference.
Qed.

(** C3: on a normalized sequence (every event has both instants with
    [end >= start], sorted by [start]) the merger returns blocks such that
    any block ends no later than any later block starts, in particular the
    next one; the blocks are in ascending order of their starts; and the
    instants covered by the blocks are exactly the instants covered by the
    events.  The members of the blocks are the events, in order, and the
    pipeline reaches these blocks on such a sequence. *)
Theorem merger_blocks_are_disjoint_and_cover (firstEventTime : Date)
  (l : list Event.t) :
  normalized l ->
  exists merged blocks,
    mergedBlocks firstEventTime l = Ok merged
    /\ timelineBlocks merged = Ok blocks
    /\ (forall i j bi bj, (i < j)%nat ->
        nth_error blocks i = Some bi -> nth_error blocks j = Some bj ->
        endsBefore bi bj /\ startsBefore bi bj)
    /\ (forall i bi bj,
        nth_error blocks i = Some bi -> nth_error blocks (S i) = Some bj ->
        endsBefore bi bj)
    /\ (forall x, inBlocks blocks x <-> inEvents l x)
    /\ List.concat (members blocks) = l
    /\ sortedEvents (validEvents l) = l
    /\ (forall data, Extracted.events data = l -> l <> [] ->
        exists d, enrichedData (Some data) = Ok (Some d)
                  /\ members (Enriched.timelineBlocks d) = members blocks).
Proof.
  intros [Hp Hs].
  assert (Ht : allTimed l).
  { eapply Forall_impl; [|exact Hp]. now intros e [He _]. }
  pose proof (swept_populated firstEventTime l Ht) as Hpop.
  destruct (timelineBlocks_populated _ Hpop) as (blocks & Eb & Em).
  fold (members blocks) in Em. fold (members (swept firstEventTime l)) in Em.
  pose proof (populated_members _ _ Em Hpop) as Hpop'.
  exists (swept firstEventTime l), blocks.
  split; [now apply mergedBlocks_swept|]. split; [exact Eb|].
  assert (Hinv :
    StronglySorted groupEndsBefore (members blocks)
    /\ Forall (fun g => earliest g <= latest g) (members blocks)
    /\ forall x, inGroups (members blocks) x <-> inEvents l x).
  { rewrite Em. destruct l as [|e r].
    - simpl. split; [constructor|]. split; [constructor|].
      intros x. split; [intros (g & [] & _) | intros (e & [] & _)].
    - inversion Hp as [|? ? He Hpr]; subst.
      apply Sorted_StronglySorted in Hs; [|exact startsLe_trans].
      inversion Hs as [|? ? Hsr Hhd]; subst.
      destruct (sweepFrom_groups firstEventTime r Hpr Hsr
                  (opened firstEventTime e) (connected_single e He))
        as (H1 & H2 & H3).
      { eapply Forall_impl; [|exact Hhd]. intros e' H. exact H. }
      split; [exact H1|]. split; [|exact H3].
      eapply Forall_impl; [|exact H2]. now intros g [_ H]. }
  destruct Hinv as (H1 & H2 & H3).
  assert (Hends : StronglySorted endsBefore blocks).
  { apply StronglySorted_map in H1.
    eapply StronglySorted_weaken; [|exact Hpop'|exact H1].
    intros a b Ha Hb Hab.
    destruct (populated_span a Ha) as [_ Ea].
    destruct (populated_span b Hb) as [Eb' _].
    eexists _, _. split; [exact Ea|]. split; [exact Eb' | exact Hab]. }
  assert (Hstarts : StronglySorted startsBefore blocks).
  { apply StronglySorted_map in H1.
    assert (Hq : Forall (fun b => populated b
                   /\ earliest (TimelineBlock.subEvents b)
                      <= latest (TimelineBlock.subEvents b)) blocks).
    { pose proof (proj1 (Forall_map TimelineBlock.subEvents
                           (fun g => earliest g <= latest g) blocks) H2)
        as H2'.
      rewrite Forall_forall in *. intros b Hb. split; auto. }
    eapply StronglySorted_weaken; [|exact Hq|exact H1].
    intros a b [Ha Hla] [Hb _] Hab. unfold groupEndsBefore in Hab.
    destruct (populated_span a Ha) as [Ea _].
    destruct (populated_span b Hb) as [Eb' _].
    eexists _, _. split; [exact Ea|]. split; [exact Eb' | lia]. }
  split.
  { intros i j bi bj Hij Hi Hj. split.
    - exact (StronglySorted_nth endsBefore blocks Hends i j bi bj Hij Hi Hj).
    - exact (StronglySorted_nth startsBefore blocks Hstarts i j bi bj Hij Hi
               Hj). }
  split.
  { intros i bi bj Hi Hj.
    exact (StronglySorted_nth endsBefore blocks Hends i (S i) bi bj
             (Nat.lt_succ_diag_r i) Hi Hj). }
  split.
  { intros x. rewrite inBlocks_groups by assumption. apply H3. }
  split.
  { rewrite Em. apply swept_members. }
  assert (Hv : validEvents l = l) by now apply validEvents_fixed.
  assert (Hfix : sortedEvents (validEvents l) = l)
    by (rewrite Hv; now apply sortedEvents_fixed).
  split; [exact Hfix|].
  intros data Ed Hne.
  destruct (enrichedData_some data) as
    (first & rest & blocks' & summary & Es & _ & Em' & Ee).
  { now rewrite Ed, Hv. }
  { now rewrite Ed, Hv. }
  rewrite Ed, Hfix in Es. exists (Enriched.mk data blocks'
    (laytimeCalculation (validEvents (Extracted.events data))) summary).
  split; [exact Ee|]. cbn [Enriched.timelineBlocks].
  fold (members blocks') in Em'.
  fold (members (swept (Some (lo first)) (first :: rest))) in Em'.
  rewrite Em', Em, <- Es. apply swept_reference.
Qed.

Lemma merger_blocks_are_disjoint_and_cover_witness :
  normalized [berthing; loading; rain; sailing]
  /\ exists merged blocks,
       mergedBlocks (Some (clock 9 0)) [berthing; loading; rain; sailing]
       = Ok merged
       /\ timelineBlocks merged = Ok blocks
       /\ members blocks = [[berthing; loading; rain]; [sailing]]
       /\ (forall x, inBlocks blocks x
                     <-> inEvents [berthing; loading; rain; sailing] x).
Proof.
  assert (Hn : normalized [berthing; loading; rain; sailing]).
  { split.
    - repeat constructor; vm_compute; discriminate.
    - repeat constructor; vm_compute; discriminate. }
  split; [exact Hn|].
  destruct (merger_blocks_are_disjoint_and_cover (Some (clock 9 0))
              [berthing; loading; rain; sailing] Hn)
    as (merged & blocks & Em & Eb & _ & _ & Hcov & _).
  exists merged, blocks. split; [exact Em|]. split; [exact Eb|].
  split; [|exact Hcov].
  vm_compute in Em. injection Em as <-.
  vm_compute in Eb. injection Eb as <-.
  reflexivity.
Defined.

(** * Further properties of the code *)

(** ** The outcomes of the pipeline *)

(** X1: the pipeline has three outcomes.  It returns [null] exactly when no
    event has both time fields present; it raises a [RangeError] exactly
    when an event with both fields present has one that [parseISO] does
    not read; it returns enriched data in every other case, and never
    raises a [TypeError]. *)
Theorem enrichedData_outcomes (data : Extracted.t) :
  let valid := validEvents (Extracted.events data) in
  (enrichedData (Some data) = Ok None <-> valid = [])
  /\ ((exists d, enrichedData (Some data) = Ok (Some d))
      <-> valid <> [] /\ allTimed valid)
  /\ (enrichedData (Some data) = Throw RangeError
      <-> valid <> [] /\ ~ allTimed valid)
  /\ enrichedData (Some data) <> Throw TypeError.
Proof.
  cbv zeta.
  destruct (validEvents (Extracted.events data)) as [|v vs] eqn:Ev.
  - pose proof (enrichedData_null data Ev) as E. rewrite E.
    split; [tauto|]. split; [|split].
    + split; [intros (d & Hd); discriminate | intros [H _]; congruence].
    + split; [discriminate | intros [H _]; congruence].
    + discriminate.
  - assert (Hne : v :: vs <> []) by discriminate.
    destruct (allTimed_dec (v :: vs)) as [Ht|Hnt].
    + destruct (enrichedData_some data) as
        (first & rest & blocks & summary & _ & _ & _ & Ed);
        [now rewrite Ev | now rewrite Ev |].
      rewrite Ev in Ed. rewrite Ed.
      split; [split; discriminate|]. split; [|split].
      * split; [auto | intros _; eexists; reflexivity].
      * split; [discriminate | intros [_ H]; contradiction].
      * discriminate.
    + rewrite (enrichedData_untimed data); [| now rewrite Ev | now rewrite Ev].
      split; [split; discriminate|]. split; [|split].
      * split; [intros (d & Hd); discriminate | intros [_ H]; contradiction].
      * split; auto.
      * discriminate.
Qed.

(** ** The sort *)

Lemma insert_startingAt (s : Z) (a : Event.t) (l : list Event.t) :
  timed a = true -> allTimed l ->
  startingAt s (insert a l) = startingAt s (a :: l).
Proof.
  intros Ha Hl. induction Hl as [|b r Hb Hr IH]; [reflexivity|].
  cbn [insert]. rewrite (compareFn_timed a b Ha Hb).
  destruct (Z.ltb_spec (lo b) (lo a)) as [Hlt|Hge]; [|reflexivity].
  unfold startingAt in *. cbn [filter]. rewrite IH. cbn [filter].
  destruct (Z.eqb_spec (lo a) s), (Z.eqb_spec (lo b) s);
    try reflexivity; lia.
Qed.

(** X2: the sort of the pipeline orders the events by start, keeps each
    of them, and is stable: the events that start at the same instant stay
    in the order of the input. *)
Theorem sortedEvents_is_a_stable_sort (l : list Event.t) :
  allTimed l ->
  Sorted startsLe (sortedEvents l)
  /\ Permutation (sortedEvents l) l
  /\ forall s, startingAt s (sortedEvents l) = startingAt s l.
Proof.
  intros Hl. split; [now apply sortedEvents_sorted|].
  split; [apply sortedEvents_perm|].
  intros s. induction Hl as [|a r Ha Hr IH]; [reflexivity|].
  cbn [sortedEvents fold_right].
  rewrite insert_startingAt by (auto; now apply sortedEvents_timed).
  unfold startingAt in *. cbn [filter]. fold (sortedEvents r).
  now rewrite IH.
Qed.

Lemma sortedEvents_is_a_stable_sort_witness :
  allTimed [rain; berthing; loading]
  /\ sortedEvents [rain; berthing; loading] = [berthing; loading; rain]
  /\ startingAt (clock 9 0) (sortedEvents [rain; berthing; loading])
     = [berthing; loading].
Proof.
  assert (Hl : allTimed [rain; berthing; loading])
    by (repeat constructor).
  split; [exact Hl|]. split; [reflexivity|].
  rewrite (proj2 (proj2 (sortedEvents_is_a_stable_sort _ Hl))).
  reflexivity.
Defined.

(** ** The blocks of the pipeline *)

Lemma enrichedData_blocks (data : Extracted.t) (d : Enriched.t) :
  enrichedData (Some data) = Ok (Some d) ->
  exists first rest,
    sortedEvents (validEvents (Extracted.events data)) = first :: rest
    /\ allTimed (first :: rest)
    /\ timelineBlocks (swept (Some (lo first)) (first :: rest))
       = Ok (Enriched.timelineBlocks d)
    /\ members (Enriched.timelineBlocks d)
       = members (swept (Some (lo first)) (first :: rest)).
Proof.
  intros H. destruct (enrichedData_inv data d H)
    as (_ & Ht & _ & _ & first & rest & Es & Eb).
  exists first, rest. split; [exact Es|].
  assert (Hs : allTimed (first :: rest)).
  { rewrite <- Es. now apply sortedEvents_timed. }
  split; [exact Hs|]. split; [exact Eb|].
  destruct (timelineBlocks_populated _
              (swept_populated (Some (lo first)) (first :: rest) Hs))
    as (blocks & Eb' & Em).
  rewrite Eb in Eb'. injection Eb' as <-. exact Em.
Qed.

(** X3: in the output of the pipeline no block is empty and the members
    of the blocks, read block after block, are the kept events in sorted
    order: every kept event belongs to exactly one block. *)
Theorem blocks_partition_the_events (data : Extracted.t) (d : Enriched.t) :
  enrichedData (Some data) = Ok (Some d) ->
  List.concat (members (Enriched.timelineBlocks d))
  = sortedEvents (validEvents (Extracted.events data))
  /\ Forall (fun b => TimelineBlock.subEvents b <> [])
            (Enriched.timelineBlocks d)
  /\ Enriched.timelineBlocks d <> [].
Proof.
  intros H. destruct (enrichedData_blocks data d H)
    as (first & rest & Es & Hs & Eb & Em).
  assert (Hc : List.concat (members (Enriched.timelineBlocks d))
               = first :: rest) by (rewrite Em; apply swept_members).
  split; [now rewrite Es|]. split.
  - pose proof (populated_members _ _ Em
                  (swept_populated (Some (lo first)) (first :: rest) Hs))
      as Hp.
    eapply Forall_impl; [|exact Hp]. now intros b [Hne _].
  - intros E. rewrite E in Hc. discriminate.
Qed.

Lemma blocks_partition_the_events_witness :
  exists d,
    enrichedData (Some (statement [sailing; rain; norTendered; loading]))
    = Ok (Some d)
    /\ List.concat (members (Enriched.timelineBlocks d))
       = [loading; rain; sailing].
Proof.
  eexists. split; [vm_compute; reflexivity|].
  match goal with
  | |- context [Enriched.timelineBlocks ?d] =>
      rewrite (proj1 (blocks_partition_the_events
                        (statement [sailing; rain; norTendered; loading])
                        d eq_refl))
  end.
  reflexivity.
Defined.

Lemma mapM_members {A B : Type} (f : A -> Exc B) (l : list A) (l' : list B) :
  mapM f l = Ok l' -> Forall2 (fun a b => f a = Ok b) l l'.
Proof.
  revert l'. induction l as [|a r IH]; intros l' H; simpl in H.
  - injection H as <-. constructor.
  - destruct (f a) as [b|] eqn:Ea; [|discriminate]. cbn [bind] in H.
    destruct (mapM f r) as [r'|] eqn:Er; [|discriminate]. cbn [bind] in H.
    injection H as <-. constructor; auto.
Qed.

Lemma finishBlock_fields (b b' : TimelineBlock.t) :
  populated b -> finishBlock b = Ok b' ->
  let g := TimelineBlock.subEvents b in
  TimelineBlock.subEvents b' = g
  /\ TimelineBlock.name b' = blockName g
  /\ TimelineBlock.category b'
     = Event.category (fold_left longer (tl g) (hd loading g))
  /\ TimelineBlock.duration b'
     = formatMinutesToDuration
         (num (Z.quot (latest g - earliest g) 60000))
  /\ TimelineBlock.time b' = TimelineBlock.time b
  /\ TimelineBlock.startTime b' = TimelineBlock.startTime b
  /\ TimelineBlock.endTime b' = TimelineBlock.endTime b.
Proof.
  intros [Hne Hg] H. cbv zeta. unfold finishBlock, blockStart, blockEnd in H.
  rewrite max_endDates, min_startDates in H by assumption.
  destruct (TimelineBlock.subEvents b) as [|e r] eqn:E; [contradiction|].
  rewrite at_index_head in H. cbn [reduce1 bind] in H.
  destruct r as [|e' r'].
  - cbn in H. injection H as <-. cbn. repeat split.
  - replace (1 <? Z.of_nat (List.length (e :: e' :: r'))) with true in H
      by (symmetry; apply Z.ltb_lt; cbn [List.length]; lia).
    cbn [bind] in H. injection H as <-. cbn. repeat split.
Qed.

Lemma finished_blocks (merged blocks : list TimelineBlock.t)
  (b' : TimelineBlock.t) :
  timelineBlocks merged = Ok blocks -> In b' blocks ->
  exists b, In b merged /\ finishBlock b = Ok b'.
Proof.
  intros H Hin. apply mapM_members in H.
  induction H as [|a c r r' Hac Hr IH]; [contradiction|].
  destruct Hin as [<-|Hin].
  - exists a. split; [now left | assumption].
  - destruct (IH Hin) as (b & Hb & E). exists b. split; [now right | exact E].
Qed.

(** *** The member a block takes its category from *)

Lemma longer_timed (a b : Event.t) :
  timed a = true -> timed b = true ->
  longer a b = if minutesOf a <? minutesOf b then b else a.
Proof.
  intros Ha Hb.
  destruct (timed_inv a Ha) as [Has Hat].
  destruct (timed_inv b Hb) as [Hbs Hbt].
  unfold longer, minutesOf, differenceInMinutes, differenceIn, parseISO,
    gt, cmp2.
  rewrite Has, Hat, Hbs, Hbt. cbn [truthy negb orb].
  now rewrite Z.gtb_ltb.
Qed.

Lemma fold_longer_timed (g : list Event.t) (x : Event.t) :
  allTimed (x :: g) -> timed (fold_left longer g x) = true.
Proof.
  revert x. induction g as [|e r IH]; intros x H.
  - now inversion H.
  - inversion H as [|? ? Hx Hr]; subst. inversion Hr as [|? ? He Hr']; subst.
    cbn [fold_left]. apply IH. constructor; [|assumption].
    rewrite longer_timed by assumption.
    now destruct (minutesOf x <? minutesOf e).
Qed.

Lemma fold_longer_first_longest (g : list Event.t) (x : Event.t) :
  allTimed (x :: g) ->
  exists pre post,
    x :: g = pre ++ fold_left longer g x :: post
    /\ Forall (fun e => minutesOf e < minutesOf (fold_left longer g x)) pre
    /\ Forall (fun e => minutesOf e <= minutesOf (fold_left longer g x)) post.
Proof.
  induction g as [|e r IH] using rev_ind; intros H.
  - exists [], []. repeat split; constructor.
  - assert (Hr : allTimed (x :: r)).
    { change (x :: r ++ [e]) with ((x :: r) ++ [e]) in H.
      now apply Forall_app in H. }
    assert (He : timed e = true).
    { change (x :: r ++ [e]) with ((x :: r) ++ [e]) in H.
      apply Forall_app in H. destruct H as [_ H]. now inversion H. }
    destruct (IH Hr) as (pre & post & E & Hpre & Hpost).
    rewrite fold_left_app. cbn [fold_left].
    rewrite longer_timed by (auto using fold_longer_timed).
    set (m := fold_left longer r x) in *.
    destruct (Z.ltb_spec (minutesOf m) (minutesOf e)) as [Hlt|Hge].
    + exists (x :: r), []. split; [reflexivity|]. split; [|constructor].
      rewrite E. apply Forall_app. split.
      * eapply Forall_impl; [|exact Hpre]. cbv beta. intros; lia.
      * constructor; [lia|].
        eapply Forall_impl; [|exact Hpost]. cbv beta. intros; lia.
    + exists pre, (post ++ [e]). split.
      * change (x :: r ++ [e]) with ((x :: r) ++ [e]). rewrite E.
        now rewrite <- app_assoc.
      * split; [assumption|]. apply Forall_app. split; [assumption|].
        constructor; [lia | constructor].
Qed.

(** X4: every block of the pipeline takes its category from its longest
    member, the first one among the members of that length: the members
    before it are strictly shorter and those after it are not longer. *)
Theorem block_category_is_of_first_longest_member (data : Extracted.t)
  (d : Enriched.t) (b : TimelineBlock.t) :
  enrichedData (Some data) = Ok (Some d) ->
  In b (Enriched.timelineBlocks d) ->
  exists pre m post,
    TimelineBlock.subEvents b = pre ++ m :: post
    /\ TimelineBlock.category b = Event.category m
    /\ Forall (fun e => minutesOf e < minutesOf m) pre
    /\ Forall (fun e => minutesOf e <= minutesOf m) post.
Proof.
  intros H Hin. destruct (enrichedData_blocks data d H)
    as (first & rest & _ & Hs & Eb & _).
  destruct (finished_blocks _ _ b Eb Hin) as (b0 & Hb0 & Ef).
  pose proof (swept_populated (Some (lo first)) (first :: rest) Hs) as Hp.
  rewrite Forall_forall in Hp. specialize (Hp b0 Hb0).
  destruct (finishBlock_fields b0 b Hp Ef) as (Eg & _ & Ec & _).
  destruct Hp as [Hne Hg].
  destruct (TimelineBlock.subEvents b0) as [|x g] eqn:E; [contradiction|].
  destruct (fold_longer_first_longest g x Hg) as (pre & post & Ed & H1 & H2).
  exists pre, (fold_left longer g x), post.
  rewrite Eg, Ec. cbn [hd tl]. auto.
Qed.

Lemma block_category_is_of_first_longest_member_witness :
  exists d b,
    enrichedData (Some (statement [berthing; loading; rain]))
    = Ok (Some d)
    /\ Enriched.timelineBlocks d = [b]
    /\ exists pre m post,
         TimelineBlock.subEvents b = pre ++ m :: post
         /\ TimelineBlock.category b = Event.category m
         /\ Forall (fun e => minutesOf e < minutesOf m) pre
         /\ Forall (fun e => minutesOf e <= minutesOf m) post.
Proof.
  eexists _, _. split; [vm_compute; reflexivity|].
  split; [reflexivity|].
  eapply (block_category_is_of_first_longest_member
            (statement [berthing; loading; rain])).
  - vm_compute. reflexivity.
  - left. reflexivity.
Defined.

(** X5: a block of the pipeline with a single member carries the label of
    that member as its name; a block with [n > 1] members is named
    "[n] Overlapping Events". *)
Theorem block_name_counts_members (data : Extracted.t) (d : Enriched.t)
  (b : TimelineBlock.t) :
  enrichedData (Some data) = Ok (Some d) ->
  In b (Enriched.timelineBlocks d) ->
  (forall e, TimelineBlock.subEvents b = [e] ->
             TimelineBlock.name b = Event.event e)
  /\ ((1 < List.length (TimelineBlock.subEvents b))%nat ->
      TimelineBlock.name b
      = (toString (num (Z.of_nat (List.length (TimelineBlock.subEvents b))))
         ++ " Overlapping Events")%string).
Proof.
  intros H Hin. destruct (enrichedData_blocks data d H)
    as (first & rest & _ & Hs & Eb & _).
  destruct (finished_blocks _ _ b Eb Hin) as (b0 & Hb0 & Ef).
  pose proof (swept_populated (Some (lo first)) (first :: rest) Hs) as Hp.
  rewrite Forall_forall in Hp. specialize (Hp b0 Hb0).
  destruct (finishBlock_fields b0 b Hp Ef) as (Eg & En & _).
  rewrite En, Eg. split.
  - intros e ->. reflexivity.
  - destruct (TimelineBlock.subEvents b0) as [|x [|y r]];
      cbn [List.length]; intros Hl; try lia. reflexivity.
Qed.

Lemma block_name_counts_members_witness :
  exists d b1 b2,
    enrichedData (Some (statement [berthing; loading; rain; sailing]))
    = Ok (Some d)
    /\ Enriched.timelineBlocks d = [b1; b2]
    /\ TimelineBlock.name b1 = "3 Overlapping Events"
    /\ TimelineBlock.name b2 = "Sailing".
Proof.
  eexists _, _, _. split; [vm_compute; reflexivity|].
  split; [reflexivity|].
  split.
  - match goal with
    | |- TimelineBlock.name ?b = _ =>
        rewrite (proj2 (block_name_counts_members
                          (statement [berthing; loading; rain; sailing])
                          _ b eq_refl (or_introl eq_refl)))
    end; [reflexivity | cbn; lia].
  - match goal with
    | |- TimelineBlock.name ?b = _ =>
        rewrite (proj1 (block_name_counts_members
                          (statement [berthing; loading; rain; sailing])
                          _ b eq_refl (or_intror (or_introl eq_refl)))
                   sailing eq_refl)
    end. reflexivity.
Defined.

(** *** The fields of a block and its span *)

Lemma latest_attained (g : list Event.t) :
  g <> [] -> exists e, In e g /\ hi e = latest g.
Proof.
  induction g as [|a r IH] using rev_ind; [contradiction|]. intros _.
  destruct r as [|b r'].
  - exists a. split; [now left | reflexivity].
  - rewrite latest_snoc by discriminate.
    destruct (Z.max_spec (latest (b :: r')) (hi a)) as [[_ ->] | [_ ->]].
    + exists a. split; [apply in_or_app; right; now left | reflexivity].
    + destruct IH as (e & He & E); [discriminate|].
      exists e. split; [apply in_or_app; now left | exact E].
Qed.

Lemma earliest_attained (g : list Event.t) :
  g <> [] -> exists e, In e g /\ lo e = earliest g.
Proof.
  induction g as [|a r IH] using rev_ind; [contradiction|]. intros _.
  destruct r as [|b r'].
  - exists a. split; [now left | reflexivity].
  - rewrite earliest_snoc by discriminate.
    destruct (Z.min_spec (earliest (b :: r')) (lo a)) as [[_ ->] | [_ ->]].
    + destruct IH as (e & He & E); [discriminate|].
      exists e. split; [apply in_or_app; now left | exact E].
    + exists a. split; [apply in_or_app; right; now left | reflexivity].
Qed.

Lemma earliest_head (g : list Event.t) :
  g <> [] -> Forall (fun e => headStart g <= lo e) g ->
  earliest g = headStart g.
Proof.
  intros Hne Hh. destruct (earliest_attained g Hne) as (e & He & E).
  rewrite Forall_forall in Hh. specialize (Hh e He).
  destruct g as [|a r]; [contradiction|].
  pose proof (earliest_bound (a :: r) a (or_introl eq_refl)).
  cbn [headStart] in *. lia.
Qed.

Lemma headStart_snoc (g : list Event.t) (e : Event.t) :
  g <> [] -> headStart (g ++ [e]) = headStart g.
Proof. destruct g; [contradiction | reflexivity]. Qed.

Lemma stamped_grown (first : Date) (cur : TimelineBlock.t) (e : Event.t) :
  TimelineBlock.subEvents cur <> [] ->
  stamped first cur -> stamped first (grown first cur e).
Proof.
  intros Hne (_ & Hs & _). unfold stamped.
  cbn [grown TimelineBlock.subEvents TimelineBlock.endTime
       TimelineBlock.startTime TimelineBlock.time].
  rewrite latest_snoc, earliest_snoc, headStart_snoc by assumption.
  auto.
Qed.

Lemma sweepFrom_stamped (first : Date) (l : list Event.t) :
  forall cur,
  TimelineBlock.subEvents cur <> [] -> stamped first cur ->
  Forall (stamped first) (sweepFrom first cur [] l).
Proof.
  induction l as [|e r IH]; intros cur Hne Hc; cbn [sweepFrom].
  - constructor; [assumption | constructor].
  - destruct (lo e <? latest (TimelineBlock.subEvents cur)).
    + apply IH; [apply not_nil_snoc | now apply stamped_grown].
    + rewrite sweepFrom_merged. constructor; [assumption|].
      apply IH; [discriminate | now repeat split].
Qed.

Lemma sweepFrom_headed (first : Date) (l : list Event.t) :
  StronglySorted startsLe l ->
  forall cur,
  TimelineBlock.subEvents cur <> [] ->
  Forall (fun e => headStart (TimelineBlock.subEvents cur) <= lo e)
         (TimelineBlock.subEvents cur ++ l) ->
  Forall (fun b => Forall (fun e => headStart (TimelineBlock.subEvents b)
                                   <= lo e)
                          (TimelineBlock.subEvents b))
         (sweepFrom first cur [] l).
Proof.
  induction 1 as [|e r Hr IH He]; intros cur Hne Hh; cbn [sweepFrom].
  - rewrite app_nil_r in Hh. constructor; [assumption | constructor].
  - destruct (lo e <? latest (TimelineBlock.subEvents cur)).
    + apply IH; [apply not_nil_snoc|].
      cbn [grown TimelineBlock.subEvents].
      rewrite headStart_snoc, <- app_assoc by assumption. exact Hh.
    + rewrite sweepFrom_merged. apply Forall_app in Hh.
      destruct Hh as [Hg _]. constructor; [assumption|].
      apply IH; [discriminate|].
      cbn [opened TimelineBlock.subEvents headStart List.app].
      constructor; [lia|]. exact He.
Qed.

(** X6: for every block of the pipeline, the texts and numbers it carries
    agree with the span of its members: its start text renders the
    earliest start, its end text the latest end, its duration the whole
    minutes between the two, and its pair of hours the whole hours from
    the first kept event to these two instants.  The earliest start and
    the latest end are instants of members of the block. *)
Theorem block_fields_agree_with_span (data : Extracted.t) (d : Enriched.t)
  (b : TimelineBlock.t) :
  enrichedData (Some data) = Ok (Some d) ->
  In b (Enriched.timelineBlocks d) ->
  let g := TimelineBlock.subEvents b in
  exists first rest,
    sortedEvents (validEvents (Extracted.events data)) = first :: rest
    /\ TimelineBlock.startTime b = Formatted "MMM d, HH:mm" (earliest g)
    /\ TimelineBlock.endTime b = Formatted "HH:mm" (latest g)
    /\ TimelineBlock.duration b
       = formatMinutesToDuration
           (num (Z.quot (latest g - earliest g) 60000))
    /\ TimelineBlock.time b
       = (num (Z.quot (earliest g - lo first) 3600000),
          num (Z.quot (latest g - lo first) 3600000))
    /\ lo first <= earliest g
    /\ (exists e, In e g /\ lo e = earliest g)
    /\ (exists e, In e g /\ hi e = latest g).
Proof.
  intros H Hin. cbv zeta. destruct (enrichedData_blocks data d H)
    as (first & rest & Es & Hs & Eb & _).
  destruct (finished_blocks _ _ b Eb Hin) as (b0 & Hb0 & Ef).
  pose proof (swept_populated (Some (lo first)) (first :: rest) Hs) as Hp.
  rewrite Forall_forall in Hp. specialize (Hp b0 Hb0).
  destruct (finishBlock_fields b0 b Hp Ef)
    as (Eg & _ & _ & Edur & Etime & Estart & Eend).
  assert (Hsorted : StronglySorted startsLe (first :: rest)).
  { rewrite <- Es. apply Sorted_StronglySorted; [exact startsLe_trans|].
    apply sortedEvents_sorted.
    destruct (enrichedData_inv data d H) as (_ & Ht & _). exact Ht. }
  inversion Hsorted as [|? ? Hrest Hfirst]; subst.
  assert (Hst : stamped (Some (lo first)) b0).
  { pose proof (sweepFrom_stamped (Some (lo first)) rest
                  (opened (Some (lo first)) first)) as Hall.
    rewrite Forall_forall in Hall. apply Hall; auto; [discriminate|].
    now repeat split. }
  assert (Hhd : Forall (fun e => headStart (TimelineBlock.subEvents b0)
                                 <= lo e) (TimelineBlock.subEvents b0)).
  { assert (Hall : Forall (fun b => Forall
                       (fun e => headStart (TimelineBlock.subEvents b)
                                 <= lo e) (TimelineBlock.subEvents b))
                     (swept (Some (lo first)) (first :: rest))).
    { apply sweepFrom_headed; [assumption | discriminate|].
      cbn [opened TimelineBlock.subEvents headStart List.app].
      constructor; [lia | exact Hfirst]. }
    rewrite Forall_forall in Hall. now apply Hall. }
  destruct Hp as [Hne Hg].
  pose proof (earliest_head _ Hne Hhd) as Ehead.
  destruct Hst as (Send & Sstart & Stime).
  exists first, rest. rewrite Eg, Edur, Etime, Estart, Eend.
  rewrite Sstart, Send, Stime, Ehead.
  split; [exact Es|]. split; [reflexivity|]. split; [reflexivity|].
  split; [reflexivity|]. split; [reflexivity|].
  split; [|split].
  - rewrite <- Ehead.
    assert (Hin0 : forall e, In e (TimelineBlock.subEvents b0) ->
                             lo first <= lo e).
    { intros e He.
      assert (Hc : In e (first :: rest)).
      { rewrite <- (swept_members (Some (lo first)) (first :: rest)).
        apply in_concat. exists (TimelineBlock.subEvents b0).
        split; [now apply in_map | assumption]. }
      destruct Hc as [<-|Hc]; [lia|].
      rewrite Forall_forall in Hfirst. now apply Hfirst. }
    destruct (earliest_attained _ Hne) as (e & He & <-). now apply Hin0.
  - rewrite <- Ehead. now apply earliest_attained.
  - now apply latest_attained.
Qed.

Lemma block_fields_agree_with_span_witness :
  exists d b,
    enrichedData (Some (statement [sailing; loading; rain])) = Ok (Some d)
    /\ nth_error (Enriched.timelineBlocks d) 1 = Some b
    /\ TimelineBlock.subEvents b = [sailing]
    /\ TimelineBlock.time b = (num 5, num 6)
    /\ TimelineBlock.duration b = "1h".
Proof.
  eexists _, _. split; [vm_compute; reflexivity|].
  split; [reflexivity|]. split; [reflexivity|].
  match goal with
  | |- TimelineBlock.time ?b = _ /\ _ =>
      destruct (block_fields_agree_with_span
                  (statement [sailing; loading; rain]) _ b eq_refl
                  (or_intror (or_introl eq_refl)))
        as (first & rest & Es & _ & _ & Ed & Et & _)
  end.
  vm_compute in Es. injection Es as <- <-.
  split; [exact Et | exact Ed].
Defined.

(** ** The summary of the events *)

Lemma at_index_last_eq {A : Type} (l : list A) (x0 : A) :
  l <> [] ->
  at_index l (Z.of_nat (List.length l) - 1) = Ok (List.last l x0).
Proof.
  intros Hne. destruct (exists_last Hne) as (l' & a & ->).
  rewrite last_last. unfold at_index. rewrite length_app. cbn [List.length].
  replace (Z.of_nat (List.length l' + 1) - 1 <? 0) with false
    by (symmetry; apply Z.ltb_ge; lia).
  replace (Z.to_nat (Z.of_nat (List.length l' + 1) - 1))
    with (List.length l') by lia.
  rewrite nth_error_app2 by lia. now rewrite Nat.sub_diag.
Qed.

Lemma cargo_fold (l : list Event.t) :
  allTimed l ->
  forall acc,
  fold_left
    (fun acc e =>
       add acc (differenceInMinutes (parseISO (LaytimeEvent.endTime e))
                                    (parseISO (LaytimeEvent.startTime e))))
    (filter LaytimeEvent.isCounted (map allocated l)) (num acc)
  = num (acc + countedMinutes l).
Proof.
  induction 1 as [|e r He Hr IH]; intros acc; cbn [map filter].
  - simpl. now rewrite Z.add_0_r.
  - cbn [allocated LaytimeEvent.isCounted]. rewrite classify_counted.
    cbn [countedMinutes fold_right]. fold (countedMinutes r).
    destruct (counted e).
    + cbn [fold_left].
      change (differenceInMinutes
                (parseISO (LaytimeEvent.endTime (allocated e)))
                (parseISO (LaytimeEvent.startTime (allocated e))))
        with (durationMinutes e).
      rewrite durationMinutes_timed by assumption.
      cbn [add lift2 num]. fold (num (acc + minutesOf e)). rewrite IH.
      f_equal. lia.
    + rewrite IH. f_equal.
Qed.

Lemma delay_fold (l : list Event.t) :
  allTimed l ->
  forall acc,
  fold_left (fun acc e => add acc (durationMinutes e))
    (filter (fun e => String.eqb (Event.category e) "Delays"
                      || String.eqb (Event.category e) "Stoppages") l)
    (num acc)
  = num (acc + delayedMinutes l).
Proof.
  induction 1 as [|e r He Hr IH]; intros acc; cbn [filter].
  - simpl. now rewrite Z.add_0_r.
  - cbn [delayedMinutes fold_right]. fold (delayedMinutes r).
    unfold delay at 1.
    destruct (String.eqb (Event.category e) "Delays"
              || String.eqb (Event.category e) "Stoppages").
    + cbn [fold_left]. rewrite durationMinutes_timed by assumption.
      cbn [add lift2 num]. fold (num (acc + minutesOf e)). rewrite IH.
      f_equal. lia.
    + rewrite IH. f_equal.
Qed.

Lemma enrichedData_summary (data : Extracted.t) (d : Enriched.t) :
  enrichedData (Some data) = Ok (Some d) ->
  let valid := validEvents (Extracted.events data) in
  eventsSummary valid (sortedEvents valid) (map allocated valid)
  = Ok (Enriched.eventsSummary d).
Proof.
  intros H. cbv zeta.
  destruct (enrichedData_inv data d H)
    as (Hne & Ht & _ & _ & first & rest & Es & Eb).
  pose proof (sortedEvents_timed _ Ht) as Hs. rewrite Es in Hs.
  unfold enrichedData in H. rewrite !length_zero in H.
  destruct (Extracted.events data) as [|e0 evs] eqn:Eev;
    [now contradiction Hne|].
  rewrite <- Eev in *.
  destruct (validEvents (Extracted.events data)) as [|v vs] eqn:Ev;
    [contradiction|].
  rewrite Es in *. rewrite at_index_head in H. cbn [bind] in H.
  inversion Hs as [|? ? Hf Hr]; subst.
  destruct (timed_inv first Hf) as [Hfs _].
  unfold parseISO at 1 in H. rewrite Hfs in H.
  rewrite mergedBlocks_swept in H by assumption. cbn [bind] in H.
  rewrite Eb in H. cbn [bind] in H.
  rewrite (laytimeCalculation_timed (v :: vs) Ht) in H.
  cbn [LaytimeCalculation.laytimeEvents] in H.
  destruct (eventsSummary (v :: vs) (first :: rest)
              (map allocated (v :: vs))) as [summary|] eqn:E;
    [|discriminate].
  cbn [bind] in H. injection H as <-. reflexivity.
Qed.

(** X7: the summary text the pipeline writes has three figures: the whole
    minutes from the start of the first kept event to the end of the last
    one in sorted order, the counted total, which is the text shown as
    total laytime in the calculation, and the sum of the lengths of the
    delays and stoppages. *)
Theorem summary_figures_agree (data : Extracted.t) (d : Enriched.t) :
  enrichedData (Some data) = Ok (Some d) ->
  let valid := validEvents (Extracted.events data) in
  exists first rest,
    sortedEvents valid = first :: rest
    /\ Enriched.eventsSummary d
       = ("*   **Total time in port:** "
          ++ formatMinutesToDuration
               (num (Z.quot (hi (List.last rest first) - lo first) 60000))
          ++ newline
          ++ "*   **Total time on cargo operations:** "
          ++ LaytimeCalculation.totalLaytime (Enriched.laytimeCalculation d)
          ++ newline
          ++ "*   **Total time lost to delays/stoppages:** "
          ++ formatMinutesToDuration (num (delayedMinutes valid)))%string.
Proof.
  intros H. cbv zeta. pose proof (enrichedData_summary data d H) as Esum.
  cbv zeta in Esum.
  destruct (enrichedData_inv data d H)
    as (Hne & Ht & _ & _ & first & rest & Es & _).
  rewrite (enrichedData_laytime data d H).
  cbn [LaytimeCalculation.totalLaytime].
  pose proof (sortedEvents_timed _ Ht) as Hs. rewrite Es in *.
  exists first, rest. split; [reflexivity|].
  unfold eventsSummary in Esum.
  rewrite (at_index_last_eq (first :: rest) first) in Esum
    by discriminate.
  rewrite at_index_head in Esum. cbn [bind] in Esum.
  rewrite (cargo_fold _ Ht 0), (delay_fold _ Ht 0) in Esum.
  assert (Hl : timed (List.last (first :: rest) first) = true).
  { unfold allTimed in Hs. rewrite Forall_forall in Hs. apply Hs.
    destruct (exists_last (l := first :: rest)) as (l' & a & E);
      [discriminate|].
    rewrite E, last_last. apply in_or_app. right. now left. }
  destruct (timed_inv _ Hl) as [_ Hlt].
  inversion Hs as [|? ? Hf _]; subst.
  destruct (timed_inv first Hf) as [Hfs _].
  unfold differenceInMinutes, differenceIn, parseISO in Esum.
  rewrite Hlt, Hfs in Esum. injection Esum as Esum. rewrite <- Esum.
  destruct rest; reflexivity.
Qed.

Lemma summary_figures_agree_witness :
  exists d,
    enrichedData (Some (statement [loading; rain; sailing])) = Ok (Some d)
    /\ Enriched.eventsSummary d
       = ("*   **Total time in port:** 6h" ++ newline
          ++ "*   **Total time on cargo operations:** 2h" ++ newline
          ++ "*   **Total time lost to delays/stoppages:** 2h")%string.
Proof.
  eexists. split; [vm_compute; reflexivity|].
  match goal with
  | |- Enriched.eventsSummary ?d = _ =>
      destruct (summary_figures_agree
                  (statement [loading; rain; sailing]) d eq_refl)
        as (first & rest & Es & E)
  end.
  vm_compute in Es. injection Es as <- <-. rewrite E. reflexivity.
Defined.

(** ** The order of the input and the totals *)

Lemma Permutation_filter {A : Type} (p : A -> bool) (l l' : list A) :
  Permutation l l' -> Permutation (filter p l) (filter p l').
Proof.
  induction 1 as [|x l l' _ IH|x y l|l l' l'' _ IH1 _ IH2]; cbn [filter].
  - constructor.
  - destruct (p x); [now constructor | assumption].
  - destruct (p x), (p y); try reflexivity. apply perm_swap.
  - now transitivity (filter p l').
Qed.

Lemma countedMinutes_perm (l l' : list Event.t) :
  Permutation l l' -> countedMinutes l = countedMinutes l'.
Proof.
  unfold countedMinutes.
  induction 1 as [|x l l' _ IH|x y l|l l' l'' _ IH1 _ IH2];
    cbn [fold_right]; lia.
Qed.

(** X8: the figures of the laytime summary do not depend on the order in
    which the events are given: when the pipeline returns on some events,
    it returns on every reordering of them with the same total laytime,
    time saved and demurrage. *)
Theorem laytime_totals_ignore_order (data data' : Extracted.t)
  (d : Enriched.t) :
  Permutation (Extracted.events data) (Extracted.events data') ->
  enrichedData (Some data) = Ok (Some d) ->
  exists d',
    enrichedData (Some data') = Ok (Some d')
    /\ LaytimeCalculation.totalLaytime (Enriched.laytimeCalculation d')
       = LaytimeCalculation.totalLaytime (Enriched.laytimeCalculation d)
    /\ LaytimeCalculation.timeSaved (Enriched.laytimeCalculation d')
       = LaytimeCalculation.timeSaved (Enriched.laytimeCalculation d)
    /\ LaytimeCalculation.demurrage (Enriched.laytimeCalculation d')
       = LaytimeCalculation.demurrage (Enriched.laytimeCalculation d).
Proof.
  intros Hperm H.
  destruct (enrichedData_inv data d H) as (Hne & Ht & _).
  assert (Hv : Permutation (validEvents (Extracted.events data))
                           (validEvents (Extracted.events data')))
    by now apply Permutation_filter.
  assert (Ht' : allTimed (validEvents (Extracted.events data'))).
  { eapply Permutation_Forall; [exact Hv | exact Ht]. }
  assert (Hne' : validEvents (Extracted.events data') <> []).
  { intros E. rewrite E in Hv. apply Permutation_sym in Hv.
    apply Permutation_nil in Hv. contradiction. }
  destruct (enrichedData_some data' Hne' Ht')
    as (first & rest & blocks & summary & _ & _ & _ & Ed).
  eexists. split; [exact Ed|].
  rewrite (enrichedData_laytime data d H).
  cbn [Enriched.laytimeCalculation].
  rewrite (laytimeCalculation_timed _ Ht'). summary_fields.
  rewrite (countedMinutes_perm _ _ Hv). repeat split.
Qed.

Lemma laytime_totals_ignore_order_witness :
  Permutation [loading; rain; discharging] [discharging; loading; rain]
  /\ exists d d',
       enrichedData (Some (statement [loading; rain; discharging]))
       = Ok (Some d)
       /\ enrichedData (Some (statement [discharging; loading; rain]))
          = Ok (Some d')
       /\ LaytimeCalculation.demurrage (Enriched.laytimeCalculation d')
          = LaytimeCalculation.demurrage (Enriched.laytimeCalculation d).
Proof.
  assert (Hp : Permutation [loading; rain; discharging]
                           [discharging; loading; rain]).
  { apply Permutation_sym. apply (Permutation_cons_app [loading; rain] []).
    reflexivity. }
  split; [exact Hp|].
  eexists. 
  destruct (laytime_totals_ignore_order
              (statement [loading; rain; discharging])
              (statement [discharging; loading; rain]) _ Hp eq_refl)
    as (d' & Ed' & _ & _ & Edem).
  exists d'. split; [reflexivity|]. split; [exact Ed' | exact Edem].
Defined.

(** ** The texts of durations are read back *)

Lemma append_nil_r (s : string) : (s ++ EmptyString)%string = s.
Proof. induction s as [|c s IH]; simpl; [reflexivity | now rewrite IH]. Qed.

Lemma toString_inv (z : Z) :
  0 <= z -> NilZero.int_of_string (toString (num z)) = Some (Z.to_int z).
Proof.
  intros Hz. unfold toString, num. apply NilZero.isi.
  - destruct z as [|p|p]; simpl; try discriminate.
    intros E. injection E as E.
    now apply (DecimalPos.Unsigned.to_uint_nonnil p).
  - destruct z as [|p|p]; simpl; try discriminate. lia.
Qed.

Lemma numberOf_toString (z : Z) :
  0 <= z -> numberOf (toString (num z)) = z.
Proof.
  intros Hz. unfold numberOf. rewrite (toString_inv z Hz).
  apply DecimalZ.of_to.
Qed.

Lemma read_digits (ds rest : string) :
  allChars isDigit ds = true ->
  forall digits,
    minutesRead (ds ++ rest) digits = minutesRead rest (digits ++ ds).
Proof.
  induction ds as [|c ds IH]; intros Hd digits.
  - now rewrite append_nil_r.
  - simpl in Hd. apply andb_true_iff in Hd. destruct Hd as [Hc Hds].
    cbn [append minutesRead]. rewrite Hc, (IH Hds), append_assoc.
    reflexivity.
Qed.

Lemma read_days (k : Z) (rest : string) :
  0 <= k ->
  minutesRead (toString (num k) ++ String "d" rest) EmptyString
  = 1440 * k + minutesRead rest EmptyString.
Proof.
  intros Hk. rewrite read_digits by now apply toString_digits.
  cbn [append minutesRead]. now rewrite numberOf_toString.
Qed.

Lemma read_hours (k : Z) (rest : string) :
  0 <= k ->
  minutesRead (toString (num k) ++ String "h" rest) EmptyString
  = 60 * k + minutesRead rest EmptyString.
Proof.
  intros Hk. rewrite read_digits by now apply toString_digits.
  cbn [append minutesRead]. now rewrite numberOf_toString.
Qed.

Lemma read_minutes (k : Z) (rest : string) :
  0 <= k ->
  minutesRead (toString (num k) ++ String "m" rest) EmptyString
  = k + minutesRead rest EmptyString.
Proof.
  intros Hk. rewrite read_digits by now apply toString_digits.
  cbn [append minutesRead]. now rewrite numberOf_toString.
Qed.

Lemma read_blank (rest : string) :
  minutesRead (String " " rest) EmptyString = minutesRead rest EmptyString.
Proof. reflexivity. Qed.

Lemma minutesRead_units (d h mi : Z) :
  0 <= d -> 0 <= h -> 0 <= mi ->
  minutesRead (match units d h mi with
               | [] => "0m"
               | us => String.concat " " us
               end) EmptyString
  = 1440 * d + 60 * h + mi.
Proof.
  intros Hd Hh Hm. unfold units, unit.
  destruct (Z.ltb_spec 0 d); destruct (Z.ltb_spec 0 h);
    destruct (Z.ltb_spec 0 mi);
    cbn [List.app String.concat]; rewrite ?append_assoc;
    cbn [append];
    repeat (first [ rewrite read_days by assumption
                  | rewrite read_hours by assumption
                  | rewrite read_minutes by assumption
                  | rewrite read_blank ]);
    try change (minutesRead EmptyString EmptyString) with 0;
    try change (minutesRead "0m" EmptyString) with 0;
    lia.
Qed.

Lemma minutesRead_spelled (m : Z) :
  0 <= m -> minutesRead (spelled m) EmptyString = m.
Proof.
  intros Hm. rewrite spelled_units.
  assert (Hd : 0 <= m / 1440) by (apply Z.div_pos; lia).
  assert (Hr : 0 <= m mod 1440 < 1440) by (apply Z.mod_pos_bound; lia).
  assert (Hh : 0 <= (m mod 1440) / 60) by (apply Z.div_pos; lia).
  assert (Hmi : 0 <= m mod 60 < 60) by (apply Z.mod_pos_bound; lia).
  rewrite minutesRead_units by lia.
  pose proof (Z.div_mod m 1440 ltac:(lia)) as E1.
  pose proof (Z.div_mod (m mod 1440) 60 ltac:(lia)) as E2.
  pose proof (Z.mod_pos_bound (m mod 1440) 60 ltac:(lia)) as B2.
  assert (E3 : (m mod 1440) mod 60 = m mod 60).
  { apply (Z.mod_unique m 60 (24 * (m / 1440) + (m mod 1440) / 60)); lia. }
  lia.
Qed.

Lemma unorm_head (d : Decimal.uint) :
  match Decimal.unorm d with
  | Decimal.Nil => False
  | Decimal.D0 l => l = Decimal.Nil
  | _ => True
  end.
Proof. induction d; simpl; auto. Qed.

Lemma toString_positive_head (k : Z) :
  0 < k ->
  exists c r,
    toString (num k) = String c r /\ isDigit c = true /\ c <> "0"%char.
Proof.
  intros Hk. destruct k as [|p|p]; try lia.
  unfold toString, num. cbn [Z.to_int NilZero.string_of_int].
  pose proof (DecimalPos.Unsigned.to_of (Pos.to_uint p)) as E.
  rewrite DecimalPos.Unsigned.of_to in E. cbn [N.to_uint] in E.
  pose proof (unorm_head (Pos.to_uint p)) as Hh. rewrite <- E in Hh.
  pose proof (DecimalPos.Unsigned.to_uint_nonzero p) as Hz.
  destruct (Pos.to_uint p) as [|l|l|l|l|l|l|l|l|l|l];
    [contradiction | subst l; now contradiction Hz | ..];
    cbn [NilZero.string_of_uint NilEmpty.string_of_uint];
    eexists; eexists; (split; [reflexivity|]);
    (split; [reflexivity | discriminate]).
Qed.

Lemma format_head (m : Z) :
  exists c r,
    formatMinutesToDuration (num m) = String c r
    /\ isDigit c = true
    /\ (c = "0"%char -> r = "m").
Proof.
  rewrite formatMinutesToDuration_max, spelled_units.
  unfold units, unit.
  destruct (Z.ltb_spec 0 (Z.max 0 m / 1440)) as [Hd|Hd].
  - destruct (toString_positive_head _ Hd) as (c & r & E & Hc & Hz).
    rewrite E. cbn [List.app]. 
    destruct (_ ++ _)%list; cbn [String.concat append];
      eexists; eexists; (split; [reflexivity|]);
      (split; [exact Hc | intros; contradiction]).
  - cbn [List.app].
    destruct (Z.ltb_spec 0 ((Z.max 0 m mod 1440) / 60)) as [Hh|Hh].
    + destruct (toString_positive_head _ Hh) as (c & r & E & Hc & Hz).
      rewrite E. cbn [List.app].
      destruct (if 0 <? _ then _ else _); cbn [String.concat append];
        eexists; eexists; (split; [reflexivity|]);
        (split; [exact Hc | intros; contradiction]).
    + cbn [List.app].
      destruct (Z.ltb_spec 0 (Z.max 0 m mod 60)) as [Hm|Hm].
      * destruct (toString_positive_head _ Hm) as (c & r & E & Hc & Hz).
        rewrite E. cbn [String.concat append].
        eexists; eexists; (split; [reflexivity|]).
        split; [exact Hc | intros; contradiction].
      * exists "0"%char, "m". repeat split; reflexivity.
Qed.

(** X9: the formatter tells durations apart.  Two numbers of minutes are
    rendered by the same text exactly when they are the same number once
    the negative ones are taken as zero, and the text of a number is never
    the text ["NaNm"] that the formatter gives for [NaN]. *)
Theorem formatMinutesToDuration_separates (m m' : Z) :
  (formatMinutesToDuration (num m) = formatMinutesToDuration (num m')
   <-> Z.max 0 m = Z.max 0 m')
  /\ formatMinutesToDuration None = "NaNm"
  /\ formatMinutesToDuration (num m) <> formatMinutesToDuration None.
Proof.
  split; [|split].
  - rewrite !formatMinutesToDuration_max. split.
    + intros E.
      rewrite <- (minutesRead_spelled (Z.max 0 m)) by lia.
      rewrite <- (minutesRead_spelled (Z.max 0 m')) by lia.
      now rewrite E.
    + now intros ->.
  - reflexivity.
  - intros E. destruct (format_head m) as (c & r & Ec & Hc & _).
    rewrite E in Ec. injection Ec as <- _. discriminate.
Qed.

(** ** The laytime calculator on the result of the pipeline *)

Lemma hasDemurrage_format (r : LaytimeCalculation.t) (m : Z) :
  LaytimeCalculation.demurrage r = formatMinutesToDuration (num m) ->
  Components.hasDemurrage r = true.
Proof.
  intros E. unfold Components.hasDemurrage. rewrite E.
  destruct (format_head m) as (c & s & Ec & Hc & Hz). rewrite Ec.
  unfold truthyText, startsWith.
  cbn [String.eqb String.prefix negb andb].
  destruct (Ascii.eqb_spec c "0") as [->|Hn].
  - rewrite (Hz eq_refl). reflexivity.
  - destruct (Ascii.eqb_spec c "N") as [->|_]; [discriminate|].
    destruct (ascii_dec "0" c) as [<-|_]; [contradiction|].
    reflexivity.
Qed.

(** X10: on the laytime summary of the pipeline the calculator shows the
    four figures and one row for each kept event, in the order of the
    input, with the badge ["Yes"] on cargo operations alone and the help
    icon on every row.  Its condition [hasDemurrage] holds on every such
    summary, also when the demurrage reads ["0m"], and the card of the
    estimated cost is never shown. *)
Theorem calculator_shows_the_summary (data : Extracted.t) (d : Enriched.t) :
  enrichedData (Some data) = Ok (Some d) ->
  let summary := Enriched.laytimeCalculation d in
  Components.hasDemurrage summary = true
  /\ Components.LaytimeCalculator (Some summary)
     = Components.LaytimeSummary
         (LaytimeCalculation.totalLaytime summary)
         "3 days"
         (LaytimeCalculation.timeSaved summary)
         (LaytimeCalculation.demurrage summary)
         None
         (map (fun e =>
                 Components.mkRow
                   (Event.event e)
                   (formatMinutesToDuration (num (minutesOf e)))
                   (if counted e then "Yes" else "No")
                   (snd (classify (Event.category e)))
                   true)
              (validEvents (Extracted.events data))).
Proof.
  intros H. cbv zeta.
  destruct (enrichedData_inv data d H) as (_ & Ht & _).
  assert (Hd : Components.hasDemurrage (Enriched.laytimeCalculation d)
               = true).
  { apply (hasDemurrage_format _
             (Z.max 0 (countedMinutes (validEvents (Extracted.events data))
                       - 4320))).
    rewrite (enrichedData_laytime data d H). reflexivity. }
  split; [exact Hd|].
  unfold Components.LaytimeCalculator. rewrite Hd.
  rewrite (enrichedData_laytime data d H). summary_fields.
  f_equal. rewrite map_map. apply map_ext_in. intros e He.
  assert (Hte : timed e = true).
  { unfold allTimed in Ht. rewrite Forall_forall in Ht. now apply Ht. }
  unfold Components.tableRow, allocated.
  cbn [LaytimeEvent.event LaytimeEvent.duration LaytimeEvent.isCounted
       LaytimeEvent.reason].
  rewrite (durationMinutes_timed e Hte).
  unfold classify, counted.
  destruct (String.eqb (Event.category e) "Cargo Operations");
    [reflexivity|].
  destruct (String.eqb (Event.category e) "Delays"
            || String.eqb (Event.category e) "Stoppages"); reflexivity.
Qed.

Lemma calculator_shows_the_summary_witness :
  exists d,
    enrichedData (Some (statement [loading; rain])) = Ok (Some d)
    /\ LaytimeCalculation.demurrage (Enriched.laytimeCalculation d) = "0m"
    /\ Components.hasDemurrage (Enriched.laytimeCalculation d) = true.
Proof.
  eexists. split; [vm_compute; reflexivity|].
  split; [reflexivity|].
  match goal with
  | |- Components.hasDemurrage (Enriched.laytimeCalculation ?d) = true =>
      exact (proj1 (calculator_shows_the_summary
                      (statement [loading; rain]) d eq_refl))
  end.
Defined.

(** ** The assistant on the result of the pipeline *)

Lemma summary_text (data : Extracted.t) (d : Enriched.t) :
  enrichedData (Some data) = Ok (Some d) ->
  exists rest, Enriched.eventsSummary d = String "*" rest.
Proof.
  intros H. pose proof (enrichedData_summary data d H) as E.
  cbv zeta in E. unfold eventsSummary in E.
  destruct (at_index _ _) as [lastEvent|]; [|discriminate].
  cbn [bind] in E.
  destruct (at_index _ _) as [firstEvent|]; [|discriminate].
  cbn [bind] in E. injection E as <-. eexists. reflexivity.
Qed.

(** X11: whatever the pipeline returns, the assistant never apologises
    for a missing summary: it stays silent on [null] and otherwise gives
    the insights, the name of the vessel followed by the summary. *)
Theorem assistant_reports_the_summary (extractedData : option Extracted.t)
  (r : option Enriched.t) :
  enrichedData extractedData = Ok r ->
  Components.insightMessage r
  = match r with
    | None => None
    | Some d =>
        match extractedData with
        | Some data =>
            Some ("Here are some insights for **"
                  ++ Extracted.vesselName data ++ "**:" ++ newline
                  ++ newline ++ Enriched.eventsSummary d)%string
        | None => None
        end
    end.
Proof.
  intros H. destruct r as [d|]; [|reflexivity].
  destruct extractedData as [data|]; [|discriminate].
  destruct (summary_text data d H) as (rest & Es).
  destruct (enrichedData_inv data d H) as (_ & _ & Ex & _).
  unfold Components.insightMessage. rewrite Es, Ex. reflexivity.
Qed.

Lemma assistant_reports_the_summary_witness :
  exists d,
    enrichedData (Some (statement [loading])) = Ok (Some d)
    /\ Components.insightMessage (Some d)
       = Some ("Here are some insights for **MV Sample**:" ++ newline
               ++ newline ++ Enriched.eventsSummary d)%string.
Proof.
  eexists. split; [vm_compute; reflexivity|].
  match goal with
  | |- Components.insightMessage (Some ?d) = _ =>
      rewrite (assistant_reports_the_summary
                 (Some (statement [loading])) (Some d) eq_refl)
  end.
  reflexivity.
Defined.

(** ** The flow and the page *)






(** ** The upload route *)

(** X13: the route answers with status 200 in one case only: the field
    holds a file of at most 10 MB whose name ends in [.docx] or [.pdf],
    the parser returns a text of at least 50 code units once the white
    space of the language is trimmed from its two ends, and the model
    returns an output that names the vessel.  The response then carries
    that output, with the events the safeguard keeps. *)
Theorem POST_succeeds_exactly_when
  (prompt : Server.codeUnits -> Server.outcome (option Extracted.t))
  (mammoth pdfParse : Server.File -> Server.outcome Server.codeUnits)
  (formData : Server.outcome (option Server.entry)) :
  Server.status (Server.POST prompt mammoth pdfParse formData) = 200
  <-> exists file sofContent output,
        formData = Server.Returns (Some (Server.Upload file))
        /\ Server.size file <= Server.MAX_FILE_SIZE
        /\ endsWith (Server.name file) ".docx"
           || endsWith (Server.name file) ".pdf" = true
        /\ Server.extractText mammoth pdfParse file
           = Server.Returns sofContent
        /\ 50 <= Z.of_nat (List.length (Server.trimUnits sofContent))
        /\ prompt sofContent = Server.Returns (Some output)
        /\ Extracted.vesselName output <> EmptyString
        /\ Server.content (Server.POST prompt mammoth pdfParse formData)
           = Server.Result
               (Extracted.mk (Extracted.vesselName output)
                  (Extracted.details output)
                  (Server.safeguard (Extracted.events output))).
Proof.
  unfold Server.POST, Server.attempt, Server.rescue,
    Server.extractPortOperationEvents,
    Server.extractPortOperationEventsFlow, Server.andThen.
  split.
  - destruct formData as [[[file|[|c value]]|]|message];
      cbn [Server.status]; try discriminate.
    destruct (Z.gtb_spec (Server.size file) Server.MAX_FILE_SIZE)
      as [Hsize|Hsize]; cbn [Server.status]; try discriminate.
    destruct (endsWith (Server.name file) ".docx"
              || endsWith (Server.name file) ".pdf") eqn:Hname;
      cbn [negb Server.status]; try discriminate.
    destruct (Server.extractText mammoth pdfParse file)
      as [sofContent|message] eqn:Htext;
      cbn [Server.status]; try discriminate.
    destruct (Server.truthyUnits sofContent) eqn:Htruthy;
      cbn [negb orb Server.status]; try discriminate.
    destruct (Z.ltb_spec
                (Z.of_nat (List.length (Server.trimUnits sofContent))) 50)
      as [Hlen|Hlen]; cbn [Server.status]; try discriminate.
    destruct (prompt sofContent) as [[output|]|message] eqn:Hprompt;
      cbn [Server.status]; try discriminate.
    cbn [Extracted.vesselName].
    destruct (truthyText (Extracted.vesselName output)) eqn:Hvessel;
      cbn [negb Server.status]; try discriminate.
    intros _. exists file, sofContent, output.
    repeat (split; [first [reflexivity | assumption | lia]|]).
    split; [|reflexivity].
    intros E. rewrite E in Hvessel. discriminate.
  - intros (file & sofContent & output & -> & Hsize & Hname & Htext
            & Hlen & Hprompt & Hvessel & _).
    destruct (Z.gtb_spec (Server.size file) Server.MAX_FILE_SIZE);
      [lia|].
    rewrite Hname, Htext. cbn [negb].
    assert (Htruthy : Server.truthyUnits sofContent = true).
    { destruct sofContent; [simpl in Hlen; lia | reflexivity]. }
    rewrite Htruthy. cbn [negb orb].
    destruct (Z.ltb_spec
                (Z.of_nat (List.length (Server.trimUnits sofContent))) 50);
      [lia|].
    rewrite Hprompt. cbn [Extracted.vesselName].
    destruct (Extracted.vesselName output); [contradiction|reflexivity].
Qed.

(** The trim of the route strips the no-break space as any other white
    space: a text of 49 letters followed by U+00A0 has 50 code units, 49
    once trimmed, and is answered with status 400. *)
Lemma no_break_space_is_trimmed :
  let sofContent := (repeat 97 49 ++ [160])%N in
  List.length sofContent = 50%nat
  /\ List.length (Server.trimUnits sofContent) = 49%nat
  /\ forall prompt mammoth,
       Server.status
         (Server.POST prompt mammoth (fun _ => Server.Returns sofContent)
            (Server.Returns
               (Some (Server.Upload
                        (Server.mkFile "sof.pdf" "application/pdf" 1024)))))
       = 400.
Proof.
  cbv zeta. split; [reflexivity|]. split; [reflexivity|].
  intros prompt mammoth. reflexivity.
Qed.

(** X14: on a file, the route checks the size before the name: it answers
    413 exactly when the file is larger than 10 MB, whatever its name, and
    415 exactly when the file is within the limit and its name ends
    neither in [.docx] nor in [.pdf].  A name the route accepts always
    reaches one of the two parsers, so the rejection of [extractText] is
    not reached from the route.  The status is one of 200, 400, 413, 415
    and 500. *)
Theorem POST_rejects_size_before_type
  (prompt : Server.codeUnits -> Server.outcome (option Extracted.t))
  (mammoth pdfParse : Server.File -> Server.outcome Server.codeUnits)
  (file : Server.File) :
  let response :=
    Server.POST prompt mammoth pdfParse
      (Server.Returns (Some (Server.Upload file))) in
  let isSupported :=
    endsWith (Server.name file) ".docx"
    || endsWith (Server.name file) ".pdf" in
  (Server.status response = 413
   <-> Server.MAX_FILE_SIZE < Server.size file)
  /\ (Server.status response = 415
      <-> Server.size file <= Server.MAX_FILE_SIZE /\ isSupported = false)
  /\ (isSupported = true ->
      Server.extractText mammoth pdfParse file = mammoth file
      \/ Server.extractText mammoth pdfParse file = pdfParse file)
  /\ In (Server.status response) [200; 400; 413; 415; 500].
Proof.
  cbv zeta.
  unfold Server.POST, Server.attempt, Server.rescue,
    Server.extractPortOperationEvents,
    Server.extractPortOperationEventsFlow, Server.andThen.
  assert (Hreach :
            endsWith (Server.name file) ".docx"
            || endsWith (Server.name file) ".pdf" = true ->
            Server.extractText mammoth pdfParse file = mammoth file
            \/ Server.extractText mammoth pdfParse file = pdfParse file).
  { unfold Server.extractText. intros Hname.
    destruct (endsWith (Server.name file) ".docx");
      [left; now rewrite orb_true_r|].
    cbn [orb] in Hname. rewrite Hname, orb_true_r.
    destruct (String.eqb _ _ || false); [now left | now right]. }
  destruct (Z.gtb_spec (Server.size file) Server.MAX_FILE_SIZE)
    as [Hsize|Hsize]; cbn [Server.status].
  { repeat split; try discriminate; try lia; try tauto;
      cbn [In]; try tauto. }
  destruct (endsWith (Server.name file) ".docx"
            || endsWith (Server.name file) ".pdf") eqn:Hname;
    cbn [negb Server.status].
  2: { repeat split; try discriminate; try lia; try tauto;
         cbn [In]; tauto. }
  assert (Hrest : forall r : Server.response,
            In (Server.status r) [200; 400; 500] ->
            (Server.status r = 413
             <-> Server.MAX_FILE_SIZE < Server.size file)
            /\ (Server.status r = 415
                <-> Server.size file <= Server.MAX_FILE_SIZE
                    /\ true = false)
            /\ (true = true ->
                Server.extractText mammoth pdfParse file = mammoth file
                \/ Server.extractText mammoth pdfParse file
                   = pdfParse file)
            /\ In (Server.status r) [200; 400; 413; 415; 500]).
  { intros r Hr. cbn [In] in Hr.
    split; [split; [intros E; rewrite E in Hr; lia | lia]|].
    split; [split; [intros E; rewrite E in Hr; lia
                   | intros [_ ?]; discriminate]|].
    split; [intros _; now apply Hreach|].
    cbn [In]. tauto. }
  apply Hrest.
  destruct (Server.extractText mammoth pdfParse file)
    as [sofContent|message]; [|cbn [Server.status In]; tauto].
  destruct (negb (Server.truthyUnits sofContent) || _);
    [cbn [Server.status In]; tauto|].
  destruct (prompt sofContent) as [[output|]|message];
    [|cbn [Server.status In]; tauto..].
  destruct (negb _); cbn [Server.status In]; tauto.
Qed.

(** ** The sweep of the analytics dashboard component *)

(** A block of the dashboard under construction. *)
Lemma dashboard_open_timed (name : string) (first : Date) (e : Event.t) :
  timed e = true ->
  exists b, Dashboard.openBlock name first e = Ok b
            /\ Dashboard.subEvents b = [e].
Proof.
  intros He. destruct (timed_inv e He) as [Hs Ht].
  unfold Dashboard.openBlock, parseISO. rewrite Hs, Ht.
  eexists. split; reflexivity.
Qed.

Lemma dashboard_open_untimed (name : string) (first : Date) (e : Event.t) :
  timed e = false -> Dashboard.openBlock name first e = Throw RangeError.
Proof.
  unfold timed, Dashboard.openBlock, parseISO, format.
  destruct (Event.startTime e), (Event.endTime e);
    intros H; try discriminate; reflexivity.
Qed.

Lemma last_timed (g : list Event.t) (e : Event.t) :
  allTimed g -> timed e = true -> timed (List.last g e) = true.
Proof.
  intros Hg He. induction Hg as [|a r Ha Hr IH]; [exact He|].
  destruct r; [exact Ha | exact IH].
Qed.

Lemma dashboard_step_timed (first : Date) (cur : Dashboard.MergedEventBlock)
  (merged : list Dashboard.MergedEventBlock) (e : Event.t) :
  Dashboard.subEvents cur <> [] -> allTimed (Dashboard.subEvents cur) ->
  timed e = true ->
  exists cur' merged',
    Dashboard.sweepStep first (Some cur, merged) e = Ok (Some cur', merged')
    /\ ((lo e <=? hi (List.last (Dashboard.subEvents cur) e)) = true
        /\ Dashboard.subEvents cur' = Dashboard.subEvents cur ++ [e]
        /\ merged' = merged
        \/ (lo e <=? hi (List.last (Dashboard.subEvents cur) e)) = false
           /\ Dashboard.subEvents cur' = [e]
           /\ merged' = merged ++ [cur]).
Proof.
  intros Hne Hg He. unfold Dashboard.sweepStep.
  rewrite (at_index_last_eq (Dashboard.subEvents cur) e Hne).
  cbn [bind].
  pose proof (last_timed _ e Hg He) as Hl.
  destruct (timed_inv _ Hl) as [_ Hlt].
  destruct (timed_inv e He) as [Hs Ht].
  unfold parseISO, getTime. rewrite Hlt, Hs, Ht.
  cbn [le cmp2].
  destruct (lo e <=? hi (List.last (Dashboard.subEvents cur) e)).
  - destruct (Dashboard.subEvents cur) as [|a r] eqn:Ec; [contradiction|].
    cbn [List.app]. rewrite at_index_head. cbn [bind].
    inversion Hg as [|? ? Ha _]; subst.
    destruct (timed_inv a Ha) as [Has _]. rewrite Has.
    cbn [max pick fold_left lift2 format bind].
    eexists. eexists. split; [reflexivity|]. left.
    split; [reflexivity|]. split; [|reflexivity].
    cbn [Dashboard.subEvents]. reflexivity.
  - destruct (dashboard_open_timed
                ("Timeline Block "
                 ++ toString
                      (num (Z.of_nat (List.length (merged ++ [cur])) + 1)))
                first e He) as (b & Eb & Hb).
    rewrite Eb. cbn [bind].
    eexists. eexists. split; [reflexivity|]. right.
    split; [reflexivity|]. split; [exact Hb | reflexivity].
Qed.

Lemma dashboard_step_untimed (first : Date)
  (cur : Dashboard.MergedEventBlock)
  (merged : list Dashboard.MergedEventBlock) (e : Event.t) :
  Dashboard.subEvents cur <> [] -> allTimed (Dashboard.subEvents cur) ->
  timed e = false ->
  Dashboard.sweepStep first (Some cur, merged) e = Throw RangeError.
Proof.
  intros Hne Hg He. unfold Dashboard.sweepStep.
  rewrite (at_index_last_eq (Dashboard.subEvents cur) e Hne).
  cbn [bind].
  pose proof (dashboard_open_untimed
                ("Timeline Block "
                 ++ toString
                      (num (Z.of_nat (List.length (merged ++ [cur])) + 1)))
                first e He) as Eo.
  rewrite Eo.
  destruct (le _ _) eqn:Ele; [|reflexivity].
  destruct (Dashboard.subEvents cur) as [|a r] eqn:Ec; [contradiction|].
  cbn [List.app]. rewrite at_index_head. cbn [bind].
  unfold timed in He. unfold parseISO, getTime, le, cmp2 in *.
  destruct (Event.startTime e) as [| |s]; try discriminate.
  destruct (Event.endTime e) as [| |t]; try discriminate;
    destruct (Event.endTime (List.last (a :: r) e)); reflexivity.
Qed.

(** The groups of a run of the sweep. *)
Lemma dashboard_fold_timed (first : Date) (l : list Event.t) :
  allTimed l ->
  forall cur merged,
    Dashboard.subEvents cur <> [] -> allTimed (Dashboard.subEvents cur) ->
    exists cur' merged',
      foldM (Dashboard.sweepStep first) l (Some cur, merged)
      = Ok (Some cur', merged')
      /\ map Dashboard.subEvents (merged' ++ [cur'])
         = map Dashboard.subEvents merged
           ++ chainsFrom (Dashboard.subEvents cur) l.
Proof.
  induction 1 as [|e r He Hr IH]; intros cur merged Hne Hg.
  - exists cur, merged. split; [reflexivity|].
    now rewrite map_app.
  - cbn [foldM chainsFrom].
    destruct (dashboard_step_timed first cur merged e Hne Hg He)
      as (cur' & merged' & Es & [(Et & Ec & Em) | (Et & Ec & Em)]);
      rewrite Es, Et; cbn [bind]; subst merged'.
    + destruct (IH cur' merged) as (cur2 & merged2 & Ef & Eg).
      * rewrite Ec. apply not_nil_snoc.
      * rewrite Ec. now apply allTimed_snoc.
      * exists cur2, merged2. split; [exact Ef|]. now rewrite Eg, Ec.
    + destruct (IH cur' (merged ++ [cur])) as (cur2 & merged2 & Ef & Eg).
      * rewrite Ec. discriminate.
      * rewrite Ec. now repeat constructor.
      * exists cur2, merged2. split; [exact Ef|].
        rewrite Eg, Ec, map_app, <- app_assoc. reflexivity.
Qed.

Lemma dashboard_fold_cases (first : Date) (l : list Event.t) :
  forall cur merged,
    Dashboard.subEvents cur <> [] -> allTimed (Dashboard.subEvents cur) ->
    allTimed l
    \/ foldM (Dashboard.sweepStep first) l (Some cur, merged)
       = Throw RangeError.
Proof.
  induction l as [|e r IH]; intros cur merged Hne Hg.
  - left. constructor.
  - cbn [foldM]. destruct (timed e) eqn:He.
    + destruct (dashboard_step_timed first cur merged e Hne Hg He)
        as (cur' & merged' & Es & Hc).
      rewrite Es. cbn [bind].
      assert (Hc' : Dashboard.subEvents cur' <> []
                    /\ allTimed (Dashboard.subEvents cur')).
      { destruct Hc as [(_ & Ec & _) | (_ & Ec & _)]; rewrite Ec.
        - split; [apply not_nil_snoc | now apply allTimed_snoc].
        - split; [discriminate | now repeat constructor]. }
      destruct (IH cur' merged' (proj1 Hc') (proj2 Hc')) as [Hr | Hthrow].
      * left. now constructor.
      * now right.
    + right. now rewrite dashboard_step_untimed.
Qed.

Lemma dashboard_blocks_timed (first : Date) (l : list Event.t) :
  allTimed l ->
  exists blocks,
    Dashboard.mergedBlocks first l = Ok blocks
    /\ map Dashboard.subEvents blocks = chains l.
Proof.
  intros Hl. unfold Dashboard.mergedBlocks.
  destruct l as [|e r]; [now exists []|].
  replace (0 <? Z.of_nat (List.length (e :: r))) with true
    by (symmetry; apply Z.ltb_lt; cbn [List.length]; lia).
  inversion Hl as [|? ? He Hr]; subst.
  cbn [foldM]. unfold Dashboard.sweepStep at 1.
  destruct (dashboard_open_timed "Timeline Block 1" first e He)
    as (b & Eb & Hb).
  rewrite Eb. cbn [bind].
  destruct (dashboard_fold_timed first r Hr b []) as (cur & merged & Ef & Eg).
  - rewrite Hb. discriminate.
  - rewrite Hb. now repeat constructor.
  - rewrite Ef. cbn [bind fst snd]. eexists. split; [reflexivity|].
    rewrite Eg, Hb. reflexivity.
Qed.

Lemma dashboard_blocks_untimed (first : Date) (l : list Event.t) :
  ~ allTimed l -> Dashboard.mergedBlocks first l = Throw RangeError.
Proof.
  intros Hl. unfold Dashboard.mergedBlocks.
  destruct l as [|e r]; [exfalso; apply Hl; constructor|].
  replace (0 <? Z.of_nat (List.length (e :: r))) with true
    by (symmetry; apply Z.ltb_lt; cbn [List.length]; lia).
  cbn [foldM]. unfold Dashboard.sweepStep at 1.
  destruct (timed e) eqn:He.
  - destruct (dashboard_open_timed "Timeline Block 1" first e He)
      as (b & Eb & Hb).
    rewrite Eb. cbn [bind].
    destruct (dashboard_fold_cases first r b []) as [Hr | Hthrow].
    + rewrite Hb. discriminate.
    + rewrite Hb. now repeat constructor.
    + exfalso. apply Hl. now constructor.
    + now rewrite Hthrow.
  - now rewrite dashboard_open_untimed.
Qed.

(** *** The groups *)

Lemma chainsFrom_concat (l cur : list Event.t) :
  List.concat (chainsFrom cur l) = cur ++ l.
Proof.
  revert cur. induction l as [|e r IH]; intros cur; cbn [chainsFrom].
  - cbn [List.concat]. now rewrite app_nil_r.
  - destruct (lo e <=? hi (List.last cur e)).
    + rewrite IH. now rewrite <- app_assoc.
    + cbn [List.concat]. now rewrite IH.
Qed.

Lemma chainsFrom_head (l cur : list Event.t) :
  exists more gs, chainsFrom cur l = (cur ++ more) :: gs.
Proof.
  revert cur. induction l as [|e r IH]; intros cur; cbn [chainsFrom].
  - exists [], []. now rewrite app_nil_r.
  - destruct (lo e <=? hi (List.last cur e)).
    + destruct (IH (cur ++ [e])) as (more & gs & E).
      exists (e :: more), gs. rewrite E. now rewrite <- app_assoc.
    + exists [], (chainsFrom [e] r). now rewrite app_nil_r.
Qed.

Lemma chainsFrom_populated (l cur : list Event.t) :
  cur <> [] -> allTimed cur -> allTimed l ->
  Forall (fun g => g <> [] /\ allTimed g) (chainsFrom cur l).
Proof.
  revert cur. induction l as [|e r IH]; intros cur Hne Hg Hl;
    cbn [chainsFrom].
  - now repeat constructor.
  - inversion Hl as [|? ? He Hr]; subst.
    destruct (lo e <=? hi (List.last cur e)).
    + apply IH; [apply not_nil_snoc | now apply allTimed_snoc | exact Hr].
    + constructor; [now split|].
      apply IH; [discriminate | now repeat constructor | exact Hr].
Qed.

Lemma Sorted_snoc {A : Type} (R : A -> A -> Prop) (g : list A) (e d : A) :
  Sorted R g -> (g <> [] -> R (List.last g d) e) -> Sorted R (g ++ [e]).
Proof.
  induction g as [|a r IH]; intros Hs Hl; cbn [List.app].
  - now repeat constructor.
  - inversion Hs as [|? ? Hr Ha]; subst. constructor.
    + apply IH; [exact Hr|]. intros Hne. specialize (Hl ltac:(discriminate)).
      destruct r; [contradiction | exact Hl].
    + destruct r as [|b r']; cbn [List.app].
      * constructor. apply Hl. discriminate.
      * inversion Ha; subst. now constructor.
Qed.

Lemma chainsFrom_linked (l cur : list Event.t) :
  Sorted linked cur -> Forall (Sorted linked) (chainsFrom cur l).
Proof.
  revert cur. induction l as [|e r IH]; intros cur Hs; cbn [chainsFrom].
  - now repeat constructor.
  - destruct (Z.leb_spec (lo e) (hi (List.last cur e))) as [Hle|Hgt].
    + apply IH. apply (Sorted_snoc linked cur e e Hs). now intros _.
    + constructor; [exact Hs|]. apply IH. now repeat constructor.
Qed.

Lemma chainsFrom_apart (l cur : list Event.t) :
  cur <> [] -> Sorted apart (chainsFrom cur l).
Proof.
  revert cur. induction l as [|e r IH]; intros cur Hne; cbn [chainsFrom].
  - now repeat constructor.
  - destruct (Z.leb_spec (lo e) (hi (List.last cur e))) as [Hle|Hgt].
    + apply IH. apply not_nil_snoc.
    + constructor; [apply IH; discriminate|].
      destruct (chainsFrom_head r [e]) as (more & gs & E). rewrite E.
      constructor. exact Hgt.
Qed.

(** *** The post-processing *)

Lemma durationText_hours (t : Z) :
  Chart.durationText (num t)
  = ((if (0 <? t / 24)%Z then toString (num (t / 24)%Z) ++ "d "
      else EmptyString)
     ++ toString (num (Z.rem t 24)) ++ "h 0m")%string.
Proof.
  unfold Chart.durationText, floorDiv, rem, floor, round, mul, sub, lift2,
    gt, cmp2, num.
  rewrite gtb_ltb, Z.sub_diag. reflexivity.
Qed.

Lemma headStart_date (g : list Event.t) (a : Event.t) (r : list Event.t) :
  g = a :: r -> timed a = true ->
  parseISO (Event.startTime a) = Some (headStart g).
Proof.
  intros -> Ha. destruct (timed_inv a Ha) as [Hs _].
  unfold parseISO. now rewrite Hs.
Qed.

Lemma finish_populated (b : Dashboard.MergedEventBlock) :
  Dashboard.subEvents b <> [] -> allTimed (Dashboard.subEvents b) ->
  exists c, Chart.finish b = Ok c
    /\ Chart.subEvents c = Dashboard.subEvents b
    /\ Chart.duration c
       = Chart.durationText (num (hoursOf (Dashboard.subEvents b))).
Proof.
  intros Hne Hg. unfold Chart.finish.
  rewrite max_endDates by assumption.
  destruct (Dashboard.subEvents b) as [|a r] eqn:E; [contradiction|].
  rewrite at_index_head. cbn [reduce1 bind].
  inversion Hg as [|? ? Ha _]; subst.
  rewrite (headStart_date (a :: r) a r eq_refl Ha).
  destruct (1 <? Z.of_nat (List.length (a :: r))); cbn [bind];
    eexists; (split; [reflexivity|]); split; reflexivity.
Qed.

Lemma finish_all (blocks : list Dashboard.MergedEventBlock) :
  Forall (fun g => g <> [] /\ allTimed g)
         (map Dashboard.subEvents blocks) ->
  exists bars,
    mapM Chart.finish blocks = Ok bars
    /\ map Chart.subEvents bars = map Dashboard.subEvents blocks
    /\ Forall (fun c => Chart.duration c
                        = Chart.durationText
                            (num (hoursOf (Chart.subEvents c)))) bars.
Proof.
  induction blocks as [|b r IH]; intros H; cbn [map] in *.
  - exists []. repeat split. constructor.
  - inversion H as [|? ? [Hne Hg] Hr]; subst.
    destruct (finish_populated b Hne Hg) as (c & Ec & Em & Ed).
    destruct (IH Hr) as (bars & Eb & Ems & Eds).
    exists (c :: bars). cbn [mapM]. rewrite Ec, Eb. cbn [bind map].
    split; [reflexivity|]. split; [now rewrite Em, Ems|].
    constructor; [now rewrite Em | exact Eds].
Qed.

(** *** The chart *)

Lemma chartData_timed (data : Extracted.t) :
  allTimed (Extracted.events data) ->
  exists bars,
    Chart.chartData (Some data) = Ok bars
    /\ map Chart.subEvents bars
       = chains (sortedEvents (Extracted.events data))
    /\ Forall (fun c => Chart.duration c
                        = Chart.durationText
                            (num (hoursOf (Chart.subEvents c)))) bars.
Proof.
  intros Ht. unfold Chart.chartData. rewrite length_zero.
  destruct (Extracted.events data) as [|e0 evs] eqn:Eev.
  - exists []. repeat split. constructor.
  - rewrite <- Eev in *.
    pose proof (sortedEvents_timed _ Ht) as Hs.
    pose proof (sortedEvents_length (Extracted.events data)) as Hlen.
    destruct (sortedEvents (Extracted.events data)) as [|first rest] eqn:Es.
    { rewrite Eev in Hlen. discriminate. }
    rewrite at_index_head. cbn [bind].
    destruct (dashboard_blocks_timed
                (parseISO (Event.startTime first)) (first :: rest) Hs)
      as (blocks & Eb & Em).
    rewrite Eb. cbn [bind].
    destruct (finish_all blocks) as (bars & Ef & Ems & Eds).
    + rewrite Em. inversion Hs; subst.
      apply chainsFrom_populated;
        [discriminate | now repeat constructor | assumption].
    + exists bars. split; [exact Ef|]. split; [|exact Eds].
      now rewrite Ems.
Qed.

Lemma chartData_untimed (data : Extracted.t) :
  ~ allTimed (Extracted.events data) ->
  Chart.chartData (Some data) = Throw RangeError.
Proof.
  intros Hnt. unfold Chart.chartData. rewrite length_zero.
  destruct (Extracted.events data) as [|e0 evs] eqn:Eev.
  - exfalso. apply Hnt. constructor.
  - rewrite <- Eev in *.
    pose proof (sortedEvents_length (Extracted.events data)) as Hlen.
    pose proof (sortedEvents_perm (Extracted.events data)) as Hperm.
    destruct (sortedEvents (Extracted.events data)) as [|first rest] eqn:Es.
    { rewrite Eev in Hlen. discriminate. }
    rewrite at_index_head. cbn [bind].
    rewrite dashboard_blocks_untimed; [reflexivity|].
    intros Hs. apply Hnt. eapply Permutation_Forall; [exact Hperm|exact Hs].
Qed.

(** X15: the chart of the dashboard component keeps every extracted
    event: it is computed exactly when each event has two readable times,
    and the computation raises a [RangeError] as soon as one event lacks
    one, where the pipeline of the page drops the events without times. *)
Theorem chart_needs_every_event_timed (data : Extracted.t) :
  ((exists bars, Chart.chartData (Some data) = Ok bars)
   <-> allTimed (Extracted.events data))
  /\ (Chart.chartData (Some data) = Throw RangeError
      <-> ~ allTimed (Extracted.events data))
  /\ forall bars, Chart.chartData (Some data) = Ok bars ->
       List.concat (map Chart.subEvents bars)
       = sortedEvents (Extracted.events data).
Proof.
  destruct (allTimed_dec (Extracted.events data)) as [Ht|Hnt].
  - destruct (chartData_timed data Ht) as (bars & E & Em & _).
    rewrite E. split; [|split].
    + split; [auto | intros _; now exists bars].
    + split; [discriminate | intros H; contradiction].
    + intros bars' E'. injection E' as <-. rewrite Em.
      destruct (sortedEvents (Extracted.events data)) as [|first rest];
        [reflexivity|].
      cbn [chains]. apply chainsFrom_concat.
  - rewrite (chartData_untimed data Hnt). split; [|split].
    + split; [intros (bars & E); discriminate | intros H; contradiction].
    + split; auto.
    + discriminate.
Qed.

(** X16: the groups of the chart are chains.  In a group every member
    after the first starts no later than the end of the member before it,
    and a group begins after the end of the last member of the group
    before it; the span of the earlier members plays no part. *)
Theorem chart_groups_are_chains (data : Extracted.t)
  (bars : list Chart.ChartBlock) :
  Chart.chartData (Some data) = Ok bars ->
  map Chart.subEvents bars = chains (sortedEvents (Extracted.events data))
  /\ Forall (Sorted linked) (map Chart.subEvents bars)
  /\ Sorted apart (map Chart.subEvents bars).
Proof.
  intros H.
  destruct (allTimed_dec (Extracted.events data)) as [Ht|Hnt].
  - destruct (chartData_timed data Ht) as (bars' & E & Em & _).
    rewrite E in H. injection H as <-. split; [exact Em|].
    rewrite Em.
    destruct (sortedEvents (Extracted.events data)) as [|first rest];
      cbn [chains].
    + split; constructor.
    + split.
      * apply chainsFrom_linked. now repeat constructor.
      * apply chainsFrom_apart. discriminate.
  - rewrite (chartData_untimed data Hnt) in H. discriminate.
Qed.

Lemma chart_groups_are_chains_witness :
  exists bars,
    Chart.chartData (Some (statement [sailing; rain; berthing])) = Ok bars
    /\ map Chart.subEvents bars = [[berthing; rain]; [sailing]].
Proof.
  eexists. split; [vm_compute; reflexivity|].
  match goal with
  | |- map Chart.subEvents ?bars = _ =>
      rewrite (proj1 (chart_groups_are_chains
                        (statement [sailing; rain; berthing]) bars
                        eq_refl))
  end.
  reflexivity.
Defined.

(** X17: the chart splits what the page merges.  When a short event [b]
    lies inside a long event [a] and a third event [c] starts after the
    end of [b] but before the end of [a], the chart puts [c] in a group
    of its own, which overlaps the group of [a] and [b], while the
    pipeline of the page keeps the three events in one block. *)
Theorem chart_splits_what_the_page_merges (a b c : Event.t) :
  timed a = true -> timed b = true -> timed c = true ->
  lo a <= lo b -> lo b <= lo c ->
  lo b < hi a -> hi b < lo c -> lo c < hi a ->
  (exists bars,
     Chart.chartData (Some (statement [a; b; c])) = Ok bars
     /\ map Chart.subEvents bars = [[a; b]; [c]])
  /\ (exists d,
        enrichedData (Some (statement [a; b; c])) = Ok (Some d)
        /\ members (Enriched.timelineBlocks d) = [[a; b; c]]).
Proof.
  intros Ha Hb Hc Hab Hbc Hba Hbc' Hca.
  assert (Ht : allTimed [a; b; c]) by now repeat constructor.
  assert (Hs : sortedEvents [a; b; c] = [a; b; c]).
  { apply sortedEvents_fixed; [exact Ht|].
    repeat constructor; unfold startsLe; lia. }
  split.
  - destruct (chartData_timed (statement [a; b; c]) Ht)
      as (bars & E & Em & _).
    exists bars. split; [exact E|]. rewrite Em.
    cbn [statement Extracted.events]. rewrite Hs.
    cbn [chains chainsFrom List.last List.app].
    replace (lo b <=? hi a) with true by (symmetry; apply Z.leb_le; lia).
    replace (lo c <=? hi b) with false by (symmetry; apply Z.leb_gt; lia).
    reflexivity.
  - destruct (enrichedData_some (statement [a; b; c]))
      as (first & rest & blocks & summary & Es & _ & Em & Ed).
    + cbn [statement Extracted.events]. rewrite validEvents_fixed by exact Ht.
      discriminate.
    + cbn [statement Extracted.events]. now rewrite validEvents_fixed.
    + cbn [statement Extracted.events] in Es.
      rewrite validEvents_fixed, Hs in Es by exact Ht.
      injection Es as <- <-.
      eexists. split; [exact Ed|]. cbn [Enriched.timelineBlocks].
      unfold members. rewrite Em.
      cbn [swept sweepFrom].
      change (TimelineBlock.subEvents (opened (Some (lo a)) a)) with [a].
      replace (lo b <? latest [a]) with true
        by (symmetry; apply Z.ltb_lt; cbn; lia).
      change (TimelineBlock.subEvents
                (grown (Some (lo a)) (opened (Some (lo a)) a) b))
        with [a; b].
      replace (lo c <? latest [a; b]) with true
        by (symmetry; apply Z.ltb_lt; cbn; lia).
      reflexivity.
Qed.

Lemma chart_splits_what_the_page_merges_witness :
  (exists bars,
     Chart.chartData (Some (statement [discharging; berthing; sailing]))
     = Ok bars
     /\ map Chart.subEvents bars = [[discharging; berthing]; [sailing]])
  /\ (exists d,
        enrichedData (Some (statement [discharging; berthing; sailing]))
        = Ok (Some d)
        /\ members (Enriched.timelineBlocks d)
           = [[discharging; berthing; sailing]]).
Proof.
  apply (chart_splits_what_the_page_merges discharging berthing sailing);
    first [reflexivity | vm_compute; discriminate].
Defined.

(** X18: the chart counts the duration of a group in whole hours, from
    the start of its first member to the latest end of its members, and
    the text it shows always ends with zero minutes: a group that lasts
    less than an hour reads ["0h 0m"]. *)
Theorem chart_durations_show_no_minutes (data : Extracted.t)
  (bars : list Chart.ChartBlock) :
  Chart.chartData (Some data) = Ok bars ->
  Forall (fun bar =>
            let t := hoursOf (Chart.subEvents bar) in
            Chart.duration bar
            = ((if (0 <? t / 24)%Z then toString (num (t / 24)%Z) ++ "d "
                else EmptyString)
               ++ toString (num (Z.rem t 24)) ++ "h 0m")%string
            /\ (0 <= latest (Chart.subEvents bar)
                     - headStart (Chart.subEvents bar) < 3600000 ->
                Chart.duration bar = "0h 0m"))
         bars.
Proof.
  intros H.
  destruct (allTimed_dec (Extracted.events data)) as [Ht|Hnt].
  - destruct (chartData_timed data Ht) as (bars' & E & _ & Ed).
    rewrite E in H. injection H as <-.
    eapply Forall_impl; [|exact Ed]. cbv beta zeta. intros bar Eb.
    rewrite Eb, durationText_hours. split; [reflexivity|].
    intros Hshort. unfold hoursOf.
    rewrite Z.quot_small by exact Hshort. reflexivity.
  - rewrite (chartData_untimed data Hnt) in H. discriminate.
Qed.

Lemma chart_durations_show_no_minutes_witness :
  exists bar,
    Chart.chartData (Some (statement [inspection])) = Ok [bar]
    /\ minutesOf inspection = 30
    /\ Chart.duration bar = "0h 0m".
Proof.
  eexists. split; [vm_compute; reflexivity|].
  split; [reflexivity|].
  match goal with
  | |- Chart.duration ?bar = _ =>
      pose proof (chart_durations_show_no_minutes
                    (statement [inspection]) [bar] eq_refl) as H
  end.
  inversion H as [|? ? [_ Hshort] _]; subst.
  apply Hshort. vm_compute. split; [discriminate | reflexivity].
Defined.

(** ** The earlier pipeline of the page *)

Lemma legacy_finishBlock_fields (b : TimelineBlock.t) :
  populated b ->
  exists b', Legacy.finishBlock b = Ok b'
    /\ TimelineBlock.subEvents b' = TimelineBlock.subEvents b
    /\ TimelineBlock.name b' = blockName (TimelineBlock.subEvents b)
    /\ TimelineBlock.time b' = TimelineBlock.time b
    /\ TimelineBlock.startTime b' = TimelineBlock.startTime b
    /\ TimelineBlock.endTime b' = TimelineBlock.endTime b
    /\ TimelineBlock.duration b'
       = Legacy.blockDuration
           (num (Z.quot (latest (TimelineBlock.subEvents b)
                         - earliest (TimelineBlock.subEvents b))
                        3600000)).
Proof.
  intros [Hne Hg]. unfold Legacy.finishBlock, blockStart, blockEnd.
  rewrite max_endDates, min_startDates by assumption.
  destruct (TimelineBlock.subEvents b) as [|e r] eqn:E; [contradiction|].
  rewrite at_index_head. cbn [reduce1 bind].
  destruct r as [|e' r'].
  - cbn [List.length Z.of_nat Z.ltb Z.compare Pos.of_succ_nat bind].
    eexists. split; [reflexivity|]. repeat split.
  - replace (1 <? Z.of_nat (List.length (e :: e' :: r'))) with true
      by (symmetry; apply Z.ltb_lt; cbn [List.length]; lia).
    cbn [bind]. eexists. split; [reflexivity|]. repeat split.
Qed.

Lemma legacy_blocks (bs news : list TimelineBlock.t) :
  Forall populated bs -> timelineBlocks bs = Ok news ->
  exists olds,
    mapM Legacy.finishBlock bs = Ok olds
    /\ Forall2 (fun old new =>
                  sameFrame old new
                  /\ TimelineBlock.duration old
                     = Legacy.blockDuration
                         (num (Z.quot
                                 (latest (TimelineBlock.subEvents new)
                                  - earliest (TimelineBlock.subEvents new))
                                 3600000)))
               olds news.
Proof.
  intros Hp. revert news. unfold timelineBlocks.
  induction Hp as [|b r Hb Hr IH]; intros news H; cbn [mapM] in *.
  - injection H as <-. exists []. split; [reflexivity | constructor].
  - destruct (finishBlock b) as [new|] eqn:En; [|discriminate].
    cbn [bind] in H.
    destruct (mapM finishBlock r) as [news'|] eqn:Er; [|discriminate].
    cbn [bind] in H. injection H as <-.
    destruct (legacy_finishBlock_fields b Hb)
      as (old & Eo & Os & On & Ot & Ost & Oe & Od).
    destruct (finishBlock_fields b new Hb En)
      as (Ns & Nn & _ & _ & Nt & Nst & Ne).
    destruct (IH news' eq_refl) as (olds & Eolds & Hall).
    exists (old :: olds). rewrite Eo, Eolds. cbn [bind].
    split; [reflexivity|]. constructor; [|exact Hall].
    unfold sameFrame. rewrite Os, On, Ot, Ost, Oe, Od, Ns, Nn, Nt, Nst, Ne.
    repeat split.
Qed.

(** X19: the earlier pipeline of the page forms the same blocks as the
    current one.  Where the current pipeline returns enriched data, the
    earlier one returns blocks with the same members, names, hours and
    texts of start and end, in the same order, their durations counted
    in whole hours; where the current one returns [null] the earlier one
    returns the extracted data, with no block; and the two raise on the
    same statements. *)
Theorem legacy_page_forms_the_same_blocks (data : Extracted.t) :
  (forall d, enrichedData (Some data) = Ok (Some d) ->
     exists olds,
       Legacy.enrichedData (Some data)
       = Ok (Some (Legacy.mk data (Some olds)))
       /\ Forall2 (fun old new =>
                     sameFrame old new
                     /\ TimelineBlock.duration old
                        = Legacy.blockDuration
                            (num (Z.quot
                                    (latest (TimelineBlock.subEvents new)
                                     - earliest
                                         (TimelineBlock.subEvents new))
                                    3600000)))
                  olds (Enriched.timelineBlocks d))
  /\ (enrichedData (Some data) = Ok None ->
      Legacy.enrichedData (Some data)
      = Ok (Some (Legacy.mk data
                    (match Extracted.events data with
                     | [] => None
                     | _ => Some []
                     end))))
  /\ (enrichedData (Some data) = Throw RangeError
      <-> Legacy.enrichedData (Some data) = Throw RangeError).
Proof.
  destruct (validEvents (Extracted.events data)) as [|v vs] eqn:Ev.
  - pose proof (enrichedData_null data Ev) as En. rewrite En.
    assert (El : Legacy.enrichedData (Some data)
                 = Ok (Some (Legacy.mk data
                               (match Extracted.events data with
                                | [] => None
                                | _ => Some []
                                end)))).
    { unfold Legacy.enrichedData. rewrite !length_zero, Ev.
      now destruct (Extracted.events data). }
    rewrite El. split; [discriminate|]. split; [auto|].
    split; discriminate.
  - assert (Hne : validEvents (Extracted.events data) <> [])
      by (rewrite Ev; discriminate).
    assert (Hev : Extracted.events data <> []).
    { intros E. rewrite E in Ev. discriminate. }
    assert (El : Legacy.enrichedData (Some data)
                 = (first <- at_index (sortedEvents (v :: vs)) 0 ;;
                    merged <- mergedBlocks
                                (parseISO (Event.startTime first))
                                (sortedEvents (v :: vs)) ;;
                    finalBlocks <- mapM Legacy.finishBlock merged ;;
                    Ok (Some (Legacy.mk data (Some finalBlocks))))).
    { unfold Legacy.enrichedData. rewrite !length_zero, Ev.
      destruct (Extracted.events data); [contradiction | reflexivity]. }
    destruct (allTimed_dec (v :: vs)) as [Ht|Hnt].
    + destruct (enrichedData_some data Hne) as
        (first & rest & blocks & summary & Es & Eb & _ & Ed);
        [now rewrite Ev|].
      rewrite Ev in Es, Ed. rewrite Ed.
      pose proof (sortedEvents_timed _ Ht) as Hs. rewrite Es in Hs.
      inversion Hs as [|? ? Hf _]; subst.
      destruct (timed_inv first Hf) as [Hfs _].
      destruct (legacy_blocks _ blocks
                  (swept_populated (Some (lo first)) (first :: rest) Hs) Eb)
        as (olds & Eo & Hall).
      assert (El' : Legacy.enrichedData (Some data)
                    = Ok (Some (Legacy.mk data (Some olds)))).
      { rewrite El, Es, at_index_head. cbn [bind].
        unfold parseISO at 1. rewrite Hfs.
        rewrite mergedBlocks_swept by assumption. cbn [bind].
        now rewrite Eo. }
      rewrite El'. split; [|split; [discriminate | split; discriminate]].
      intros d Hd. injection Hd as <-. exists olds.
      split; [reflexivity | exact Hall].
    + assert (Hnt' : ~ allTimed (validEvents (Extracted.events data)))
        by now rewrite Ev.
      rewrite (enrichedData_untimed data Hne Hnt').
      assert (El' : Legacy.enrichedData (Some data) = Throw RangeError).
      { rewrite El.
        pose proof (sortedEvents_length (v :: vs)) as Hlen.
        pose proof (sortedEvents_perm (v :: vs)) as Hperm.
        destruct (sortedEvents (v :: vs)) as [|first rest] eqn:Es;
          [discriminate|].
        rewrite at_index_head. cbn [bind].
        destruct (mergedBlocks_cases (parseISO (Event.startTime first))
                    (first :: rest)) as [[Hs _] | Hthrow].
        - exfalso. apply Hnt.
          eapply Permutation_Forall; [exact Hperm | exact Hs].
        - now rewrite Hthrow. }
      rewrite El'. split; [discriminate|]. split; [discriminate|].
      split; reflexivity.
Qed.

Lemma blockDuration_hours (t : Z) :
  Legacy.blockDuration (num t)
  = ((if (0 <? t / 24)%Z then toString (num (t / 24)%Z) ++ "d "
      else EmptyString)
     ++ toString (num (Z.rem t 24)) ++ "h "
     ++ (if ((t <? 0) && negb (Z.rem t 24 =? 0))%Z then "1440" else "0")
     ++ "m")%string.
Proof.
  unfold Legacy.blockDuration, floorDiv, rem, floor, round, roundDiv, mul,
    sub, lift2, gt, cmp2, num.
  rewrite gtb_ltb.
  assert (Em : (2 * (t * 3600 - t / 24 * 86400 - Z.rem t 24 * 3600) + 60)
               / (2 * 60)
               = if (t <? 0) && negb (Z.rem t 24 =? 0) then 1440 else 0).
  { pose proof (Z.div_mod t 24 ltac:(lia)) as Ed.
    pose proof (Z.mod_pos_bound t 24 ltac:(lia)) as Bd.
    destruct (Z.ltb_spec t 0) as [Hneg|Hpos]; cbn [andb].
    - pose proof (Z.rem_opp_l t 24 ltac:(lia)) as Eo.
      destruct (Z.eqb_spec (t mod 24) 0) as [Hz|Hnz].
      + assert (Er : Z.rem t 24 = 0).
        { apply Z.rem_divide; [lia|]. apply Z.mod_divide; [lia|exact Hz]. }
        rewrite Er. cbn [Z.eqb negb].
        symmetry; apply Z.div_unique with (r := 60); lia.
      + assert (Er : Z.rem t 24 = t mod 24 - 24).
        { pose proof (Z.rem_mod_nonneg (- t) 24 ltac:(lia) ltac:(lia)) as E1.
          pose proof (Z.mod_opp_l_nz t 24 ltac:(lia) Hnz) as E2.
          lia. }
        rewrite Er.
        destruct (Z.eqb_spec (t mod 24 - 24) 0); [lia|]. cbn [negb].
        symmetry; apply Z.div_unique with (r := 60); lia.
    - rewrite (Z.rem_mod_nonneg t 24) by lia.
      symmetry; apply Z.div_unique with (r := 60); lia. }
  rewrite Em.
  destruct ((t <? 0) && negb (Z.rem t 24 =? 0)); reflexivity.
Qed.

Lemma legacy_single_event (e : Event.t) :
  timed e = true ->
  exists b,
    Legacy.enrichedData (Some (statement [e]))
    = Ok (Some (Legacy.mk (statement [e]) (Some [b])))
    /\ TimelineBlock.subEvents b = [e]
    /\ TimelineBlock.duration b
       = Legacy.blockDuration (num (Z.quot (hi e - lo e) 3600000)).
Proof.
  intros He. destruct (timed_inv e He) as [Hs _].
  assert (Ht : allTimed [e]) by now repeat constructor.
  destruct (legacy_finishBlock_fields (opened (Some (lo e)) e)
              (opened_populated (Some (lo e)) e He))
    as (b & Eb & Esub & _ & _ & _ & _ & Ed).
  exists b. split; [|split; [exact Esub | exact Ed]].
  unfold Legacy.enrichedData. cbn [statement Extracted.events].
  rewrite !length_zero, (validEvents_fixed [e] Ht).
  change (sortedEvents [e]) with [e].
  rewrite at_index_head. cbn [bind].
  unfold parseISO at 1. rewrite Hs.
  rewrite (mergedBlocks_swept (Some (lo e)) [e] Ht). cbn [bind].
  cbn [swept sweepFrom List.app mapM]. rewrite Eb. reflexivity.
Qed.

(** X20: the earlier pipeline shows the duration of a block of [t] whole
    hours as its days when there are any, then the hours left and the
    minutes.  The minutes are never those of the block: they read [0],
    or [1440] when the span is negative and not a whole number of days.
    The block of a single event spans the whole hours from its start to
    its end, which are negative when the event ends before it starts. *)
Theorem legacy_durations_show_no_minutes (t : Z) :
  Legacy.blockDuration (num t)
  = ((if (0 <? t / 24)%Z then toString (num (t / 24)%Z) ++ "d "
      else EmptyString)
     ++ toString (num (Z.rem t 24)) ++ "h "
     ++ (if ((t <? 0) && negb (Z.rem t 24 =? 0))%Z then "1440" else "0")
     ++ "m")%string
  /\ forall e, timed e = true ->
       Z.quot (hi e - lo e) 3600000 = t ->
       exists b,
         Legacy.enrichedData (Some (statement [e]))
         = Ok (Some (Legacy.mk (statement [e]) (Some [b])))
         /\ TimelineBlock.duration b = Legacy.blockDuration (num t).
Proof.
  split; [apply blockDuration_hours|].
  intros e He <-. destruct (legacy_single_event e He) as (b & E & _ & Ed).
  now exists b.
Qed.

(** ** The timeline chart on the result of the pipeline *)

(** X21: on the blocks of the pipeline the dashboard never shows its
    alert: it draws one bar for each block, in order, and the colour of
    a bar is the colour that the table gives to the category of the
    first longest member of the block. *)
Theorem dashboard_draws_every_block (data : Extracted.t) (d : Enriched.t) :
  enrichedData (Some data) = Ok (Some d) ->
  exists bars,
    Timeline.AnalyticsDashboard (Enriched.timelineBlocks d)
    = Timeline.BarChart bars
    /\ map Timeline.block bars = Enriched.timelineBlocks d
    /\ Forall (fun bar =>
                 exists pre longest post,
                   TimelineBlock.subEvents (Timeline.block bar)
                   = pre ++ longest :: post
                   /\ Forall (fun e => minutesOf e < minutesOf longest) pre
                   /\ Forall (fun e => minutesOf e <= minutesOf longest)
                             post
                   /\ Timeline.fill bar
                      = Chart.fillOf (Event.category longest))
              bars.
Proof.
  intros H. destruct (enrichedData_blocks data d H)
    as (first & rest & Es & Hs & Eb & Em).
  assert (Hne : Enriched.timelineBlocks d <> []).
  { intros E. rewrite E in Em. cbn [members map] in Em.
    symmetry in Em. apply map_eq_nil in Em.
    cbn [swept] in Em.
    pose proof (swept_members (Some (lo first)) (first :: rest)) as Hc.
    cbn [swept] in Hc. rewrite Em in Hc. discriminate. }
  exists (Timeline.chartData (Enriched.timelineBlocks d)).
  split; [|split].
  - unfold Timeline.AnalyticsDashboard. rewrite length_zero.
    unfold Timeline.chartData.
    destruct (Enriched.timelineBlocks d); [contradiction | reflexivity].
  - unfold Timeline.chartData. rewrite map_map. cbn [Timeline.block].
    apply map_id.
  - unfold Timeline.chartData. apply Forall_map. apply Forall_forall.
    intros b' Hin. cbn [Timeline.block Timeline.fill].
    destruct (finished_blocks _ _ b' Eb Hin) as (b & Hb & Ef).
    assert (Hp : populated b).
    { pose proof (swept_populated (Some (lo first)) (first :: rest) Hs)
        as Hall.
      rewrite Forall_forall in Hall. now apply Hall. }
    destruct (finishBlock_fields b b' Hp Ef) as (Esub & _ & Ecat & _).
    destruct Hp as [Hnb Htb].
    destruct (TimelineBlock.subEvents b) as [|x g] eqn:Eg; [contradiction|].
    cbn [hd tl] in Ecat.
    destruct (fold_longer_first_longest g x Htb)
      as (pre & post & Esplit & Hpre & Hpost).
    exists pre, (fold_left longer g x), post.
    rewrite Esub, Ecat. repeat split; assumption.
Qed.

Lemma dashboard_draws_every_block_witness :
  exists d bar,
    enrichedData (Some (statement [loading; rain])) = Ok (Some d)
    /\ Timeline.AnalyticsDashboard (Enriched.timelineBlocks d)
       = Timeline.BarChart [bar]
    /\ Timeline.fill bar = Chart.Colour "hsl(var(--chart-2))".
Proof.
  eexists. eexists. split; [vm_compute; reflexivity|].
  match goal with
  | |- Timeline.AnalyticsDashboard (Enriched.timelineBlocks ?d) = _ /\ _ =>
      destruct (dashboard_draws_every_block
                  (statement [loading; rain]) d eq_refl)
        as (bars & E & _ & _)
  end.
  split; [vm_compute; reflexivity | reflexivity].
Defined.

(** ** The pipeline of the page without the filter *)

Lemma sweepFrom_groupsFrom (first : Date) (l : list Event.t) :
  forall cur,
    members (sweepFrom first cur [] l)
    = groupsFrom (TimelineBlock.subEvents cur) l.
Proof.
  induction l as [|e r IH]; intros cur; cbn [sweepFrom groupsFrom].
  - reflexivity.
  - destruct (lo e <? latest (TimelineBlock.subEvents cur)).
    + rewrite IH. reflexivity.
    + rewrite sweepFrom_merged. unfold members in *.
      rewrite map_app, IH. reflexivity.
Qed.

Lemma swept_groups (first : Date) (l : list Event.t) :
  members (swept first l) = groups l.
Proof.
  destruct l as [|e r]; [reflexivity|]. apply sweepFrom_groupsFrom.
Qed.

Lemma page_open_timed (first : Date) (e : Event.t) :
  timed e = true ->
  exists b, AppPage.openBlock first e = Ok b
            /\ TimelineBlock.subEvents b = [e].
Proof.
  intros He. destruct (timed_inv e He) as [Hs Ht].
  unfold AppPage.openBlock, parseISO. rewrite Hs, Ht.
  eexists. split; reflexivity.
Qed.

Lemma page_open_untimed (first : Date) (e : Event.t) :
  timed e = false -> AppPage.openBlock first e = Throw RangeError.
Proof.
  unfold timed, AppPage.openBlock, parseISO, format.
  destruct (Event.startTime e), (Event.endTime e);
    intros H; try discriminate; reflexivity.
Qed.

Lemma page_step_timed (first : Date) (cur : TimelineBlock.t)
  (merged : list TimelineBlock.t) (e : Event.t) :
  populated cur -> timed e = true ->
  exists cur' merged',
    AppPage.sweepStep first (Some cur, merged) e = Ok (Some cur', merged')
    /\ populated cur'
    /\ ((lo e <? latest (TimelineBlock.subEvents cur)) = true
        /\ TimelineBlock.subEvents cur' = TimelineBlock.subEvents cur ++ [e]
        /\ merged' = merged
        \/ (lo e <? latest (TimelineBlock.subEvents cur)) = false
           /\ TimelineBlock.subEvents cur' = [e]
           /\ merged' = merged ++ [cur]).
Proof.
  intros Hcur He. unfold AppPage.sweepStep.
  rewrite (sweepStep_test cur e Hcur He).
  destruct Hcur as [Hne Hg]. destruct (timed_inv e He) as [Hs Ht].
  destruct (lo e <? latest (TimelineBlock.subEvents cur)).
  - rewrite max_endDates by assumption.
    destruct (TimelineBlock.subEvents cur) as [|a r] eqn:Ec; [contradiction|].
    cbn [List.app]. rewrite at_index_head. cbn [bind].
    inversion Hg as [|? ? Ha _]; subst.
    destruct (timed_inv a Ha) as [Has _].
    unfold parseISO. rewrite Has, Ht.
    cbn [max pick fold_left lift2 format bind].
    eexists. eexists. split; [reflexivity|]. split.
    + split; cbn [TimelineBlock.subEvents]; [discriminate|].
      change (a :: r ++ [e]) with ((a :: r) ++ [e]).
      now apply allTimed_snoc.
    + left. repeat split.
  - destruct (page_open_timed first e He) as (b & Eb & Hb).
    rewrite Eb. cbn [bind].
    eexists. eexists. split; [reflexivity|]. split.
    + split; rewrite Hb; [discriminate | now repeat constructor].
    + right. repeat split. exact Hb.
Qed.

Lemma page_step_untimed (first : Date) (cur : TimelineBlock.t)
  (merged : list TimelineBlock.t) (e : Event.t) :
  populated cur -> timed e = false ->
  AppPage.sweepStep first (Some cur, merged) e = Throw RangeError.
Proof.
  intros [Hne Hg] He. unfold AppPage.sweepStep.
  rewrite max_endDates by assumption.
  rewrite (page_open_untimed first e He).
  destruct (lt _ _) eqn:Elt; [|reflexivity].
  destruct (TimelineBlock.subEvents cur) as [|a r] eqn:Ec; [contradiction|].
  cbn [List.app]. rewrite at_index_head. cbn [bind].
  unfold timed in He. unfold parseISO, getTime, lt, cmp2 in *.
  destruct (Event.startTime e) as [| |s]; try discriminate.
  destruct (Event.endTime e) as [| |t]; try discriminate; reflexivity.
Qed.

Lemma page_fold_timed (first : Date) (l : list Event.t) :
  allTimed l ->
  forall cur merged, populated cur ->
    exists cur' merged',
      foldM (AppPage.sweepStep first) l (Some cur, merged)
      = Ok (Some cur', merged')
      /\ members (merged' ++ [cur'])
         = members merged ++ groupsFrom (TimelineBlock.subEvents cur) l.
Proof.
  induction 1 as [|e r He Hr IH]; intros cur merged Hcur.
  - exists cur, merged. split; [reflexivity|].
    unfold members. now rewrite map_app.
  - cbn [foldM groupsFrom].
    destruct (page_step_timed first cur merged e Hcur He)
      as (cur' & merged' & Es & Hcur'
          & [(Et & Ec & Em) | (Et & Ec & Em)]);
      rewrite Es, Et; cbn [bind]; subst merged'.
    + destruct (IH cur' merged Hcur') as (cur2 & merged2 & Ef & Eg).
      exists cur2, merged2. split; [exact Ef|]. now rewrite Eg, Ec.
    + destruct (IH cur' (merged ++ [cur]) Hcur')
        as (cur2 & merged2 & Ef & Eg).
      exists cur2, merged2. split; [exact Ef|].
      rewrite Eg, Ec. unfold members.
      rewrite map_app, <- app_assoc. reflexivity.
Qed.

Lemma page_fold_cases (first : Date) (l : list Event.t) :
  forall cur merged, populated cur ->
    allTimed l
    \/ foldM (AppPage.sweepStep first) l (Some cur, merged)
       = Throw RangeError.
Proof.
  induction l as [|e r IH]; intros cur merged Hcur.
  - left. constructor.
  - cbn [foldM]. destruct (timed e) eqn:He.
    + destruct (page_step_timed first cur merged e Hcur He)
        as (cur' & merged' & Es & Hcur' & _).
      rewrite Es. cbn [bind].
      destruct (IH cur' merged' Hcur') as [Hr | Hthrow].
      * left. now constructor.
      * now right.
    + right. now rewrite page_step_untimed.
Qed.

Lemma page_blocks_timed (first : Date) (l : list Event.t) :
  allTimed l ->
  exists blocks,
    AppPage.mergedBlocks first l = Ok blocks /\ members blocks = groups l.
Proof.
  intros Hl. unfold AppPage.mergedBlocks.
  destruct l as [|e r]; [now exists []|].
  replace (0 <? Z.of_nat (List.length (e :: r))) with true
    by (symmetry; apply Z.ltb_lt; cbn [List.length]; lia).
  inversion Hl as [|? ? He Hr]; subst.
  cbn [foldM]. unfold AppPage.sweepStep at 1.
  destruct (page_open_timed first e He) as (b & Eb & Hb).
  rewrite Eb. cbn [bind].
  destruct (page_fold_timed first r Hr b []) as (cur & merged & Ef & Eg).
  - split; rewrite Hb; [discriminate | now repeat constructor].
  - rewrite Ef. cbn [bind fst snd]. eexists. split; [reflexivity|].
    rewrite Eg, Hb. reflexivity.
Qed.

Lemma page_blocks_untimed (first : Date) (l : list Event.t) :
  ~ allTimed l -> AppPage.mergedBlocks first l = Throw RangeError.
Proof.
  intros Hl. unfold AppPage.mergedBlocks.
  destruct l as [|e r]; [exfalso; apply Hl; constructor|].
  replace (0 <? Z.of_nat (List.length (e :: r))) with true
    by (symmetry; apply Z.ltb_lt; cbn [List.length]; lia).
  cbn [foldM]. unfold AppPage.sweepStep at 1.
  destruct (timed e) eqn:He.
  - destruct (page_open_timed first e He) as (b & Eb & Hb).
    rewrite Eb. cbn [bind].
    destruct (page_fold_cases first r b []) as [Hr | Hthrow].
    + split; rewrite Hb; [discriminate | now repeat constructor].
    + exfalso. apply Hl. now constructor.
    + now rewrite Hthrow.
  - now rewrite page_open_untimed.
Qed.

Lemma groupsFrom_populated (l cur : list Event.t) :
  cur <> [] -> allTimed cur -> allTimed l ->
  Forall (fun g => g <> [] /\ allTimed g) (groupsFrom cur l).
Proof.
  revert cur. induction l as [|e r IH]; intros cur Hne Hg Hl;
    cbn [groupsFrom].
  - now repeat constructor.
  - inversion Hl as [|? ? He Hr]; subst.
    destruct (lo e <? latest cur).
    + apply IH; [apply not_nil_snoc | now apply allTimed_snoc | exact Hr].
    + constructor; [now split|].
      apply IH; [discriminate | now repeat constructor | exact Hr].
Qed.

Lemma page_blockDuration (t : number) :
  AppPage.blockDuration t = Legacy.blockDuration t.
Proof.
  destruct t as [t|]; [|reflexivity].
  unfold AppPage.blockDuration, Legacy.blockDuration, floorDiv, rem, floor,
    round, roundDiv, mul, sub, lift2, gt, cmp2, num.
  assert (E : (2 * (t * 3600 - t / 24 * 86400 - Z.rem t 24 * 3600) + 60)
              / (2 * 60)
              = (t - t / 24 * 24 - Z.rem t 24) * 60)
    by (symmetry; apply Z.div_unique with (r := 60); lia).
  now rewrite E.
Qed.

Lemma page_finish_populated (b : TimelineBlock.t) :
  populated b ->
  exists c, AppPage.finishBlock b = Ok c
    /\ TimelineBlock.subEvents c = TimelineBlock.subEvents b
    /\ TimelineBlock.duration c
       = AppPage.blockDuration (num (hoursOf (TimelineBlock.subEvents b))).
Proof.
  intros [Hne Hg]. unfold AppPage.finishBlock.
  rewrite max_endDates by assumption.
  destruct (TimelineBlock.subEvents b) as [|a r] eqn:E; [contradiction|].
  rewrite at_index_head. cbn [reduce1 bind].
  inversion Hg as [|? ? Ha _]; subst.
  rewrite (headStart_date (a :: r) a r eq_refl Ha).
  destruct (1 <? Z.of_nat (List.length (a :: r))); cbn [bind];
    eexists; (split; [reflexivity|]); split; reflexivity.
Qed.

Lemma page_finish_all (blocks : list TimelineBlock.t) :
  Forall (fun g => g <> [] /\ allTimed g) (members blocks) ->
  exists finalBlocks,
    mapM AppPage.finishBlock blocks = Ok finalBlocks
    /\ members finalBlocks = members blocks
    /\ Forall (fun c => TimelineBlock.duration c
                        = AppPage.blockDuration
                            (num (hoursOf (TimelineBlock.subEvents c))))
              finalBlocks.
Proof.
  unfold members.
  induction blocks as [|b r IH]; intros H; cbn [map] in *.
  - exists []. repeat split. constructor.
  - inversion H as [|? ? Hb Hr]; subst.
    destruct (page_finish_populated b Hb) as (c & Ec & Em & Ed).
    destruct (IH Hr) as (cs & Eb & Ems & Eds).
    exists (c :: cs). cbn [mapM]. rewrite Ec, Eb. cbn [bind map].
    split; [reflexivity|]. split; [now rewrite Em, Ems|].
    constructor; [now rewrite Em | exact Eds].
Qed.

Lemma page_timed (data : Extracted.t) :
  Extracted.events data <> [] -> allTimed (Extracted.events data) ->
  exists blocks,
    AppPage.enrichedData (Some data)
    = Ok (Some (Legacy.mk data (Some blocks)))
    /\ members blocks = groups (sortedEvents (Extracted.events data))
    /\ Forall (fun c => TimelineBlock.duration c
                        = AppPage.blockDuration
                            (num (hoursOf (TimelineBlock.subEvents c))))
              blocks.
Proof.
  intros Hne Ht. unfold AppPage.enrichedData. rewrite length_zero.
  destruct (Extracted.events data) as [|e0 evs] eqn:Eev; [contradiction|].
  rewrite <- Eev in *.
  pose proof (sortedEvents_timed _ Ht) as Hs.
  pose proof (sortedEvents_length (Extracted.events data)) as Hlen.
  destruct (sortedEvents (Extracted.events data)) as [|first rest] eqn:Es.
  { rewrite Eev in Hlen. discriminate. }
  rewrite at_index_head. cbn [bind].
  destruct (page_blocks_timed
              (parseISO (Event.startTime first)) (first :: rest) Hs)
    as (blocks & Eb & Em).
  rewrite Eb. cbn [bind].
  destruct (page_finish_all blocks) as (finalBlocks & Ef & Ems & Eds).
  - rewrite Em. inversion Hs; subst.
    apply groupsFrom_populated;
      [discriminate | now repeat constructor | assumption].
  - exists finalBlocks. rewrite Ef. cbn [bind].
    split; [reflexivity|]. split; [|exact Eds]. now rewrite Ems.
Qed.

Lemma page_untimed (data : Extracted.t) :
  ~ allTimed (Extracted.events data) ->
  AppPage.enrichedData (Some data) = Throw RangeError.
Proof.
  intros Hnt. unfold AppPage.enrichedData. rewrite length_zero.
  destruct (Extracted.events data) as [|e0 evs] eqn:Eev.
  - exfalso. apply Hnt. constructor.
  - rewrite <- Eev in *.
    pose proof (sortedEvents_length (Extracted.events data)) as Hlen.
    pose proof (sortedEvents_perm (Extracted.events data)) as Hperm.
    destruct (sortedEvents (Extracted.events data)) as [|first rest] eqn:Es.
    { rewrite Eev in Hlen. discriminate. }
    rewrite at_index_head. cbn [bind].
    rewrite page_blocks_untimed; [reflexivity|].
    intros Hs. apply Hnt. eapply Permutation_Forall; [exact Hperm|exact Hs].
Qed.

(** X22: the version of the page that has no filter raises a
    [RangeError] exactly when an extracted event lacks a readable time.
    When every event has both, it forms the groups of the current
    pipeline: its blocks have the members of the blocks that the current
    pipeline returns on the same statement, and it shows their durations
    in whole hours, by the same text as the other earlier version. *)
Theorem unfiltered_page_forms_the_same_groups (data : Extracted.t) :
  (AppPage.enrichedData (Some data) = Throw RangeError
   <-> ~ allTimed (Extracted.events data))
  /\ (forall d blocks,
        enrichedData (Some data) = Ok (Some d) ->
        AppPage.enrichedData (Some data)
        = Ok (Some (Legacy.mk data (Some blocks))) ->
        members blocks = members (Enriched.timelineBlocks d)
        /\ Forall (fun c => TimelineBlock.duration c
                            = Legacy.blockDuration
                                (num (hoursOf (TimelineBlock.subEvents c))))
                  blocks)
  /\ (allTimed (Extracted.events data) ->
      Extracted.events data <> [] ->
      exists d blocks,
        enrichedData (Some data) = Ok (Some d)
        /\ AppPage.enrichedData (Some data)
           = Ok (Some (Legacy.mk data (Some blocks)))).
Proof.
  assert (Hboth : allTimed (Extracted.events data) ->
                  Extracted.events data <> [] ->
                  exists d blocks,
                    enrichedData (Some data) = Ok (Some d)
                    /\ AppPage.enrichedData (Some data)
                       = Ok (Some (Legacy.mk data (Some blocks)))
                    /\ members blocks = members (Enriched.timelineBlocks d)
                    /\ Forall
                         (fun c =>
                            TimelineBlock.duration c
                            = Legacy.blockDuration
                                (num (hoursOf (TimelineBlock.subEvents c))))
                         blocks).
  { intros Ht Hne.
    destruct (page_timed data Hne Ht) as (blocks & Ep & Em & Ed).
    pose proof (validEvents_fixed _ Ht) as Ev.
    destruct (enrichedData_some data) as
      (first & rest & news & summary & Es & _ & Emn & Ee);
      [now rewrite Ev | now rewrite Ev |].
    eexists. exists blocks. split; [exact Ee|]. split; [exact Ep|].
    cbn [Enriched.timelineBlocks]. split.
    - rewrite Em, <- Ev, Es, <- (swept_groups (Some (lo first))).
      unfold members. now rewrite Emn.
    - eapply Forall_impl; [|exact Ed]. cbv beta. intros c Ec.
      now rewrite Ec, page_blockDuration. }
  split; [|split].
  - destruct (allTimed_dec (Extracted.events data)) as [Ht|Hnt].
    + split; [|intros H; contradiction].
      intros E. exfalso.
      destruct (Extracted.events data) as [|e0 evs] eqn:Eev.
      * unfold AppPage.enrichedData in E. rewrite Eev in E. discriminate.
      * rewrite <- Eev in *.
        destruct (page_timed data) as (blocks & Ep & _);
          [rewrite Eev; discriminate | exact Ht |].
        rewrite Ep in E. discriminate.
    + split; [auto | intros _; now apply page_untimed].
  - intros d blocks Hd Hp.
    destruct (allTimed_dec (Extracted.events data)) as [Ht|Hnt].
    + assert (Hne : Extracted.events data <> []).
      { intros E. destruct (enrichedData_inv data d Hd) as (Hv & _).
        apply Hv. now rewrite E. }
      destruct (Hboth Ht Hne) as (d' & blocks' & Hd' & Hp' & Em & Ed).
      rewrite Hd in Hd'. injection Hd' as <-.
      rewrite Hp in Hp'. injection Hp' as <-.
      split; assumption.
    + rewrite (page_untimed data Hnt) in Hp. discriminate.
  - intros Ht Hne. destruct (Hboth Ht Hne) as (d & blocks & Hd & Hp & _).
    now exists d, blocks.
Qed.
